(** * Inventario: a shallow embedding of [app.py]

    The program is a Streamlit page over a pandas table.  This file
    models the parts of it that carry logic: the normalisation helpers,
    the duplicate check, the id generator, the two loaders and the two
    writers, the submit handler of the add form, the filters, the merge
    of the data editor, the QR payload, and the summary by "ID Similar"
    with its detail.

    Conventions.
    - A table with the seven columns of [APP_COLUMNS] is the list of its
      rows; a field is a dynamically typed [cell] of an object column.
      A quantity [CInt z] of a record set is a 64-bit integer, which is
      what [astype(int)] leaves in the column.
    - A Python string is Unicode text; it is held here as the bytes of
      its UTF-8 encoding.  Equality, concatenation, the substring test
      and the order of strings are the same on both sides.  The methods
      that depend on the Unicode tables, [str.upper], [str.lower] and
      [str.strip], are not in the source: they are fields of [Library].
    - So is everything else the program takes from its libraries and
      that its source does not fix: the decimal digits beyond ASCII that
      [\d] and [int] read, the parsing of numbers in strings, the
      conversion of a column that does not fit 64-bit integers exactly,
      [ws.get_all_records()] and [pd.read_csv].  What is written is
      fixed by the source and by the defaults of [to_csv], down to the
      text of each field.
    - Code that can raise returns a [result].  The handlers of the page
      pass the state of a run explicitly: the world (worksheet, file,
      cache) and the table [df].
    - [.loc] on a label that several lines carry is not modelled: the
      merge is a partial function, defined when each label it looks up
      denotes one line.

    Each definition carries the name of the source function, or the
    source lines, it is translated from.  The first part holds the
    definitions, the second the lemmas and the theorems.  The theorems
    hold for every [Library]; the facts about the library methods that a
    theorem relies on are its hypotheses.  The examples are run with
    [sample_lib], whose string methods are those of Python on ASCII
    text. *)

From Stdlib Require Import ZArith List String Ascii Bool Lia DecimalString.
From Stdlib Require Import OrderedTypeEx Sorted Permutation DecimalPos.
Import ListNotations.
Open Scope string_scope.
Open Scope Z_scope.

(* ===================================================================== *)
(** * Cells, rows and tables *)
(* ===================================================================== *)

(** A cell of a pandas object column: [None], the float [NaN] that pandas
    uses for a missing value, a Python [int] or a Python [str].  Floats
    other than [NaN] are not represented. *)
Inductive cell : Type :=
  | CNone
  | CNaN
  | CInt (z : Z)
  | CStr (s : string).

Definition cell_eq_dec (a b : cell) : {a = b} + {a <> b}.
Proof. decide equality; [apply Z.eq_dec | apply string_dec]. Defined.

Definition cell_eqb (a b : cell) : bool :=
  if cell_eq_dec a b then true else false.

(** One line of the table, with the seven columns of [APP_COLUMNS]. *)
Record row : Type := mk_row {
  ID : cell;
  ID_Similar : cell;
  Imagen : cell;
  Descripcion : cell;
  Unidad : cell;
  Cantidad : cell;
  Ubicacion_Fisica : cell
}.

Definition row_eq_dec (a b : row) : {a = b} + {a <> b}.
Proof. decide equality; apply cell_eq_dec. Defined.

(** A [DataFrame] whose columns are [APP_COLUMNS]: its rows, in order. *)
Definition frame : Type := list row.

Definition frame_eq_dec : forall a b : frame, {a = b} + {a <> b} :=
  list_eq_dec row_eq_dec.

(** [DataFrame.equals]. *)
Definition equals (a b : frame) : bool :=
  if frame_eq_dec a b then true else false.

(** [df.empty] on such a frame: it has no row. *)
Definition empty (df : frame) : bool :=
  match df with
  | [] => true
  | _ :: _ => false
  end.

Definition APP_COLUMNS : list string :=
  ["ID"; "ID Similar"; "Imagen"; "Descripción"; "Unidad"; "Cantidad";
   "Ubicación Física"].

Definition ids (df : frame) : list cell := map ID df.

Definition is_str (c : cell) : bool :=
  match c with
  | CStr _ => true
  | _ => false
  end.

Definition is_int (c : cell) : bool :=
  match c with
  | CInt _ => true
  | _ => false
  end.

Definition notna (c : cell) : bool :=
  match c with
  | CNone | CNaN => false
  | _ => true
  end.

(** The record sets of the data model: every [ID] is a string and every
    [Cantidad] an integer, which is what [load_data] establishes. *)
Definition record_set (df : frame) : Prop :=
  Forall (fun r => is_str (ID r) = true /\ is_int (Cantidad r) = true) df.

(** The range of a 64-bit integer, and the value a 64-bit integer takes
    when a result leaves the range. *)
Definition int64 (z : Z) : bool := (- 2 ^ 63 <=? z) && (z <? 2 ^ 63).

Definition wrap64 (z : Z) : Z := (z + 2 ^ 63) mod 2 ^ 64 - 2 ^ 63.

(* ===================================================================== *)
(** * Exceptions *)
(* ===================================================================== *)

Inductive exn : Type :=
  | FileNotFoundError
  | ValueError
  | AttributeError
  | OverflowError
  | IntCastingNaNError
  | OtherError.

Inductive result (A : Type) : Type :=
  | Ok (a : A)
  | Raise (e : exn).

Arguments Ok {A} a.
Arguments Raise {A} e.

Definition bind {A B : Type} (m : result A) (k : A -> result B) : result B :=
  match m with
  | Ok a => k a
  | Raise e => Raise e
  end.

Notation "x <- m ;; k" := (bind m (fun x => k))
  (at level 61, m at next level, right associativity).

Fixpoint mapM {A B : Type} (f : A -> result B) (l : list A)
  : result (list B) :=
  match l with
  | [] => Ok []
  | a :: t => b <- f a ;; bs <- mapM f t ;; Ok (b :: bs)
  end.

(* ===================================================================== *)
(** * What the libraries read *)
(* ===================================================================== *)

(** What a reader hands to pandas: the column labels and, for each line,
    the cells by label.  A label a line does not carry reads as [NaN]. *)
Record raw_frame : Type := mk_raw {
  columns : list string;
  records : list (list (string * cell))
}.

(** What [pd.to_numeric(..., errors="coerce")] reads in one value: an
    integer of any size; a finite float that is not written as an
    integer, given by the 64-bit integer that [astype(int)] makes of it;
    [NaN], which is also what a text that is not a number becomes; or an
    infinity. *)
Inductive numeric : Type :=
  | Integer (z : Z)
  | Fractional (t : Z)
  | NotANumber
  | Infinite.

(** A grid of text fields, line by line: what a CSV file or a worksheet
    holds.  The first line carries the column labels. *)
Definition grid : Type := list (list string).

(** The library functions the program calls and whose results the source
    does not fix.
    - [upper], [lower], [strip]: [str.upper], [str.lower], [str.strip],
      with the case mappings and the whitespace of Unicode.
    - [unicode_digit s]: when the text [s] begins with a decimal digit
      that is not one of the ten ASCII digits, the value of the digit and
      the text after it.  The pattern [\d] and [int] read these digits
      like the ASCII ones.
    - [int_max_str_digits]: [sys.int_max_str_digits], the longest decimal
      literal [int] converts (4300 by default; 0 for no limit, also in a
      Python that has no such limit).
    - [str_to_numeric s]: what [pd.to_numeric] reads in the string [s].
    - [inexact_value col n]: what [fillna(0).astype(int)] gives the value
      [n] of a column [col] that [pd.to_numeric] can neither keep as
      64-bit integers nor hold exactly in floats.
    - [get_all_records g]: what [ws.get_all_records()] returns for the
      contents [g] of the worksheet.
    - [read_csv g]: what [pd.read_csv] returns for the contents [g] of
      the file. *)
Class Library : Type := {
  upper : string -> string;
  lower : string -> string;
  strip : string -> string;
  unicode_digit : string -> option (N * string);
  int_max_str_digits : nat;
  str_to_numeric : string -> numeric;
  inexact_value : list numeric -> numeric -> result Z;
  get_all_records : grid -> result (list (list (string * cell)));
  read_csv : grid -> result raw_frame
}.

(** The world outside the script: the worksheet [ws] when the connection
    succeeded ([None] is the local mode), the file [inventario.csv]
    ([None] when it does not exist), and the [st.cache_data] entry of
    [_load_local]. *)
Record world : Type := mk_world {
  ws : option grid;
  csv : option grid;
  cache : option frame
}.

(** The three entries of the "Formato de texto" select box. *)
Inductive norm_case_t : Type :=
  | Sin_cambio
  | Mayusculas
  | Minusculas.

(** The sidebar: "Formato de texto", "Quitar espacios al principio/fin"
    and "Permitir borrar filas cuando hay filtros activos". *)
Record settings : Type := mk_settings {
  norm_case : norm_case_t;
  strip_spaces : bool;
  allow_delete_filtered : bool
}.

(** What a run of the script holds: the world, and the table [df] that
    the sections below the editor (QR, summary, export) go on to use. *)
Record state : Type := mk_state {
  st_world : world;
  st_df : frame
}.

Inductive message : Type :=
  | Error_duplicate_on_add
  | Success_added (new_id : string)
  | Info_removed (n : nat)
  | Error_duplicates_not_saved
  | Success_saved.

(** The fields of the add form. *)
Record alta : Type := mk_alta {
  imagen : string;
  descripcion : string;
  unidad : string;
  cantidad : Z;
  ubicacion : string;
  id_similar : string
}.

(** One line of the summary. *)
Record resumen_row : Type := mk_resumen {
  res_ID_Similar : string;
  Total_Cantidad : Z;
  Num_Items : nat
}.

(* ===================================================================== *)
(** * Text that does not depend on the library *)
(* ===================================================================== *)

(** [str(z)] for an integer: decimal digits, with a leading minus sign. *)
Definition str_of_Z (z : Z) : string := NilEmpty.string_of_int (Z.to_int z).

(** [f"{n:04d}"]: decimal, padded on the left with zeros to four
    characters; longer numbers are printed in full. *)
Fixpoint zeros (n : nat) : string :=
  match n with
  | O => EmptyString
  | S k => String "0" (zeros k)
  end.

Definition format_04d (z : Z) : string :=
  let digits := str_of_Z (Z.abs z) in
  if z <? 0
  then "-" ++ zeros (3 - String.length digits) ++ digits
  else zeros (4 - String.length digits) ++ digits.

(** [str(val)] on a cell. *)
Definition py_str (v : cell) : string :=
  match v with
  | CNone => "None"
  | CNaN => "nan"
  | CInt z => str_of_Z z
  | CStr s => s
  end.

(** Python truth of a string and of a list: not empty. *)
Definition truthy_str (q : string) : bool := negb (String.eqb q "").

Definition truthy_list {A : Type} (l : list A) : bool :=
  match l with
  | [] => false
  | _ :: _ => true
  end.

(** [a in b] on strings: [a] occurs in [b], at some position. *)
Fixpoint contains (a b : string) : bool :=
  String.prefix a b
  || match b with
     | EmptyString => false
     | String _ t => contains a t
     end.

(** Strings are ordered as Python orders them: character by character,
    a proper prefix first.  On UTF-8 text the order of the bytes is the
    order of the characters. *)
Definition str_cmp : string -> string -> comparison := String_as_OT.cmp.

Section App.

Context {lib : Library}.

(* ===================================================================== *)
(** * The normalisation helpers *)
(* ===================================================================== *)

(** [_normalize_idsim(val, norm_case, strip_spaces)], lines 140-150. *)
Definition _normalize_idsim (val : cell) (norm_case : norm_case_t)
    (strip_spaces : bool) : string :=
  match val with
  | CNone => ""
  | _ =>
      let s := py_str val in
      let s := if strip_spaces then strip s else s in
      match norm_case with
      | Mayusculas => upper s
      | Minusculas => lower s
      | Sin_cambio => s
      end
  end.

(** [_norm_text(s)], lines 152-155. *)
Definition _norm_text (s : cell) : string :=
  match s with
  | CNone => ""
  | _ => lower (strip (py_str s))
  end.

(* ===================================================================== *)
(** * Reading a table: [_read_from_gsheets] and [_load_local] *)
(* ===================================================================== *)

Fixpoint get (rec : list (string * cell)) (col : string) : cell :=
  match rec with
  | [] => CNaN
  | (k, v) :: t => if String.eqb k col then v else get t col
  end.

Definition has_column (df : raw_frame) (col : string) : bool :=
  existsb (String.eqb col) (columns df).

(** [df.empty] on a raw frame: no line or no column. *)
Definition raw_empty (df : raw_frame) : bool :=
  match records df, columns df with
  | [], _ => true
  | _, [] => true
  | _, _ => false
  end.

(** [pd.DataFrame(columns=APP_COLUMNS)]. *)
Definition empty_frame : raw_frame := mk_raw APP_COLUMNS [].

(** [df[col] = []] inside [if col not in df.columns]: a new column of
    length zero fits only a table without lines; pandas raises
    [ValueError] (length of values does not match length of index)
    otherwise. *)
Definition add_missing (df : raw_frame) (col : string) : result raw_frame :=
  if has_column df col then Ok df
  else
    match records df with
    | [] => Ok (mk_raw (columns df ++ [col])%list [])
    | _ :: _ => Raise ValueError
    end.

(** The loop [for col in APP_COLUMNS] of lines 70-72 and 96-98. *)
Fixpoint add_missing_columns (cols : list string) (df : raw_frame)
  : result raw_frame :=
  match cols with
  | [] => Ok df
  | col :: rest => df' <- add_missing df col ;; add_missing_columns rest df'
  end.

(** [df = df[APP_COLUMNS]]. *)
Definition select_row (rec : list (string * cell)) : row :=
  {| ID := get rec "ID";
     ID_Similar := get rec "ID Similar";
     Imagen := get rec "Imagen";
     Descripcion := get rec "Descripción";
     Unidad := get rec "Unidad";
     Cantidad := get rec "Cantidad";
     Ubicacion_Fisica := get rec "Ubicación Física" |}.

Definition select_app_columns (df : raw_frame) : frame :=
  map select_row (records df).

(** [pd.to_numeric(..., errors="coerce")] on one cell. *)
Definition to_numeric (c : cell) : numeric :=
  match c with
  | CInt z => Integer z
  | CStr s => str_to_numeric s
  | CNone | CNaN => NotANumber
  end.

Definition is_int64 (n : numeric) : bool :=
  match n with
  | Integer z => int64 z
  | _ => false
  end.

(** A value that a float holds exactly: an integer is one up to 2^53 in
    absolute value. *)
Definition exact (n : numeric) : bool :=
  match n with
  | Integer z => Z.abs z <=? 2 ^ 53
  | _ => true
  end.

Definition integer_value (n : numeric) : Z :=
  match n with
  | Integer z => z
  | _ => 0
  end.

(** [fillna(0).astype(int)] on one value of a column of floats that holds
    its integers exactly.  [astype(int)] raises on a non-finite value. *)
Definition float_to_int (n : numeric) : result Z :=
  match n with
  | Integer z => Ok z
  | Fractional t => Ok (wrap64 t)
  | NotANumber => Ok 0
  | Infinite => Raise IntCastingNaNError
  end.

(** [pd.to_numeric(col, errors="coerce").fillna(0).astype(int)] on the
    column.  The type of the column is decided on all its values: it
    stays a column of 64-bit integers when every value is one; it is a
    column of floats as soon as a value is missing, is not a number or
    is not written as an integer, and the floats hold the integers up to
    2^53 exactly.  The other columns (an integer beyond the 64-bit range,
    or beyond 2^53 among floats) are left to the library; the result is
    a 64-bit integer in every case. *)
Definition coerce_cantidad (col : list cell) : result (list Z) :=
  let ns := map to_numeric col in
  if forallb is_int64 ns then Ok (map integer_value ns)
  else if forallb exact ns then mapM float_to_int ns
  else mapM (fun n => z <- inexact_value ns n ;; Ok (wrap64 z)) ns.

(** One row after lines 75-76 (and 101-102): [Cantidad] is the integer
    [q], and [ID] goes through [astype(str)]. *)
Definition coerced (r : row) (q : Z) : row :=
  {| ID := CStr (py_str (ID r));
     ID_Similar := ID_Similar r;
     Imagen := Imagen r;
     Descripcion := Descripcion r;
     Unidad := Unidad r;
     Cantidad := CInt q;
     Ubicacion_Fisica := Ubicacion_Fisica r |}.

(** Lines 75-76 (and 101-102) on the table. *)
Definition coerce_frame (df : frame) : result frame :=
  qs <- coerce_cantidad (map Cantidad df) ;;
  Ok (map (fun p => coerced (fst p) (snd p)) (combine df qs)).

(** Lines 70-77 and 96-103, which the two readers share. *)
Definition conform (df : raw_frame) : result frame :=
  df <- add_missing_columns APP_COLUMNS df ;;
  let df := select_app_columns df in
  if negb (empty df) then coerce_frame df else Ok df.

Fixpoint add_labels (seen : list string) (rec : list (string * cell))
  : list string :=
  match rec with
  | [] => seen
  | (k, _) :: t =>
      let seen := if existsb (String.eqb k) seen then seen
                  else (seen ++ [k])%list in
      add_labels seen t
  end.

(** [pd.DataFrame(raw)] on a list of dictionaries: the columns are the
    keys, in the order in which they first appear. *)
Definition DataFrame (raw : list (list (string * cell))) : raw_frame :=
  mk_raw (fold_left add_labels raw []) raw.

(** The body of the [try] of [_read_from_gsheets], lines 66-77. *)
Definition read_from_gsheets_try (sheet : grid) : result frame :=
  raw <- get_all_records sheet ;;
  let df := DataFrame raw in
  let df := if raw_empty df then empty_frame else df in
  conform df.

(** [_read_from_gsheets(ws)], lines 64-80: any exception becomes a
    warning and the empty table.  The flag tells whether the warning was
    shown. *)
Definition _read_from_gsheets (sheet : grid) : frame * bool :=
  match read_from_gsheets_try sheet with
  | Ok df => (df, false)
  | Raise _ => ([], true)
  end.

(** [pd.read_csv("inventario.csv")]: [FileNotFoundError] when there is
    no file. *)
Definition read_csv_file (file : option grid) : result raw_frame :=
  match file with
  | None => Raise FileNotFoundError
  | Some g => read_csv g
  end.

(** The body of [_load_local], lines 94-105: only [FileNotFoundError] is
    handled. *)
Definition load_local_body (file : option grid) : result frame :=
  match (df <- read_csv_file file ;; conform df) with
  | Raise FileNotFoundError => Ok []
  | r => r
  end.

(** [_load_local()] under [@st.cache_data]: a stored value is returned
    as it is; a value computed without an exception is stored. *)
Definition _load_local (w : world) : result frame * world :=
  match cache w with
  | Some df => (Ok df, w)
  | None =>
      match load_local_body (csv w) with
      | Ok df => (Ok df, mk_world (ws w) (csv w) (Some df))
      | Raise e => (Raise e, w)
      end
  end.

(** [load_data()], lines 114-117. *)
Definition load_data (w : world) : result frame * world :=
  match ws w with
  | Some sheet => (Ok (fst (_read_from_gsheets sheet)), w)
  | None => _load_local w
  end.

(* ===================================================================== *)
(** * Writing a table: [_write_to_gsheets] and [_save_local] *)
(* ===================================================================== *)

(** The text of one cell: [fillna("").astype(str)] on the worksheet side,
    and the field [to_csv] writes on the file side (missing values as the
    empty field, integers in decimal, strings as they are). *)
Definition cell_text (c : cell) : string :=
  match c with
  | CNone | CNaN => ""
  | CInt z => str_of_Z z
  | CStr s => s
  end.

Definition row_text (r : row) : list string :=
  [cell_text (ID r); cell_text (ID_Similar r); cell_text (Imagen r);
   cell_text (Descripcion r); cell_text (Unidad r); cell_text (Cantidad r);
   cell_text (Ubicacion_Fisica r)].

(** [df.fillna("").astype(str).values.tolist()]. *)
Definition values (df : frame) : list (list string) := map row_text df.

(** [_write_to_gsheets(ws, df)], lines 82-90, when no call raises:
    [clear], the header, then the lines if there are any. *)
Definition _write_to_gsheets (df : frame) : grid :=
  let sheet := [APP_COLUMNS] in
  match values df with
  | [] => sheet
  | vs => (sheet ++ vs)%list
  end.

(** [df.to_csv("inventario.csv", index=False)]: the header and one line
    per row. *)
Definition to_csv (df : frame) : grid := APP_COLUMNS :: map row_text df.

(** [_save_local(df)], lines 107-108. *)
Definition _save_local (df : frame) : grid := to_csv df.

(** [save_data(df)], lines 119-123. *)
Definition save_data (df : frame) (w : world) : world :=
  match ws w with
  | Some _ => mk_world (Some (_write_to_gsheets df)) (csv w) (cache w)
  | None => mk_world (ws w) (Some (_save_local df)) (cache w)
  end.

(** [st.cache_data.clear()]. *)
Definition cache_clear (w : world) : world := mk_world (ws w) (csv w) None.

(* ===================================================================== *)
(** * [_new_id] *)
(* ===================================================================== *)

(** The value of one of the ten ASCII digits. *)
Definition ascii_digit (c : ascii) : option N :=
  let n := N_of_ascii c in
  if ((48 <=? n) && (n <=? 57))%N then Some (n - 48)%N else None.

(** One decimal digit at the head of a text, as [\d] matches it and as
    [int] reads it: its value and the text after it.  A byte below 128 is
    a character of its own, and a digit only if it is an ASCII digit. *)
Definition digit (s : string) : option (N * string) :=
  match s with
  | EmptyString => None
  | String c t =>
      match ascii_digit c with
      | Some v => Some (v, t)
      | None => if (N_of_ascii c <? 128)%N then None else unicode_digit s
      end
  end.

(** The longest run of digits at the head of a text, by the values of
    its digits: [\d+] is greedy.  A text holds no more digits than
    bytes. *)
Fixpoint digits_from (fuel : nat) (s : string) : list N :=
  match fuel with
  | O => []
  | S k =>
      match digit s with
      | Some (v, t) => v :: digits_from k t
      | None => []
      end
  end.

Definition digits_prefix (s : string) : list N :=
  digits_from (String.length s) s.

(** The match of [I-(\d+)] anchored at the head of a string: the digits
    of the group. *)
Definition match_here (s : string) : option (list N) :=
  match s with
  | String "I" (String "-" t) =>
      match digits_prefix t with
      | [] => None
      | d => Some d
      end
  | _ => None
  end.

(** [re.search] with the pattern [I-(\d+)]: the first group of the
    leftmost match, wherever it starts. *)
Fixpoint search (s : string) : option (list N) :=
  match match_here s with
  | Some d => Some d
  | None =>
      match s with
      | EmptyString => None
      | String _ t => search t
      end
  end.

(** [int] on a run of digits. *)
Fixpoint int_of_digits (acc : Z) (d : list N) : Z :=
  match d with
  | [] => acc
  | v :: t => int_of_digits (10 * acc + Z.of_N v) t
  end.

(** [int] refuses a literal of more than [int_max_str_digits] digits
    when that limit is set; literals of up to 640 digits always pass. *)
Definition too_long (d : list N) : bool :=
  ((640 <? List.length d)
   && ((0 <? int_max_str_digits) && (int_max_str_digits <? List.length d)))%nat.

(** [astype(int)] on one extracted group: [int] reads the digits, and the
    target is a 64-bit integer. *)
Definition astype_int (d : list N) : result Z :=
  if too_long d then Raise ValueError
  else
    let n := int_of_digits 0 d in
    if n <? 2 ^ 63 then Ok n else Raise OverflowError.

(** [df["ID"].str.extract(...)[0].dropna()]: a cell that is not a string
    gives no group, and neither does a string without a match. *)
Definition extracted (df : frame) : list (list N) :=
  flat_map
    (fun c => match c with
              | CStr s => match search s with Some d => [d] | None => [] end
              | _ => []
              end)
    (ids df).

Definition max_list (l : list Z) : Z := fold_right Z.max 0 l.

(** Line 135: [(max(nums) + 1) if nums else 1]. *)
Definition nxt (nums : list Z) : Z :=
  match nums with
  | [] => 1
  | _ :: _ => max_list nums + 1
  end.

(** [df["ID"].str]: the accessor raises [AttributeError] on an object
    column whose values, the missing ones apart, are integers.  It
    accepts a column that holds a string, and one that holds nothing but
    missing values. *)
Definition str_accessor_raises (col : list cell) : bool :=
  existsb is_int col && negb (existsb is_str col).

(** The body of the [try] of [_new_id], lines 131-136. *)
Definition new_id_try (df : frame) : result string :=
  if str_accessor_raises (ids df) then Raise AttributeError
  else
    nums <- mapM astype_int (extracted df) ;;
    Ok ("I-" ++ format_04d (nxt nums)).

(** [_new_id(df)], lines 126-138. *)
Definition _new_id (df : frame) : string :=
  if empty df then "I-0001"
  else
    match new_id_try df with
    | Ok s => s
    | Raise _ => "I-" ++ format_04d (Z.of_nat (List.length df) + 1)
    end.

(* ===================================================================== *)
(** * [_has_dup_desc_ubic] *)
(* ===================================================================== *)

Definition key_eqb (a b : string * string) : bool :=
  String.eqb (fst a) (fst b) && String.eqb (snd a) (snd b).

(** The columns [_desc] and [_ubi] of lines 161-162. *)
Definition dup_key (r : row) : string * string :=
  (_norm_text (Descripcion r), _norm_text (Ubicacion_Fisica r)).

(** [duplicated(keys, keep=False).any()]: some line has the keys of
    another line. *)
Fixpoint duplicated_any (keys : list (string * string)) : bool :=
  match keys with
  | [] => false
  | k :: t => existsb (key_eqb k) t || duplicated_any t
  end.

(** [_has_dup_desc_ubic(df)], lines 157-163. *)
Definition _has_dup_desc_ubic (df : frame) : bool :=
  if empty df then false else duplicated_any (map dup_key df).

(* ===================================================================== *)
(** * The filters, lines 231-239 *)
(* ===================================================================== *)

(** Lines 235-237: the lower-cased query occurs in one of the four
    columns, each taken through [str] and lower-cased. *)
Definition row_matches (ql : string) (r : row) : bool :=
  existsb (fun c => contains ql (lower (py_str c)))
    [Descripcion r; Ubicacion_Fisica r; ID r; ID_Similar r].

(** [idx in base.index], and [isin]. *)
Definition in_index (idx : cell) (index : list cell) : bool :=
  existsb (cell_eqb idx) index.

(** [view_df], lines 232-239: the copy of the table, narrowed by the text
    of the search box when there is one, then by the selected locations
    when there are some. *)
Definition view_df (q : string) (ub_sel : list cell) (df : frame) : frame :=
  let view := df in
  let view :=
    if truthy_str q then filter (row_matches (lower q)) view else view in
  if truthy_list ub_sel
  then filter (fun r => in_index (Ubicacion_Fisica r) ub_sel) view
  else view.

(* ===================================================================== *)
(** * "Alta rapida": the submit handler of [alta_form] *)
(* ===================================================================== *)

(** The line appended to [probe], line 267. *)
Definition probe_row (a : alta) : row :=
  {| ID := CStr "tmp";
     ID_Similar := CStr (id_similar a);
     Imagen := CStr (imagen a);
     Descripcion := CStr (descripcion a);
     Unidad := CStr (unidad a);
     Cantidad := CInt (cantidad a);
     Ubicacion_Fisica := CStr (ubicacion a) |}.

(** [new_row], lines 271-279. *)
Definition new_row (cfg : settings) (df : frame) (a : alta) : row :=
  {| ID := CStr (_new_id df);
     ID_Similar :=
       CStr (_normalize_idsim (CStr (id_similar a)) (norm_case cfg)
               (strip_spaces cfg));
     Imagen := CStr (strip (imagen a));
     Descripcion := CStr (strip (descripcion a));
     Unidad := CStr (strip (unidad a));
     Cantidad := CInt (cantidad a);
     Ubicacion_Fisica := CStr (strip (ubicacion a)) |}.

(** [if submitted:], lines 264-284. *)
Definition alta_submit (cfg : settings) (a : alta) (s : state)
  : state * list message :=
  let df := st_df s in
  let probe := (df ++ [probe_row a])%list in
  if _has_dup_desc_ubic probe then (s, [Error_duplicate_on_add])
  else
    let r := new_row cfg df a in
    let df := (df ++ [r])%list in
    let w := save_data df (st_world s) in
    let w := cache_clear w in
    (mk_state w df, [Success_added (py_str (ID r))]).

(* ===================================================================== *)
(** * The data editor: merging the edited view, lines 310-340 *)
(* ===================================================================== *)

Definition labelled (idx : cell) (r : row) : bool := cell_eqb (ID r) idx.

(** [ed.loc[idx, ...]] when it is a single row, that is when exactly one
    line carries the label.  With a repeated label pandas returns a table
    instead, and what lines 316-318 then do is not modelled. *)
Definition loc (df : frame) (idx : cell) : option row :=
  match filter (labelled idx) df with
  | [r] => Some r
  | _ => None
  end.

(** A line with its "ID Similar" normalised and nothing else changed. *)
Definition normalized_row (cfg : settings) (r : row) : row :=
  {| ID := ID r;
     ID_Similar :=
       CStr (_normalize_idsim (ID_Similar r) (norm_case cfg)
               (strip_spaces cfg));
     Imagen := Imagen r;
     Descripcion := Descripcion r;
     Unidad := Unidad r;
     Cantidad := Cantidad r;
     Ubicacion_Fisica := Ubicacion_Fisica r |}.

(** Lines 316-317: the six editable fields of the edited line, with its
    "ID Similar" normalised.  The label is not among them: [assign] does
    not read it. *)
Definition updated_row (cfg : settings) (e : row) : row :=
  normalized_row cfg e.

(** One line of the table after the six fields are written over it: its
    label stays. *)
Definition overwrite (b u : row) : row :=
  {| ID := ID b;
     ID_Similar := ID_Similar u;
     Imagen := Imagen u;
     Descripcion := Descripcion u;
     Unidad := Unidad u;
     Cantidad := Cantidad u;
     Ubicacion_Fisica := Ubicacion_Fisica u |}.

(** Line 318, [base.loc[idx, ...] = updated_row], on the line labelled
    [idx]. *)
Definition assign (base : frame) (idx : cell) (u : row) : frame :=
  map (fun b => if labelled idx b then overwrite b u else b) base.

(** The loop [for idx in ed.index], lines 313-318.  [None] stands for a
    label that is repeated in the edited view or in the table, where
    [.loc] does not denote one row. *)
Fixpoint apply_edits (cfg : settings) (index : list cell) (ed base : frame)
  : option frame :=
  match index with
  | [] => Some base
  | idx :: rest =>
      if in_index idx (ids base) then
        match loc ed idx, loc base idx with
        | Some e, Some _ =>
            apply_edits cfg rest ed (assign base idx (updated_row cfg e))
        | _, _ => None
        end
      else apply_edits cfg rest ed base
  end.

(** Line 321: [(not q and not ub_sel) or allow_delete_filtered]. *)
Definition can_delete (q : string) (ub_sel : list cell) (cfg : settings)
  : bool :=
  (negb (truthy_str q) && negb (truthy_list ub_sel))
  || allow_delete_filtered cfg.

Fixpoint nodup_cells (l : list cell) : list cell :=
  match l with
  | [] => []
  | c :: t => if in_index c t then nodup_cells t else c :: nodup_cells t
  end.

(** Line 325, [ids_all - ids_view], as the list of its elements. *)
Definition removed (ids_all ids_view : list cell) : list cell :=
  nodup_cells (filter (fun c => negb (in_index c ids_view)) ids_all).

(** [base.drop(list(removed))]: every line with one of the labels goes. *)
Definition drop (base : frame) (labels : list cell) : frame :=
  filter (fun b => negb (in_index (ID b) labels)) base.

(** Lines 320-328. *)
Definition delete_missing (q : string) (ub_sel : list cell) (cfg : settings)
    (ed base : frame) : frame * list message :=
  if can_delete q ub_sel cfg then
    let removed := removed (ids base) (ids ed) in
    if truthy_list removed
    then (drop base removed, [Info_removed (List.length removed)])
    else (base, [])
  else (base, []).

(** Line 333: "ID Similar" normalised on every line. *)
Definition normalize_all (cfg : settings) (df : frame) : frame :=
  map (normalized_row cfg) df.

(** The body of [if not edited.equals(view_df)], lines 311-340: the
    table after line 333, then the check and the save. *)
Definition merged (q : string) (ub_sel : list cell) (cfg : settings)
    (edited df : frame) : option (frame * list message) :=
  match apply_edits cfg (ids edited) edited df with
  | None => None
  | Some base =>
      let (base, msgs) := delete_missing q ub_sel cfg edited base in
      Some (normalize_all cfg base, msgs)
  end.

Definition reconcile (q : string) (ub_sel : list cell) (cfg : settings)
    (edited : frame) (s : state) : option (state * list message) :=
  match merged q ub_sel cfg edited (st_df s) with
  | None => None
  | Some (df, msgs) =>
      if _has_dup_desc_ubic df
      then Some (mk_state (st_world s) df,
                 (msgs ++ [Error_duplicates_not_saved])%list)
      else
        let w := save_data df (st_world s) in
        let w := cache_clear w in
        Some (mk_state w df, (msgs ++ [Success_saved])%list)
  end.

(** Lines 310-340, with the guard: nothing happens when the editor
    returns the view as it was shown. *)
Definition editor_block (q : string) (ub_sel : list cell) (cfg : settings)
    (view_df edited : frame) (s : state) : option (state * list message) :=
  if negb (equals edited view_df)
  then reconcile q ub_sel cfg edited s
  else Some (s, []).

(* ===================================================================== *)
(** * The QR payload, lines 350-361 *)
(* ===================================================================== *)

(** [qr_payload].  [base_url] is [None] when the secrets hold no
    [BASE_URL]. *)
Definition qr_payload (base_url : option string) (sel_qr : string) : string :=
  match base_url with
  | Some b =>
      if truthy_str b then
        if contains "?" b then b ++ "&id=" ++ sel_qr
        else b ++ "?id=" ++ sel_qr
      else sel_qr
  | None => sel_qr
  end.

(* ===================================================================== *)
(** * "Resumen por ID Similar", lines 373-393 *)
(* ===================================================================== *)

(** Lines 378-379: the normalised "ID Similar", with ["(sin ID)"] in
    place of the empty string.  The normalised value is a string, so
    that [fillna("")] finds nothing to fill: a missing value that is not
    [None] has become the text [str] gives it. *)
Definition _key (cfg : settings) (r : row) : string :=
  let s := _normalize_idsim (ID_Similar r) (norm_case cfg)
             (strip_spaces cfg) in
  if String.eqb s "" then "(sin ID)" else s.

(** The group keys of [groupby]: each key once, in ascending order. *)
Fixpoint insert_key (k : string) (keys : list string) : list string :=
  match keys with
  | [] => [k]
  | k' :: t =>
      match str_cmp k k' with
      | Lt => k :: keys
      | Eq => keys
      | Gt => k' :: insert_key k t
      end
  end.

Definition group_keys (keys : list string) : list string :=
  fold_right insert_key [] keys.

(** The number a cell of "Cantidad" counts for in a sum: missing values
    are skipped.  A quantity that is a string is outside the record sets
    of the data model and counts for nothing here. *)
Definition quantity (c : cell) : Z :=
  match c with
  | CInt z => z
  | _ => 0
  end.

Definition total_quantity (df : frame) : Z :=
  fold_right Z.add 0 (map (fun r => quantity (Cantidad r)) df).

(** [sum] over a group of "Cantidad", a column of 64-bit integers: the
    sum is computed in 64 bits and wraps around. *)
Definition sum_cantidad (g : frame) : Z := wrap64 (total_quantity g).

(** [count] over a group of "ID": the values that are not missing. *)
Definition count_id (g : frame) : nat :=
  List.length (filter (fun r => notna (ID r)) g).

Definition group (cfg : settings) (k : string) (df : frame) : frame :=
  filter (fun r => String.eqb (_key cfg r) k) df.

(** [groupby("_key", as_index=False).agg(...)], lines 380-383. *)
Definition groupby_agg (cfg : settings) (df : frame) : list resumen_row :=
  map (fun k =>
         let g := group cfg k df in
         mk_resumen k (sum_cantidad g) (count_id g))
      (group_keys (map (_key cfg) df)).

(** [sort_values(["ID Similar"])]: a stable sort, ascending. *)
Fixpoint insert_sorted (x : resumen_row) (l : list resumen_row)
  : list resumen_row :=
  match l with
  | [] => [x]
  | y :: t =>
      match str_cmp (res_ID_Similar y) (res_ID_Similar x) with
      | Gt => x :: l
      | _ => y :: insert_sorted x t
      end
  end.

Definition sort_values (l : list resumen_row) : list resumen_row :=
  fold_left (fun acc x => insert_sorted x acc) l [].

(** [resumen], lines 373-383; nothing is computed for an empty table. *)
Definition resumen (cfg : settings) (df : frame) : list resumen_row :=
  if empty df then [] else sort_values (groupby_agg cfg df).

(** [.fillna("").replace("", "(sin ID)")] on one cell, lines 379 and
    392. *)
Definition fill_replace (c : cell) : cell :=
  match c with
  | CNone | CNaN => CStr "(sin ID)"
  | CStr s => if String.eqb s "" then CStr "(sin ID)" else c
  | CInt _ => c
  end.

(** [det], lines 391-393: nothing for the entry "Todos"; otherwise the
    rows of [tmp], whose "ID Similar" is normalised, with the selected
    key. *)
Definition det (cfg : settings) (sel_id : string) (df : frame)
  : option frame :=
  if String.eqb sel_id "Todos" then None
  else
    Some (filter (fun r => cell_eqb (fill_replace (ID_Similar r))
                             (CStr sel_id))
            (normalize_all cfg df)).

(* ===================================================================== *)
(** * Notions used in the statements *)
(* ===================================================================== *)

(** The labels of the edited view that belong to the table: the ones the
    loop of lines 313-318 looks up. *)
Definition known_labels (edited df : frame) : list cell :=
  filter (fun c => in_index c (ids df)) (ids edited).

(** Whether [.loc] denotes one row depends on the labels alone. *)
Definition occurs_once (idx : cell) (index : list cell) : Prop :=
  List.length (filter (fun c => cell_eqb c idx) index) = 1%nat.

(** What the loop of lines 313-318 can have done to a line [b] of the
    table: nothing, or the fields of an edited line with its label. *)
Definition edited_from (cfg : settings) (ed : frame) (b b' : row) : Prop :=
  b' = b
  \/ exists e, In e ed /\ ID e = ID b /\ b' = overwrite b (updated_row cfg e).

(** What the merge makes of a line [b] of the table: the fields of the
    edited line with its label, or [b] itself, with "ID Similar"
    normalised. *)
Definition merge_row (cfg : settings) (edited : frame) (b : row) : row :=
  match loc edited (ID b) with
  | Some e => overwrite b (normalized_row cfg e)
  | None => normalized_row cfg b
  end.

(** Whether the merge keeps a label: always when deletion is refused,
    and otherwise when the edited view carries it. *)
Definition kept (q : string) (ub_sel : list cell) (cfg : settings)
    (edited : frame) (idx : cell) : bool :=
  negb (can_delete q ub_sel cfg) || in_index idx (ids edited).

(** The numbers [_new_id] reads in the ids of a table. *)
Definition id_numbers (df : frame) : list Z :=
  map (int_of_digits 0) (extracted df).

(** No id of the table holds a run of digits longer than [int]
    converts. *)
Definition short_numbers (df : frame) : Prop :=
  Forall (fun d => too_long d = false) (extracted df).

(** What the theorems about normalised text take from [str.upper],
    [str.lower] and [str.strip]: each is idempotent and maps the empty
    string to itself; stripping commutes with the two case maps, which
    neither make nor remove whitespace at the ends of a text; and
    whitespace around a text is stripped with that of the text. *)
Record StrLaws : Prop := {
  upper_idem : forall s, upper (upper s) = upper s;
  lower_idem : forall s, lower (lower s) = lower s;
  strip_idem : forall s, strip (strip s) = strip s;
  strip_upper : forall s, strip (upper s) = upper (strip s);
  strip_lower : forall s, strip (lower s) = lower (strip s);
  strip_padding :
    forall a s b, strip a = "" -> strip b = "" ->
                  strip (a ++ s ++ b) = strip s;
  upper_empty : upper "" = "";
  lower_empty : lower "" = "";
  strip_empty : strip "" = ""
}.

(** A text of whitespace only: [strip] leaves nothing of it. *)
Definition blank (a : string) : Prop := strip a = "".

(** [c'] spells the text of [c] with other letter cases and with
    whitespace around it. *)
Definition respelled (c c' : cell) : Prop :=
  exists s s' a b,
    c = CStr s /\ c' = CStr (a ++ s' ++ b)
    /\ blank a /\ blank b /\ lower s' = lower s.

Definition int_quantities (df : frame) : Prop :=
  Forall (fun r => exists z, Cantidad r = CInt z) df.

(** The quantities of a table are 64-bit integers. *)
Definition int64_quantities (df : frame) : Prop :=
  Forall (fun r => exists z, Cantidad r = CInt z /\ int64 z = true) df.

End App.

(* ===================================================================== *)
(** * Notions that do not depend on the library *)
(* ===================================================================== *)

(** A text made of ASCII digits, and the values of its digits. *)
Fixpoint all_digits (s : string) : bool :=
  match s with
  | EmptyString => true
  | String c t =>
      match ascii_digit c with
      | Some _ => all_digits t
      | None => false
      end
  end.

Fixpoint digit_values (s : string) : list N :=
  match s with
  | EmptyString => []
  | String c t => (N_of_ascii c - 48)%N :: digit_values t
  end.

(** The order of the summary: by group key, ascending. *)
Definition str_lt : string -> string -> Prop := String_as_OT.lt.

Definition resumen_lt (a b : resumen_row) : Prop :=
  str_lt (res_ID_Similar a) (res_ID_Similar b).

Fixpoint count_char (c : ascii) (s : string) : nat :=
  match s with
  | EmptyString => O
  | String x t => (if Ascii.eqb x c then 1 else 0) + count_char c t
  end.

Definition sumZ (l : list Z) : Z := fold_right Z.add 0 l.

(** The field of a line of a grid under a label of its header. *)
Fixpoint field (header line : list string) (col : string) : option string :=
  match header, line with
  | h :: hs, f :: fs => if String.eqb h col then Some f else field hs fs col
  | _, _ => None
  end.

(** [pd.read_csv] reads an empty field as a missing value: in a file
    with the header of [APP_COLUMNS] and seven fields on every line,
    each line gives one record, and an empty field is [NaN] in it. *)
Definition blank_is_missing {lib : Library} : Prop :=
  forall lines raw,
    Forall (fun line => List.length line = 7%nat) lines ->
    read_csv (APP_COLUMNS :: lines) = Ok raw ->
    Forall2
      (fun line rec =>
         forall col, field APP_COLUMNS line col = Some "" ->
                     get rec col = CNaN)
      lines (records raw).

(* ===================================================================== *)
(** * A sample library *)
(* ===================================================================== *)

(** The string methods of Python on ASCII text.  [str.strip] removes the
    characters for which [str.isspace] holds (tab, line feed, vertical
    tab, form feed, carriage return, the four separators 0x1c-0x1f and
    the space); [str.upper] and [str.lower] move the 26 letters.  Bytes
    from 128 on are left alone: on text that is not ASCII these are not
    the methods of Python. *)

Definition is_space (c : ascii) : bool :=
  let n := N_of_ascii c in
  ((9 <=? n) && (n <=? 13) || (28 <=? n) && (n <=? 32))%N.

Definition upper_char (c : ascii) : ascii :=
  let n := N_of_ascii c in
  if ((97 <=? n) && (n <=? 122))%N then ascii_of_N (n - 32) else c.

Definition lower_char (c : ascii) : ascii :=
  let n := N_of_ascii c in
  if ((65 <=? n) && (n <=? 90))%N then ascii_of_N (n + 32) else c.

Fixpoint map_string (f : ascii -> ascii) (s : string) : string :=
  match s with
  | EmptyString => EmptyString
  | String c t => String (f c) (map_string f t)
  end.

Definition ascii_upper (s : string) : string := map_string upper_char s.
Definition ascii_lower (s : string) : string := map_string lower_char s.

Fixpoint lstrip (s : string) : string :=
  match s with
  | EmptyString => EmptyString
  | String c t => if is_space c then lstrip t else s
  end.

Fixpoint rstrip (s : string) : string :=
  match s with
  | EmptyString => EmptyString
  | String c t =>
      match rstrip t with
      | EmptyString => if is_space c then EmptyString else String c EmptyString
      | t' => String c t'
      end
  end.

Definition ascii_strip (s : string) : string := rstrip (lstrip s).

(** A string is headed when it does not start with whitespace. *)
Definition headed (s : string) : Prop :=
  match s with
  | EmptyString => True
  | String c _ => is_space c = false
  end.

Fixpoint all_space (s : string) : bool :=
  match s with
  | EmptyString => true
  | String c t => is_space c && all_space t
  end.

(** A reading of numbers that knows the decimal integers, with their
    sign, and nothing else. *)
Definition decimal_numeric (s : string) : numeric :=
  let unsigned d :=
    match d with
    | EmptyString => NotANumber
    | _ => if all_digits d then Integer (int_of_digits 0 (digit_values d))
           else NotANumber
    end in
  match s with
  | String "-" d =>
      match unsigned d with
      | Integer z => Integer (- z)
      | n => n
      end
  | _ => unsigned s
  end.

Fixpoint zip_fields (labels fields : list string) : list (string * cell) :=
  match labels, fields with
  | l :: ls, f :: fs => (l, CStr f) :: zip_fields ls fs
  | _, _ => []
  end.

(** A worksheet reader that returns every field as text, under the
    labels of the first line. *)
Definition text_records (g : grid) : result (list (list (string * cell))) :=
  match g with
  | [] => Ok []
  | header :: lines => Ok (map (zip_fields header) lines)
  end.

(** The fields of a line of a file: an empty field is a missing value,
    any other field its text. *)
Fixpoint zip_csv_fields (labels fields : list string)
  : list (string * cell) :=
  match labels, fields with
  | l :: ls, f :: fs =>
      (l, if String.eqb f "" then CNaN else CStr f) :: zip_csv_fields ls fs
  | _, _ => []
  end.

(** A file reader that returns every field that is not empty as text; a
    file without a first line is an error. *)
Definition text_csv (g : grid) : result raw_frame :=
  match g with
  | [] => Raise OtherError
  | header :: lines => Ok (mk_raw header (map (zip_csv_fields header) lines))
  end.

(** The library of the examples: the string methods on ASCII text, no
    digit beyond ASCII, the default limit of [int], the decimal integers,
    and the two text readers.  A column left to the library gets its
    integers as they are. *)
#[global] Instance sample_lib : Library := {|
  upper := ascii_upper;
  lower := ascii_lower;
  strip := ascii_strip;
  unicode_digit := fun _ => None;
  int_max_str_digits := 4300;
  str_to_numeric := decimal_numeric;
  inexact_value := fun _ n => Ok (integer_value n);
  get_all_records := text_records;
  read_csv := text_csv
|}.

(* ===================================================================== *)
(** * Sample data *)
(* ===================================================================== *)

Definition tornillo : row :=
  mk_row (CStr "I-0001") (CStr "fam-a") (CStr "") (CStr "Tornillo")
    (CStr "pz") (CInt 3) (CStr "A1").

Definition tuerca : row :=
  mk_row (CStr "I-0002") (CStr "FAM-A") (CStr "") (CStr "Tuerca")
    (CStr "pz") (CInt 2) (CStr "A1").

Definition arandela : row :=
  mk_row (CStr "I-0003") (CStr "") (CStr "") (CStr "Arandela")
    (CStr "caja") (CInt 1) (CStr "B2").

(** The description of [tuerca] edited into that of [tornillo]. *)
Definition tuerca_edited : row :=
  mk_row (CStr "I-0002") (CStr "FAM-A") (CStr "") (CStr "tornillo ")
    (CStr "pz") (CInt 2) (CStr "A1").

(** The local mode before anything was saved. *)
Definition local_world : world := mk_world None None None.

Definition default_settings : settings := mk_settings Sin_cambio true false.

Definition upper_settings : settings := mk_settings Mayusculas true false.

Definition with_id (i : string) : row :=
  mk_row (CStr i) (CStr "") (CStr "") (CStr i) (CStr "pz") (CInt 1)
    (CStr "A1").

Definition one_to_nine : frame :=
  map with_id
    ["I-0001"; "I-0002"; "I-0003"; "I-0004"; "I-0005"; "I-0006"; "I-0007";
     "I-0008"; "I-0009"].

(** The records of the example of the summary. *)
Definition example_records : frame :=
  [mk_row (CStr "I-0001") (CStr "A") (CStr "") (CStr "uno") (CStr "pz")
     (CInt 3) (CStr "A1");
   mk_row (CStr "I-0002") (CStr "a") (CStr "") (CStr "dos") (CStr "pz")
     (CInt 2) (CStr "A1");
   mk_row (CStr "I-0003") (CStr "") (CStr "") (CStr "tres") (CStr "pz")
     (CInt 1) (CStr "A1")].

(** Two records of one group whose quantities add up to 2^63. *)
Definition heavy_records : frame :=
  [mk_row (CStr "I-0001") (CStr "A") (CStr "") (CStr "uno") (CStr "pz")
     (CInt (2 ^ 62)) (CStr "A1");
   mk_row (CStr "I-0002") (CStr "A") (CStr "") (CStr "dos") (CStr "pz")
     (CInt (2 ^ 62)) (CStr "B2")].

(** One record with an empty "ID Similar", as the add form produces it,
    and the same record with that field missing. *)
Definition blank_set : frame :=
  [mk_row (CStr "I-0001") (CStr "") (CStr "img.png") (CStr "Tornillo")
     (CStr "pz") (CInt 3) (CStr "A1")].

Definition missing_set : frame :=
  [mk_row (CStr "I-0001") CNaN (CStr "img.png") (CStr "Tornillo")
     (CStr "pz") (CInt 3) (CStr "A1")].

Definition plain_set : frame :=
  [mk_row (CStr "I-0001") (CStr "fam-a") (CStr "img.png") (CStr "Tornillo")
     (CStr "pz") (CInt 3) (CStr "A1")].


Definition short_csv : grid :=
  [["ID"; "Descripción"]; ["I-0001"; "Tornillo"]].


(* ===================================================================== *)
(** * The sample library satisfies the laws *)
(* ===================================================================== *)

Ltac each_byte c :=
  destruct c as [[] [] [] [] [] [] [] []]; reflexivity.

Lemma upper_char_idem (c : ascii) : upper_char (upper_char c) = upper_char c.
Proof. each_byte c. Qed.

Lemma lower_char_idem (c : ascii) : lower_char (lower_char c) = lower_char c.
Proof. each_byte c. Qed.

Lemma is_space_upper_char (c : ascii) : is_space (upper_char c) = is_space c.
Proof. each_byte c. Qed.

Lemma is_space_lower_char (c : ascii) : is_space (lower_char c) = is_space c.
Proof. each_byte c. Qed.

Lemma map_string_idem (f : ascii -> ascii) :
  (forall c, f (f c) = f c) ->
  forall s, map_string f (map_string f s) = map_string f s.
Proof.
  intros Hf s; induction s as [|c t IH]; simpl; [reflexivity|].
  now rewrite Hf, IH.
Qed.

Section StripAndMap.

Variable f : ascii -> ascii.
Hypothesis f_space : forall c, is_space (f c) = is_space c.

Lemma lstrip_map_string (s : string) :
  lstrip (map_string f s) = map_string f (lstrip s).
Proof.
  induction s as [|c t IH]; simpl; [reflexivity|].
  rewrite f_space. destruct (is_space c); [exact IH | reflexivity].
Qed.

Lemma rstrip_map_string (s : string) :
  rstrip (map_string f s) = map_string f (rstrip s).
Proof.
  induction s as [|c t IH]; simpl; [reflexivity|].
  rewrite IH, f_space.
  destruct (rstrip t); simpl; [destruct (is_space c)|]; reflexivity.
Qed.

Lemma strip_map_string (s : string) :
  ascii_strip (map_string f s) = map_string f (ascii_strip s).
Proof.
  unfold ascii_strip. now rewrite lstrip_map_string, rstrip_map_string.
Qed.

End StripAndMap.

Lemma lstrip_headed (s : string) : headed (lstrip s).
Proof.
  induction s as [|c t IH]; simpl; [exact I|].
  destruct (is_space c) eqn:E; [exact IH | exact E].
Qed.

Lemma lstrip_of_headed (s : string) : headed s -> lstrip s = s.
Proof. destruct s as [|c t]; simpl; [reflexivity|]. now intros ->. Qed.

Lemma rstrip_headed (s : string) : headed s -> headed (rstrip s).
Proof.
  destruct s as [|c t]; simpl; [trivial|]. intros H.
  destruct (rstrip t); simpl; [rewrite H; simpl|]; exact H.
Qed.

Lemma rstrip_idem (s : string) : rstrip (rstrip s) = rstrip s.
Proof.
  induction s as [|c t IH]; simpl; [reflexivity|].
  destruct (rstrip t) as [|c' t'] eqn:E.
  - destruct (is_space c) eqn:Ec; simpl; [reflexivity|]. now rewrite Ec.
  - change (rstrip (String c (String c' t')) = String c (String c' t')).
    cbn [rstrip]. cbn [rstrip] in IH. rewrite IH. reflexivity.
Qed.

Lemma ascii_strip_idem (s : string) :
  ascii_strip (ascii_strip s) = ascii_strip s.
Proof.
  unfold ascii_strip.
  rewrite (lstrip_of_headed _ (rstrip_headed _ (lstrip_headed s))).
  apply rstrip_idem.
Qed.

Lemma lstrip_all_space (a s : string) :
  all_space a = true -> lstrip (a ++ s) = lstrip s.
Proof.
  induction a as [|c t IH]; simpl; [reflexivity|].
  intros H. apply andb_prop in H. destruct H as [Hc Ht].
  rewrite Hc. now apply IH.
Qed.

Lemma rstrip_all_space (a : string) : all_space a = true -> rstrip a = "".
Proof.
  induction a as [|c t IH]; simpl; [reflexivity|].
  intros H. apply andb_prop in H. destruct H as [Hc Ht].
  now rewrite (IH Ht), Hc.
Qed.

Lemma rstrip_app_all_space (s b : string) :
  all_space b = true -> rstrip (s ++ b) = rstrip s.
Proof.
  intros Hb. induction s as [|c t IH]; simpl.
  - now apply rstrip_all_space.
  - now rewrite IH.
Qed.

Lemma rstrip_empty_all_space (s : string) :
  rstrip s = "" -> all_space s = true.
Proof.
  induction s as [|c t IH]; simpl; [reflexivity|].
  destruct (rstrip t) eqn:E; [|discriminate].
  destruct (is_space c); [|discriminate]. intros _. now rewrite IH.
Qed.

Lemma lstrip_app (s b : string) :
  lstrip s <> "" -> lstrip (s ++ b) = lstrip s ++ b.
Proof.
  induction s as [|c t IH]; simpl; [congruence|].
  destruct (is_space c); [exact IH | reflexivity].
Qed.

Lemma lstrip_all_space_empty (s : string) :
  all_space s = true -> lstrip s = "".
Proof.
  induction s as [|c t IH]; simpl; [reflexivity|].
  intros H. apply andb_prop in H. destruct H as [Hc Ht]. now rewrite Hc, IH.
Qed.

Lemma lstrip_empty_all_space (s : string) :
  lstrip s = "" -> all_space s = true.
Proof.
  induction s as [|c t IH]; simpl; [reflexivity|].
  destruct (is_space c); [|discriminate]. intros H. now rewrite IH.
Qed.

Lemma all_space_app (a b : string) :
  all_space (a ++ b) = all_space a && all_space b.
Proof.
  induction a as [|c t IH]; simpl; [reflexivity|].
  now rewrite IH, andb_assoc.
Qed.

Lemma ascii_strip_blank (a : string) :
  ascii_strip a = "" <-> all_space a = true.
Proof.
  unfold ascii_strip. split.
  - intros H. apply rstrip_empty_all_space in H.
    destruct (lstrip a) as [|c t] eqn:E; [now apply lstrip_empty_all_space|].
    pose proof (lstrip_headed a) as Hh. rewrite E in Hh. simpl in Hh, H.
    rewrite Hh in H. discriminate.
  - intros H. now rewrite (lstrip_all_space_empty _ H).
Qed.

Lemma ascii_strip_padding (a s b : string) :
  ascii_strip a = "" -> ascii_strip b = "" ->
  ascii_strip (a ++ s ++ b) = ascii_strip s.
Proof.
  intros Ha Hb. apply ascii_strip_blank in Ha. apply ascii_strip_blank in Hb.
  unfold ascii_strip. rewrite (lstrip_all_space _ _ Ha).
  destruct (string_dec (lstrip s) "") as [E|E].
  - pose proof (lstrip_empty_all_space _ E) as Hs.
    rewrite E. rewrite (lstrip_all_space_empty (s ++ b)).
    + reflexivity.
    + now rewrite all_space_app, Hs, Hb.
  - rewrite (lstrip_app _ _ E). now apply rstrip_app_all_space.
Qed.

Lemma sample_laws : StrLaws.
Proof.
  constructor.
  - intros s. apply map_string_idem, upper_char_idem.
  - intros s. apply map_string_idem, lower_char_idem.
  - apply ascii_strip_idem.
  - intros s. apply strip_map_string, is_space_upper_char.
  - intros s. apply strip_map_string, is_space_lower_char.
  - apply ascii_strip_padding.
  - reflexivity.
  - reflexivity.
  - reflexivity.
Qed.

(* ===================================================================== *)
(** * The normalisation of "ID Similar" *)
(* ===================================================================== *)

Section Normaliser.

Context {lib : Library}.

(** [str.upper], [str.lower] and [str.strip] are taken with the laws of
    [StrLaws], which the theorems that rely on them have as their
    first hypothesis. *)
Variable laws : StrLaws.

(** Normalising a string that is already the result of a normalisation
    with the same settings changes nothing. *)
Lemma normalize_idsim_str_idem (s : string) (m : norm_case_t) (b : bool) :
  _normalize_idsim (CStr (_normalize_idsim (CStr s) m b)) m b
  = _normalize_idsim (CStr s) m b.
Proof.
  destruct m, b; cbn [_normalize_idsim py_str];
    rewrite ?(strip_upper laws), ?(strip_lower laws), ?(strip_idem laws),
      ?(upper_idem laws), ?(lower_idem laws);
    reflexivity.
Qed.

Lemma normalize_idsim_idem (val : cell) (m : norm_case_t) (b : bool) :
  _normalize_idsim (CStr (_normalize_idsim val m b)) m b
  = _normalize_idsim val m b.
Proof.
  destruct val as [| |z|s].
  - destruct m, b; cbn [_normalize_idsim py_str];
      rewrite ?(strip_empty laws), ?(upper_empty laws), ?(lower_empty laws);
      reflexivity.
  - apply (normalize_idsim_str_idem "nan").
  - apply (normalize_idsim_str_idem (str_of_Z z)).
  - apply normalize_idsim_str_idem.
Qed.

(** ** C10 *)

(** C10: the grouping-key normalisation is idempotent.  For every input
    (a string, or any other cell, which [str] first turns into a string),
    every case mode and both trim settings, normalising the result again
    with the same settings returns it unchanged; [None] is normalised to
    the empty string, and the empty string is a fixed point.  This holds
    for the methods of every library that satisfies [StrLaws]. *)
Theorem C10_normalize_idsim_idempotent :
  (forall (val : cell) (norm_case : norm_case_t) (strip_spaces : bool),
      _normalize_idsim
        (CStr (_normalize_idsim val norm_case strip_spaces))
        norm_case strip_spaces
      = _normalize_idsim val norm_case strip_spaces)
  /\ (forall norm_case strip_spaces,
         _normalize_idsim CNone norm_case strip_spaces = "")
  /\ (forall norm_case strip_spaces,
         _normalize_idsim (CStr "") norm_case strip_spaces = "").
Proof.
  split; [|split].
  - intros val m b. destruct val as [| |z|s].
    + destruct m, b; cbn [_normalize_idsim py_str];
        rewrite ?(strip_empty laws), ?(upper_empty laws),
          ?(lower_empty laws); reflexivity.
    + apply (normalize_idsim_str_idem "nan").
    + apply (normalize_idsim_str_idem (str_of_Z z)).
    + apply normalize_idsim_str_idem.
  - intros m b; reflexivity.
  - intros m b; destruct m, b; cbn [_normalize_idsim py_str];
      rewrite ?(strip_empty laws), ?(upper_empty laws), ?(lower_empty laws);
      reflexivity.
Qed.

End Normaliser.

Lemma C10_witness :
  _normalize_idsim (CStr (_normalize_idsim (CStr " Fam-a ") Mayusculas true))
    Mayusculas true
  = _normalize_idsim (CStr " Fam-a ") Mayusculas true.
Proof. apply (proj1 (C10_normalize_idsim_idempotent sample_laws)). Defined.

Section MergeLabels.

Context {lib : Library}.

Lemma cell_eqb_eq (a b : cell) : cell_eqb a b = true <-> a = b.
Proof.
  unfold cell_eqb. destruct (cell_eq_dec a b); split; congruence.
Qed.

Lemma cell_eqb_refl (a : cell) : cell_eqb a a = true.
Proof. now apply cell_eqb_eq. Qed.

Lemma in_index_In (idx : cell) (index : list cell) :
  in_index idx index = true <-> In idx index.
Proof.
  unfold in_index. rewrite existsb_exists. split.
  - intros [x [Hx E]]. apply cell_eqb_eq in E. now subst.
  - intros H. exists idx. split; [exact H | apply cell_eqb_refl].
Qed.

Lemma in_index_false (idx : cell) (index : list cell) :
  in_index idx index = false <-> ~ In idx index.
Proof.
  rewrite <- in_index_In. destruct (in_index idx index); split; congruence.
Qed.

Lemma labelled_eq (idx : cell) (r : row) : labelled idx r = true <-> ID r = idx.
Proof. apply cell_eqb_eq. Qed.

Lemma filter_none {A : Type} (p : A -> bool) (l : list A) :
  (forall x, In x l -> p x = false) -> filter p l = [].
Proof.
  induction l as [|a t IH]; simpl; intros H; [reflexivity|].
  rewrite (H a (or_introl eq_refl)). apply IH. intros x Hx. apply H. now right.
Qed.

(** With distinct labels, [.loc] on a label of the table is one row. *)
Lemma filter_labelled_NoDup (df : frame) (r : row) :
  NoDup (ids df) -> In r df -> filter (labelled (ID r)) df = [r].
Proof.
  induction df as [|a t IH]; simpl; intros ND Hin; [contradiction|].
  inversion ND as [|x l Hnotin ND' E]; subst.
  destruct Hin as [-> | Hin].
  - unfold labelled at 1. rewrite cell_eqb_refl. f_equal.
    apply filter_none. intros x Hx.
    destruct (labelled (ID r) x) eqn:E; [|reflexivity].
    apply labelled_eq in E. exfalso. apply Hnotin. rewrite <- E.
    now apply in_map.
  - destruct (labelled (ID r) a) eqn:E.
    + apply labelled_eq in E. exfalso. apply Hnotin. rewrite E.
      now apply in_map.
    + now apply IH.
Qed.

Lemma loc_NoDup (df : frame) (r : row) :
  NoDup (ids df) -> In r df -> loc df (ID r) = Some r.
Proof.
  intros ND Hin. unfold loc. now rewrite filter_labelled_NoDup.
Qed.

Lemma loc_Some (df : frame) (idx : cell) (r : row) :
  loc df idx = Some r -> In r df /\ ID r = idx.
Proof.
  unfold loc. intros H.
  destruct (filter (labelled idx) df) as [|x [|y t]] eqn:E; try discriminate.
  injection H as ->.
  assert (Hin : In r (filter (labelled idx) df)) by (rewrite E; now left).
  apply filter_In in Hin. destruct Hin as [Hin Hl].
  split; [exact Hin | now apply labelled_eq].
Qed.

(* ===================================================================== *)
(** * The merge of the edited view *)
(* ===================================================================== *)

Lemma ids_assign (base : frame) (idx : cell) (u : row) :
  ids (assign base idx u) = ids base.
Proof.
  unfold ids, assign. rewrite map_map. apply map_ext.
  intros b. now destruct (labelled idx b).
Qed.

Lemma ids_normalize_all (cfg : settings) (df : frame) :
  ids (normalize_all cfg df) = ids df.
Proof. unfold ids, normalize_all. rewrite map_map. now apply map_ext. Qed.

(** The loop of lines 313-318 never adds or removes a line, nor touches
    a label. *)
Lemma apply_edits_ids (cfg : settings) (ed : frame) :
  forall index base base',
    apply_edits cfg index ed base = Some base' -> ids base' = ids base.
Proof.
  induction index as [|idx rest IH]; simpl; intros base base' H.
  - now injection H as <-.
  - destruct (in_index idx (ids base)).
    + destruct (loc ed idx) as [e|]; [|discriminate].
      destruct (loc base idx) as [b|]; [|discriminate].
      apply IH in H. now rewrite H, ids_assign.
    + now apply IH.
Qed.

Lemma filter_labelled_ids (df : frame) (idx : cell) :
  map ID (filter (labelled idx) df)
  = filter (fun c => cell_eqb c idx) (ids df).
Proof.
  induction df as [|a t IH]; simpl; [reflexivity|].
  unfold labelled at 1. destruct (cell_eqb (ID a) idx); simpl; now rewrite IH.
Qed.

Lemma loc_defined (df : frame) (idx : cell) :
  loc df idx <> None <-> occurs_once idx (ids df).
Proof.
  unfold occurs_once. rewrite <- filter_labelled_ids, length_map.
  unfold loc. destruct (filter (labelled idx) df) as [|x [|y t]]; simpl;
    split; intros H; try congruence; try discriminate.
Qed.

Lemma occurs_once_NoDup (idx : cell) (index : list cell) :
  NoDup index -> In idx index -> occurs_once idx index.
Proof.
  unfold occurs_once.
  induction index as [|a t IH]; simpl; intros ND Hin; [contradiction|].
  inversion ND as [|x l Hnotin ND' E]; subst.
  destruct (cell_eqb a idx) eqn:E.
  - apply cell_eqb_eq in E. subst a. simpl. f_equal.
    rewrite filter_none; [reflexivity|].
    intros x Hx. destruct (cell_eqb x idx) eqn:Ex; [|reflexivity].
    apply cell_eqb_eq in Ex. now subst.
  - destruct Hin as [-> | Hin]; [now rewrite cell_eqb_refl in E|].
    now apply IH.
Qed.

Lemma filter_filter_implied {A : Type} (p q : A -> bool) (l : list A) :
  (forall x, p x = true -> q x = true) ->
  filter p (filter q l) = filter p l.
Proof.
  intros H. induction l as [|a t IH]; simpl; [reflexivity|].
  destruct (q a) eqn:Eq; simpl.
  - now rewrite IH.
  - destruct (p a) eqn:Ep; [|exact IH].
    apply H in Ep. congruence.
Qed.

(** A label of the table that the edited view carries, and carries once
    among its known labels, is carried once in the whole view. *)
Lemma occurs_once_known (edited df : frame) (idx : cell) :
  In idx (ids df) ->
  occurs_once idx (known_labels edited df) ->
  occurs_once idx (ids edited).
Proof.
  unfold occurs_once, known_labels. intros Hin H.
  rewrite filter_filter_implied in H; [exact H|].
  intros x Hx. apply cell_eqb_eq in Hx. subst x. now apply in_index_In.
Qed.

(** The loop is defined as soon as each label it looks up denotes one
    row of the edited view and one row of the table. *)
Lemma apply_edits_defined (cfg : settings) (ed : frame) :
  forall index base,
    (forall idx, In idx index -> In idx (ids base) ->
                 occurs_once idx (ids ed) /\ occurs_once idx (ids base)) ->
    apply_edits cfg index ed base <> None.
Proof.
  induction index as [|idx rest IH]; simpl; intros base H; [discriminate|].
  destruct (in_index idx (ids base)) eqn:E.
  - apply in_index_In in E.
    destruct (H idx (or_introl eq_refl) E) as [He Hb].
    apply loc_defined in He, Hb.
    destruct (loc ed idx) as [e|]; [|congruence].
    destruct (loc base idx) as [b|]; [|congruence].
    apply IH. intros i Hi Hin. rewrite ids_assign in *.
    apply H; [now right | exact Hin].
  - apply IH. intros i Hi Hin. apply H; [now right | exact Hin].
Qed.

Lemma apply_edits_defined_NoDup (cfg : settings) (edited df : frame) :
  NoDup (ids df) ->
  NoDup (known_labels edited df) ->
  apply_edits cfg (ids edited) edited df <> None.
Proof.
  intros ND NDe. apply apply_edits_defined. intros idx Hi Hin. split.
  - apply occurs_once_known with (df := df); [exact Hin|].
    apply occurs_once_NoDup; [exact NDe|].
    unfold known_labels. apply filter_In. split; [exact Hi|].
    now apply in_index_In.
  - now apply occurs_once_NoDup.
Qed.

Lemma delete_missing_guarded (q : string) (ub_sel : list cell)
    (cfg : settings) (ed base : frame) :
  can_delete q ub_sel cfg = false ->
  delete_missing q ub_sel cfg ed base = (base, []).
Proof. unfold delete_missing. now intros ->. Qed.

Lemma reconcile_df (q : string) (ub_sel : list cell) (cfg : settings)
    (edited : frame) (s s' : state) (msgs : list message) :
  reconcile q ub_sel cfg edited s = Some (s', msgs) ->
  exists msgs', merged q ub_sel cfg edited (st_df s) = Some (st_df s', msgs').
Proof.
  unfold reconcile. intros H.
  destruct (merged q ub_sel cfg edited (st_df s)) as [[df m]|]; [|discriminate].
  exists m. destruct (_has_dup_desc_ubic df); injection H as <- _; reflexivity.
Qed.

Lemma reconcile_defined (q : string) (ub_sel : list cell) (cfg : settings)
    (edited : frame) (s : state) :
  apply_edits cfg (ids edited) edited (st_df s) <> None ->
  reconcile q ub_sel cfg edited s <> None.
Proof.
  unfold reconcile, merged. intros H.
  destruct (apply_edits cfg (ids edited) edited (st_df s)); [|congruence].
  destruct (delete_missing q ub_sel cfg edited f) as [b m].
  destruct (_has_dup_desc_ubic (normalize_all cfg b)); discriminate.
Qed.

(** Deletion is refused exactly when a filter is active (the search box
    or the location selection is not empty) and the option is off. *)
Lemma can_delete_false_iff (q : string) (ub_sel : list cell) (cfg : settings) :
  can_delete q ub_sel cfg = false
  <-> (q <> "" \/ ub_sel <> []) /\ allow_delete_filtered cfg = false.
Proof.
  unfold can_delete, truthy_str. rewrite orb_false_iff, andb_false_iff.
  rewrite !negb_false_iff, negb_true_iff, String.eqb_neq.
  destruct ub_sel; simpl; intuition congruence.
Qed.

(** The block runs the merge as soon as the editor returns something
    else than the view it was given, and does nothing otherwise. *)
Lemma editor_block_changed (q : string) (ub_sel : list cell) (cfg : settings)
    (view_df edited : frame) (s : state) :
  edited <> view_df ->
  editor_block q ub_sel cfg view_df edited s
  = reconcile q ub_sel cfg edited s.
Proof.
  intros H. unfold editor_block, equals.
  destruct (frame_eq_dec edited view_df); [contradiction | reflexivity].
Qed.

Lemma editor_block_unchanged (q : string) (ub_sel : list cell)
    (cfg : settings) (view_df : frame) (s : state) :
  editor_block q ub_sel cfg view_df view_df s = Some (s, []).
Proof.
  unfold editor_block, equals.
  destruct (frame_eq_dec view_df view_df); [reflexivity | contradiction].
Qed.

(** ** C1 *)

(** What the merge leaves in the world: what was there, or the merged
    table, saved. *)
Lemma reconcile_world (q : string) (ub_sel : list cell) (cfg : settings)
    (edited : frame) (s s' : state) (msgs : list message) :
  reconcile q ub_sel cfg edited s = Some (s', msgs) ->
  st_world s' = st_world s
  \/ st_world s' = cache_clear (save_data (st_df s') (st_world s)).
Proof.
  unfold reconcile.
  destruct (merged q ub_sel cfg edited (st_df s)) as [[df m]|]; [|discriminate].
  destruct (_has_dup_desc_ubic df); intros [= <- _]; [now left | now right].
Qed.

(** C1: with deletion not allowed (a filter is active and "Permitir borrar
    filas cuando hay filtros activos" is off) the merge removes no
    record, whatever the edited view lacks: the table after the editor
    block carries the labels of the table before it, line by line, and
    what is stored is either what was stored before or that table.  The
    block is defined whenever the labels of the table are distinct and
    so are the labels the edited view shares with it. *)
Theorem C1_no_delete_keeps_every_id
    (q : string) (ub_sel : list cell) (cfg : settings)
    (view_df edited : frame) (s : state) :
  can_delete q ub_sel cfg = false ->
  (forall s' msgs,
      editor_block q ub_sel cfg view_df edited s = Some (s', msgs) ->
      ids (st_df s') = ids (st_df s)
      /\ (st_world s' = st_world s
          \/ st_world s' = cache_clear (save_data (st_df s') (st_world s))))
  /\ (NoDup (ids (st_df s)) ->
      NoDup (known_labels edited (st_df s)) ->
      editor_block q ub_sel cfg view_df edited s <> None).
Proof.
  intros Hcd. split.
  - intros s' msgs. unfold editor_block.
    destruct (negb (equals edited view_df)).
    + intros H. split; [|now apply reconcile_world in H].
      apply reconcile_df in H. destruct H as [m H].
      unfold merged in H.
      destruct (apply_edits cfg (ids edited) edited (st_df s)) as [base|] eqn:E;
        [|discriminate].
      rewrite delete_missing_guarded in H by exact Hcd.
      injection H as H _. rewrite <- H, ids_normalize_all.
      now apply apply_edits_ids in E.
    + intros [= <- _]. split; [reflexivity | now left].
  - intros ND NDe. unfold editor_block.
    destruct (negb (equals edited view_df)); [|discriminate].
    now apply reconcile_defined, apply_edits_defined_NoDup.
Qed.

End MergeLabels.

Lemma C1_witness :
  (forall s' msgs,
      editor_block "tor" [] default_settings [tornillo] []
        (mk_state local_world [tornillo; tuerca; arandela])
      = Some (s', msgs) ->
      ids (st_df s') = [CStr "I-0001"; CStr "I-0002"; CStr "I-0003"]
      /\ (st_world s' = local_world
          \/ st_world s' = cache_clear (save_data (st_df s') local_world)))
  /\ (NoDup [CStr "I-0001"; CStr "I-0002"; CStr "I-0003"] ->
      NoDup (known_labels [] [tornillo; tuerca; arandela]) ->
      editor_block "tor" [] default_settings [tornillo] []
        (mk_state local_world [tornillo; tuerca; arandela])
      <> None).
Proof.
  apply (C1_no_delete_keeps_every_id "tor" [] default_settings [tornillo] []
           (mk_state local_world [tornillo; tuerca; arandela])).
  reflexivity.
Defined.

(** The search box holds "tor", the view shows [tornillo] alone, and the
    user deletes it in the editor: nothing is removed. *)
Example filtered_delete_is_ignored :
  option_map (fun p => (ids (st_df (fst p)), snd p))
    (editor_block "tor" [] default_settings [tornillo] []
       (mk_state local_world [tornillo; tuerca; arandela]))
  = Some ([CStr "I-0001"; CStr "I-0002"; CStr "I-0003"], [Success_saved]).
Proof. reflexivity. Qed.

(* ===================================================================== *)
(** * What the merge does to each line *)
(* ===================================================================== *)

Section MergeLines.

Context {lib : Library}.

(** [str.upper], [str.lower] and [str.strip] are taken with the laws of
    [StrLaws], which the theorems that rely on them have as their
    first hypothesis. *)
Variable laws : StrLaws.

Lemma normalized_row_idem (cfg : settings) (r : row) :
  normalized_row cfg (normalized_row cfg r) = normalized_row cfg r.
Proof.
  unfold normalized_row.
  cbn [ID ID_Similar Imagen Descripcion Unidad Cantidad Ubicacion_Fisica].
  now rewrite (normalize_idsim_idem laws).
Qed.

Lemma overwrite_self (cfg : settings) (r : row) :
  overwrite r (updated_row cfg r) = normalized_row cfg r.
Proof. reflexivity. Qed.

Lemma overwrite_overwrite (b u v : row) :
  overwrite (overwrite b u) v = overwrite b v.
Proof. reflexivity. Qed.

Lemma ID_edited_from (cfg : settings) (ed : frame) (b b' : row) :
  edited_from cfg ed b b' -> ID b' = ID b.
Proof. intros [-> | [e [_ [_ ->]]]]; reflexivity. Qed.

Lemma Forall2_assign (cfg : settings) (ed : frame) (e : row) :
  In e ed ->
  forall base base',
    Forall2 (edited_from cfg ed) (assign base (ID e) (updated_row cfg e)) base' ->
    Forall2 (edited_from cfg ed) base base'.
Proof.
  intros Hin. induction base as [|b t IH]; simpl; intros base' H.
  - inversion H. constructor.
  - inversion H as [|x y l l' Hxy Hl]; subst. constructor; [|now apply IH].
    destruct (labelled (ID e) b) eqn:E; [|exact Hxy].
    apply labelled_eq in E. right.
    destruct Hxy as [-> | [e' [Hin' [Hid' ->]]]].
    + exists e. repeat split; [exact Hin | congruence].
    + exists e'. repeat split; [exact Hin' | exact Hid'].
Qed.

Lemma Forall2_edited_from_refl (cfg : settings) (ed base : frame) :
  Forall2 (edited_from cfg ed) base base.
Proof. induction base; constructor; [now left | assumption]. Qed.

Lemma apply_edits_rows (cfg : settings) (ed : frame) :
  forall index base base',
    apply_edits cfg index ed base = Some base' ->
    Forall2 (edited_from cfg ed) base base'.
Proof.
  induction index as [|idx rest IH]; simpl; intros base base' H.
  - injection H as <-. apply Forall2_edited_from_refl.
  - destruct (in_index idx (ids base)); [|now apply IH].
    destruct (loc ed idx) as [e|] eqn:Ee; [|discriminate].
    destruct (loc base idx) as [b|]; [|discriminate].
    apply loc_Some in Ee. destruct Ee as [Hin Hid].
    subst idx. apply IH in H. now apply Forall2_assign with (e := e).
Qed.

Lemma NoDup_ids_inj (df : frame) (a b : row) :
  NoDup (ids df) -> In a df -> In b df -> ID a = ID b -> a = b.
Proof.
  intros ND Ha Hb E.
  pose proof (loc_NoDup df a ND Ha) as La.
  pose proof (loc_NoDup df b ND Hb) as Lb.
  rewrite E in La. congruence.
Qed.

(** When the edited lines are lines of the table, the merge followed by
    the normalisation of line 333 amounts to that normalisation. *)
Lemma normalize_all_edited_from (cfg : settings) (ed : frame) :
  NoDup (ids ed) ->
  forall l l',
    incl l ed ->
    Forall2 (edited_from cfg ed) l l' ->
    normalize_all cfg l' = normalize_all cfg l.
Proof.
  intros ND l l' Hincl H. induction H as [|b b' l l' Hb Hl IH]; [reflexivity|].
  simpl. f_equal.
  - destruct Hb as [-> | [e [Hin [Hid ->]]]]; [reflexivity|].
    assert (e = b) as ->.
    { apply (NoDup_ids_inj ed); auto. apply Hincl. now left. }
    rewrite overwrite_self. apply normalized_row_idem.
  - apply IH. intros x Hx. apply Hincl. now right.
Qed.

Lemma drop_keeps (cfg : settings) (ed : frame) (x : cell) :
  forall l l',
    Forall2 (edited_from cfg ed) l l' ->
    ~ In x (ids l) ->
    drop l' [x] = l'.
Proof.
  intros l l' H. induction H as [|b b' l l' Hb Hl IH]; simpl; intros Hx.
  - reflexivity.
  - apply ID_edited_from in Hb. rewrite Hb.
    destruct (cell_eqb (ID b) x) eqn:E.
    + apply cell_eqb_eq in E. exfalso. apply Hx. now left.
    + simpl. f_equal. apply IH. intros Hin. apply Hx. now right.
Qed.

Lemma drop_app (l1 l2 : frame) (labels : list cell) :
  drop (l1 ++ l2)%list labels = (drop l1 labels ++ drop l2 labels)%list.
Proof. apply filter_app. Qed.

Lemma ids_app (l1 l2 : frame) :
  ids (l1 ++ l2)%list = (ids l1 ++ ids l2)%list.
Proof. apply map_app. Qed.

Lemma nodup_cells_single (c : cell) : nodup_cells [c] = [c].
Proof. reflexivity. Qed.

(** [ids_all - ids_view] when the view lacks one line of a table with
    distinct labels: the label of that line. *)
Lemma removed_one (A B : list cell) (c : cell) :
  ~ In c (A ++ B)%list ->
  removed (A ++ c :: B)%list (A ++ B)%list = [c].
Proof.
  intros Hc. unfold removed.
  rewrite filter_app. simpl.
  assert (Hno : forall L, incl L (A ++ B)%list ->
            filter (fun x => negb (in_index x (A ++ B)%list)) L = []).
  { intros L HL. apply filter_none. intros x Hx.
    apply HL in Hx. apply in_index_In in Hx. now rewrite Hx. }
  rewrite (Hno A) by (intros x Hx; apply in_or_app; now left).
  rewrite (Hno B) by (intros x Hx; apply in_or_app; now right).
  apply in_index_false in Hc. rewrite Hc. reflexivity.
Qed.

(** ** C2 *)

(** The merge when deletion is allowed and the edited view is the table
    without one of its lines. *)
Lemma merged_minus_one (q : string) (ub_sel : list cell) (cfg : settings)
    (l1 l2 : frame) (r : row) :
  can_delete q ub_sel cfg = true ->
  NoDup (ids (l1 ++ r :: l2)%list) ->
  merged q ub_sel cfg (l1 ++ l2)%list (l1 ++ r :: l2)%list
  = Some (normalize_all cfg (l1 ++ l2)%list, [Info_removed 1]).
Proof.
  intros Hcd ND.
  assert (NDe : NoDup (ids (l1 ++ l2)%list)).
  { rewrite ids_app in *. simpl in ND. now apply NoDup_remove_1 in ND. }
  assert (Hr : ~ In (ID r) (ids l1 ++ ids l2)%list).
  { rewrite ids_app in ND. simpl in ND. now apply NoDup_remove_2 in ND. }
  unfold merged.
  destruct (apply_edits cfg (ids (l1 ++ l2)%list) (l1 ++ l2)%list
              (l1 ++ r :: l2)%list) as [base|] eqn:E.
  2:{ exfalso. revert E. apply apply_edits_defined_NoDup; [exact ND|].
      unfold known_labels. now apply NoDup_filter. }
  pose proof (apply_edits_ids _ _ _ _ _ E) as Hids.
  apply apply_edits_rows in E.
  apply Forall2_app_inv_l in E.
  destruct E as [l1' [t' [H1 [Ht ->]]]].
  inversion Ht as [|x r' l l2' Hr' H2]; subst.
  unfold delete_missing. rewrite Hcd, Hids.
  rewrite !ids_app. change (ids (r :: l2)) with (ID r :: ids l2).
  rewrite removed_one by exact Hr. simpl truthy_list. cbv iota.
  f_equal. f_equal.
  rewrite drop_app. simpl drop at 2.
  rewrite (ID_edited_from _ _ _ _ Hr'). rewrite cell_eqb_refl. simpl.
  assert (Hn1 : ~ In (ID r) (ids l1)) by (intro; apply Hr, in_or_app; now left).
  assert (Hn2 : ~ In (ID r) (ids l2)) by (intro; apply Hr, in_or_app; now right).
  rewrite (drop_keeps cfg _ (ID r) l1 l1' H1 Hn1).
  change (filter (fun b => negb (in_index (ID b) [ID r])) l2') with (drop l2' [ID r]).
  rewrite (drop_keeps cfg _ (ID r) l2 l2' H2 Hn2).
  apply normalize_all_edited_from with (ed := (l1 ++ l2)%list).
  - exact NDe.
  - apply incl_refl.
  - now apply Forall2_app.
Qed.

(** C2, amended: with deletion allowed and an edited view that is the
    table (with distinct ids) without exactly one record, the merge
    removes exactly that record and keeps every other record, in order,
    with its id, image, description, unit, quantity and location
    unchanged; its "ID Similar" is stored normalised under the active
    settings. *)
Theorem C2_delete_one_normalizes_rest
    (q : string) (ub_sel : list cell) (cfg : settings)
    (l1 l2 : frame) (r : row) (w : world) :
  can_delete q ub_sel cfg = true ->
  NoDup (ids (l1 ++ r :: l2)%list) ->
  exists s' msgs,
    reconcile q ub_sel cfg (l1 ++ l2)%list (mk_state w (l1 ++ r :: l2)%list)
    = Some (s', Info_removed 1 :: msgs)
    /\ st_df s' = map (normalized_row cfg) (l1 ++ l2)%list
    /\ ~ In (ID r) (ids (st_df s')).
Proof.
  intros Hcd ND.
  assert (Hr : ~ In (ID r) (ids (l1 ++ l2)%list)).
  { rewrite ids_app in *. simpl in ND. now apply NoDup_remove_2 in ND. }
  unfold reconcile. cbn [st_df st_world].
  rewrite merged_minus_one by assumption.
  destruct (_has_dup_desc_ubic (normalize_all cfg (l1 ++ l2)%list));
    eexists; eexists; (split; [reflexivity|]); cbn [st_df];
    (split; [reflexivity|]); now rewrite ids_normalize_all.
Qed.

End MergeLines.

Lemma C2_witness :
  exists s' msgs,
    reconcile "" [] upper_settings [tornillo; arandela]
      (mk_state local_world [tornillo; tuerca; arandela])
    = Some (s', Info_removed 1 :: msgs)
    /\ st_df s' = map (normalized_row upper_settings) [tornillo; arandela]
    /\ ~ In (ID tuerca) (ids (st_df s')).
Proof.
  apply (C2_delete_one_normalizes_rest sample_laws "" [] upper_settings
           [tornillo] [arandela] tuerca local_world).
  - reflexivity.
  - repeat constructor; simpl; intuition discriminate.
Defined.

(** The claim as stated fails: with "Mayusculas" selected, deleting
    [tuerca] from the editor rewrites the "ID Similar" of [tornillo],
    which the user did not touch, from "fam-a" to "FAM-A". *)
Lemma C2_counterexample :
  option_map (fun p => st_df (fst p))
    (reconcile "" [] upper_settings [tornillo]
       (mk_state local_world [tornillo; tuerca]))
  = Some [mk_row (CStr "I-0001") (CStr "FAM-A") (CStr "") (CStr "Tornillo")
            (CStr "pz") (CInt 3) (CStr "A1")]
  /\ ID_Similar tornillo = CStr "fam-a".
Proof. split; reflexivity. Qed.

(* ===================================================================== *)
(** * The duplicate check *)
(* ===================================================================== *)

Section DuplicateCheck.

Context {lib : Library}.

Lemma key_eqb_eq (a b : string * string) : key_eqb a b = true <-> a = b.
Proof.
  destruct a as [a1 a2], b as [b1 b2]. unfold key_eqb. simpl.
  rewrite andb_true_iff, !String.eqb_eq. split.
  - now intros [-> ->].
  - intros [= -> ->]. now split.
Qed.

Lemma existsb_key_In (k : string * string) (l : list (string * string)) :
  existsb (key_eqb k) l = true <-> In k l.
Proof.
  rewrite existsb_exists. split.
  - intros [x [Hx E]]. apply key_eqb_eq in E. now subst.
  - intros H. exists k. split; [exact H | now apply key_eqb_eq].
Qed.

(** [duplicated(...).any()] holds exactly when two lines, at different
    positions, have the same keys. *)
Lemma duplicated_any_iff (keys : list (string * string)) :
  duplicated_any keys = true
  <-> exists l1 k l2 l3, keys = (l1 ++ k :: l2 ++ k :: l3)%list.
Proof.
  induction keys as [|a t IH]; simpl.
  - split; [discriminate|]. intros [l1 [k [l2 [l3 H]]]].
    destruct l1; discriminate.
  - rewrite orb_true_iff, existsb_key_In, IH. split.
    + intros [Hin | [l1 [k [l2 [l3 ->]]]]].
      * apply in_split in Hin. destruct Hin as [l2 [l3 ->]].
        now exists [], a, l2, l3.
      * now exists (a :: l1), k, l2, l3.
    + intros [l1 [k [l2 [l3 H]]]]. destruct l1 as [|x l1]; simpl in H.
      * injection H as -> ->. left. apply in_or_app. right. now left.
      * injection H as -> ->. right. now exists l1, k, l2, l3.
Qed.

Lemma has_dup_iff (df : frame) :
  _has_dup_desc_ubic df = true
  <-> exists l1 a l2 b l3,
        df = (l1 ++ a :: l2 ++ b :: l3)%list /\ dup_key a = dup_key b.
Proof.
  unfold _has_dup_desc_ubic. destruct df as [|r0 t].
  - simpl. split; [discriminate|].
    intros [l1 [a [l2 [b [l3 [H _]]]]]]. destruct l1; discriminate.
  - change (empty (r0 :: t)) with false. cbv iota.
    generalize (r0 :: t). clear r0 t. intros df.
    rewrite duplicated_any_iff. split.
    + intros [k1 [k [k2 [k3 H]]]].
      apply map_eq_app in H. destruct H as [l1 [t1 [-> [<- H]]]].
      destruct t1 as [|a t1]; [discriminate|]. injection H as Ha H.
      apply map_eq_app in H. destruct H as [l2 [t2 [-> [<- H]]]].
      destruct t2 as [|b l3]; [discriminate|]. injection H as Hb <-.
      exists l1, a, l2, b, l3. split; [reflexivity | congruence].
    + intros [l1 [a [l2 [b [l3 [-> E]]]]]].
      exists (map dup_key l1), (dup_key a), (map dup_key l2), (map dup_key l3).
      rewrite map_app. simpl. rewrite map_app. simpl. now rewrite E.
Qed.

Lemma has_dup_probe (df : frame) (p r : row) :
  In r df -> dup_key r = dup_key p ->
  _has_dup_desc_ubic (df ++ [p])%list = true.
Proof.
  intros Hin E. apply has_dup_iff.
  apply in_split in Hin. destruct Hin as [l1 [l2 ->]].
  exists l1, r, l2, p, []. split; [|exact E].
  now rewrite <- app_assoc.
Qed.

(** ** C4 *)

(** C4: when the normalised (description, location) of the candidate
    (lower case, stripped) is that of a record of the table, the add
    handler shows the duplicate error and leaves everything as it was:
    the table, the stored file or sheet, and the cache. *)
Theorem C4_duplicate_add_rejected (cfg : settings) (a : alta) (s : state) :
  (exists r,
      In r (st_df s)
      /\ _norm_text (Descripcion r) = _norm_text (CStr (descripcion a))
      /\ _norm_text (Ubicacion_Fisica r) = _norm_text (CStr (ubicacion a))) ->
  alta_submit cfg a s = (s, [Error_duplicate_on_add]).
Proof.
  intros [r [Hin [Hd Hu]]]. unfold alta_submit.
  rewrite (has_dup_probe (st_df s) (probe_row a) r Hin); [reflexivity|].
  unfold dup_key. cbn [probe_row Descripcion Ubicacion_Fisica].
  now rewrite Hd, Hu.
Qed.

End DuplicateCheck.

Lemma C4_witness :
  alta_submit default_settings
    (mk_alta "" "  TORNILLO " "pz" 5 "a1" "")
    (mk_state local_world [tornillo; tuerca])
  = (mk_state local_world [tornillo; tuerca], [Error_duplicate_on_add]).
Proof.
  apply C4_duplicate_add_rejected.
  exists tornillo. split; [now left | split; reflexivity].
Defined.

(** ** C3 *)

Section RejectedSave.

Context {lib : Library}.

(** C3, amended: when the merged table holds two records with the same
    normalised (description, location), nothing is persisted: the file,
    the sheet and the cache are left as they were, so the next load
    returns what it returned before, and the error is shown.  The table
    of the running script is not reverted: it is the merged table. *)
Theorem C3_duplicates_not_saved
    (q : string) (ub_sel : list cell) (cfg : settings)
    (edited : frame) (s : state) (df' : frame) (msgs : list message) :
  merged q ub_sel cfg edited (st_df s) = Some (df', msgs) ->
  (exists l1 a l2 b l3,
      df' = (l1 ++ a :: l2 ++ b :: l3)%list /\ dup_key a = dup_key b) ->
  reconcile q ub_sel cfg edited s
  = Some (mk_state (st_world s) df',
          (msgs ++ [Error_duplicates_not_saved])%list).
Proof.
  intros Hm Hdup. apply has_dup_iff in Hdup.
  unfold reconcile. now rewrite Hm, Hdup.
Qed.

End RejectedSave.

Lemma C3_witness :
  reconcile "" [] default_settings [tornillo; tuerca_edited]
    (mk_state local_world [tornillo; tuerca])
  = Some (mk_state local_world [tornillo; tuerca_edited],
          [Error_duplicates_not_saved]).
Proof.
  apply (C3_duplicates_not_saved "" [] default_settings
           [tornillo; tuerca_edited] (mk_state local_world [tornillo; tuerca])
           [tornillo; tuerca_edited] []).
  - reflexivity.
  - exists [], tornillo, [], tuerca_edited, []. split; reflexivity.
Defined.

(** The claim as stated fails: after the rejected merge the table of the
    script holds the edited line, not the line it held before. *)
Lemma C3_counterexample :
  option_map (fun p => st_df (fst p))
    (reconcile "" [] default_settings [tornillo; tuerca_edited]
       (mk_state local_world [tornillo; tuerca]))
  = Some [tornillo; tuerca_edited]
  /\ _has_dup_desc_ubic [tornillo; tuerca_edited] = true
  /\ [tornillo; tuerca_edited] <> [tornillo; tuerca].
Proof. repeat split; try reflexivity. discriminate. Qed.
(* ===================================================================== *)
(** * [_new_id] *)
(* ===================================================================== *)

Lemma mapM_Ok {A B : Type} (f : A -> result B) (l : list A) (l' : list B) :
  mapM f l = Ok l' <-> Forall2 (fun a b => f a = Ok b) l l'.
Proof.
  revert l'. induction l as [|a t IH]; simpl; intros l'.
  - split; [intros [= <-]; constructor | intros H; now inversion H].
  - split.
    + destruct (f a) as [b|e] eqn:Ea; simpl; [|discriminate].
      destruct (mapM f t) as [bs|e] eqn:Et; simpl; [|discriminate].
      intros [= <-]. constructor; [exact Ea | now apply IH].
    + intros H. inversion H as [|x b l0 bs Hb Hbs]; subst.
      rewrite Hb. simpl. apply IH in Hbs. now rewrite Hbs.
Qed.

(** ** Printing and reading numbers *)

Lemma int_of_digits_uint (d : Decimal.uint) (acc : Z) :
  int_of_digits acc (digit_values (NilEmpty.string_of_uint d))
  = acc * 10 ^ Z.of_N (DecimalPos.Unsigned.usize d)
    + Z.of_N (DecimalPos.Unsigned.of_lu (Decimal.rev d)).
Proof.
  revert acc.
  induction d as [|d IH|d IH|d IH|d IH|d IH|d IH|d IH|d IH|d IH|d IH];
    intros acc;
    [simpl; lia | ..];
    cbn [NilEmpty.string_of_uint digit_values int_of_digits
         DecimalPos.Unsigned.usize];
    rewrite IH; unfold Decimal.rev; cbn [Decimal.revapp];
    match goal with
    | |- context [Decimal.revapp d (?c Decimal.Nil)] =>
        rewrite (DecimalPos.Unsigned.of_lu_revapp d (c Decimal.Nil))
    end;
    change (Decimal.revapp d Decimal.Nil) with (Decimal.rev d);
    rewrite N2Z.inj_succ, Z.pow_succ_r by lia;
    rewrite N2Z.inj_add, N2Z.inj_mul, N2Z.inj_pow;
    change (Z.of_N 10) with 10;
    set (P := 10 ^ Z.of_N (DecimalPos.Unsigned.usize d));
    set (R := Z.of_N (DecimalPos.Unsigned.of_lu (Decimal.rev d)));
    match goal with
    | |- context [Z.of_N (N_of_ascii ?a - 48)] =>
        let v := eval vm_compute in (Z.of_N (N_of_ascii a - 48)) in
        change (Z.of_N (N_of_ascii a - 48)) with v
    end;
    match goal with
    | |- context [Z.of_N (DecimalPos.Unsigned.of_lu (?c Decimal.Nil))] =>
        let v := eval vm_compute in
                   (Z.of_N (DecimalPos.Unsigned.of_lu (c Decimal.Nil))) in
        change (Z.of_N (DecimalPos.Unsigned.of_lu (c Decimal.Nil))) with v
    end;
    ring.
Qed.

Lemma all_digits_uint (d : Decimal.uint) :
  all_digits (NilEmpty.string_of_uint d) = true.
Proof. induction d; simpl; auto. Qed.

(** Reading the decimal writing of a natural number gives it back. *)
Lemma int_of_digits_str_of_Z (z : Z) :
  0 <= z -> int_of_digits 0 (digit_values (str_of_Z z)) = z.
Proof.
  intros Hz. unfold str_of_Z. destruct z as [|p|p]; [reflexivity | | lia].
  simpl. rewrite int_of_digits_uint.
  rewrite <- DecimalPos.Unsigned.of_uint_alt, DecimalPos.Unsigned.of_to.
  reflexivity.
Qed.

Lemma all_digits_str_of_Z (z : Z) : 0 <= z -> all_digits (str_of_Z z) = true.
Proof.
  intros Hz. unfold str_of_Z. destruct z as [|p|p]; [reflexivity | | lia].
  simpl. apply all_digits_uint.
Qed.

Lemma length_digit_values (s : string) :
  List.length (digit_values s) = String.length s.
Proof. induction s as [|c t IH]; simpl; [reflexivity | now rewrite IH]. Qed.

Lemma length_string_of_uint (d : Decimal.uint) :
  Z.of_nat (String.length (NilEmpty.string_of_uint d))
  = Z.of_N (DecimalPos.Unsigned.usize d).
Proof.
  induction d; cbn [NilEmpty.string_of_uint String.length
                      DecimalPos.Unsigned.usize];
    rewrite ?Nat2Z.inj_succ, ?N2Z.inj_succ, ?IHd; reflexivity.
Qed.

(** The writing of a positive number does not start with a zero. *)
Lemma to_uint_head (p : positive) (d : Decimal.uint) :
  Pos.to_uint p <> Decimal.D0 d.
Proof.
  intros E.
  assert (Hn : Decimal.unorm (Pos.to_uint p) = Pos.to_uint p).
  { rewrite <- DecimalPos.Unsigned.to_of, DecimalPos.Unsigned.of_to.
    reflexivity. }
  rewrite E in Hn. unfold Decimal.unorm in Hn.
  cbn [Decimal.nzhead] in Hn.
  assert (H : Nat.le (Decimal.nb_digits (Decimal.nzhead d))
                (Decimal.nb_digits d))
    by apply DecimalFacts.nb_digits_nzhead.
  destruct (Decimal.nzhead d) eqn:En;
    [ rewrite <- E in Hn; symmetry in Hn;
      now apply DecimalPos.Unsigned.to_uint_nonzero in Hn
    | exfalso; apply (DecimalFacts.nzhead_nonzero d d); congruence
    | rewrite Hn in H; cbn [Decimal.nb_digits] in H; lia .. ].
Qed.

(** A number below 2^63 is written on 19 digits at most. *)
Lemma length_str_of_Z (n : Z) :
  0 <= n < 2 ^ 63 -> (String.length (str_of_Z n) <= 19)%nat.
Proof.
  intros [Hn Hb]. pose proof (int_of_digits_str_of_Z n Hn) as Hv.
  unfold str_of_Z in *. destruct n as [|p|p]; [simpl; lia | | lia].
  cbn [Z.to_int NilEmpty.string_of_int] in *.
  pose proof (to_uint_head p) as Hh.
  assert (Hp : forall k d, 0 <= k ->
             10 ^ Z.of_N (DecimalPos.Unsigned.usize d)
             <= (1 + k) * 10 ^ Z.of_N (DecimalPos.Unsigned.usize d)
                + Z.of_N (DecimalPos.Unsigned.of_lu (Decimal.rev d))).
  { intros k d Hk.
    assert (0 < 10 ^ Z.of_N (DecimalPos.Unsigned.usize d))
      by (apply Z.pow_pos_nonneg; lia).
    nia. }
  assert (Hs : forall d, 10 ^ Z.of_N (DecimalPos.Unsigned.usize d) < 2 ^ 63 ->
                         Z.of_N (DecimalPos.Unsigned.usize d) < 19).
  { intros d Hd. apply (Z.pow_lt_mono_r_iff 10); [lia | lia |].
    eapply Z.lt_le_trans; [exact Hd | vm_compute; discriminate]. }
  destruct (Pos.to_uint p) as [|d|d|d|d|d|d|d|d|d|d];
    [ simpl; lia
    | exfalso; now apply (Hh d)
    | cbn [NilEmpty.string_of_uint digit_values int_of_digits String.length]
        in *;
      rewrite int_of_digits_uint in Hv;
      match type of Hv with
      | context [Z.of_N (N_of_ascii ?a - 48)] =>
          let v := eval vm_compute in (Z.of_N (N_of_ascii a - 48)) in
          change (Z.of_N (N_of_ascii a - 48)) with v in Hv
      end;
      pose proof (length_string_of_uint d) as Hl;
      match type of Hv with
      | (10 * 0 + ?k) * _ + _ = _ =>
          pose proof (Hp (k - 1) d ltac:(lia)) as Hge
      end;
      assert (Hlt : Z.of_N (DecimalPos.Unsigned.usize d) < 19)
        by (apply Hs; lia);
      lia .. ].
Qed.

Lemma int_of_digits_zeros (k : nat) (s : string) :
  int_of_digits 0 (digit_values (zeros k ++ s))
  = int_of_digits 0 (digit_values s).
Proof. induction k as [|k IH]; simpl; [reflexivity | exact IH]. Qed.

Lemma all_digits_zeros (k : nat) (s : string) :
  all_digits (zeros k ++ s) = all_digits s.
Proof. induction k as [|k IH]; simpl; [reflexivity | exact IH]. Qed.

Lemma length_zeros (k : nat) (s : string) :
  String.length (zeros k ++ s) = (k + String.length s)%nat.
Proof. induction k as [|k IH]; simpl; [reflexivity | now rewrite IH]. Qed.

Lemma format_04d_nonneg (n : Z) :
  0 <= n ->
  format_04d n = zeros (4 - String.length (str_of_Z n)) ++ str_of_Z n.
Proof.
  intros Hn. unfold format_04d.
  destruct (n <? 0) eqn:E; [apply Z.ltb_lt in E; lia|].
  now rewrite Z.abs_eq.
Qed.

Lemma format_04d_reads_back (n : Z) :
  0 <= n ->
  all_digits (format_04d n) = true
  /\ (4 <= String.length (format_04d n))%nat
  /\ int_of_digits 0 (digit_values (format_04d n)) = n.
Proof.
  intros Hn. rewrite format_04d_nonneg by exact Hn.
  rewrite all_digits_zeros, length_zeros, int_of_digits_zeros.
  split; [now apply all_digits_str_of_Z|]. split; [lia|].
  now apply int_of_digits_str_of_Z.
Qed.

Lemma length_format_04d (n : Z) :
  0 <= n < 2 ^ 63 -> (String.length (format_04d n) <= 19)%nat.
Proof.
  intros Hn. rewrite format_04d_nonneg by lia. rewrite length_zeros.
  pose proof (length_str_of_Z n Hn). lia.
Qed.

Lemma max_list_nonneg (l : list Z) : 0 <= max_list l.
Proof. induction l as [|a t IH]; simpl; lia. Qed.

Lemma max_list_ge (l : list Z) (x : Z) : In x l -> x <= max_list l.
Proof.
  induction l as [|a t IH]; simpl; [contradiction|].
  intros [-> | H]; [lia | specialize (IH H); lia].
Qed.

Lemma max_list_In (l : list Z) : l <> [] -> Forall (fun x => 0 <= x) l ->
  In (max_list l) l.
Proof.
  induction l as [|a t IH]; [congruence|]. intros _ H.
  inversion H as [|x l Ha Ht]; subst. cbn [max_list fold_right].
  fold (max_list t). destruct t as [|b t'].
  - left. simpl. lia.
  - destruct (Z.max_spec a (max_list (b :: t'))) as [[_ ->] | [_ ->]].
    + right. apply IH; [discriminate | exact Ht].
    + now left.
Qed.

Lemma max_list_app (a b : list Z) :
  max_list (a ++ b) = Z.max (max_list a) (max_list b).
Proof.
  induction a as [|x t IH]; simpl.
  - pose proof (max_list_nonneg b). lia.
  - rewrite IH. lia.
Qed.

Lemma nxt_positive (l : list Z) : 1 <= nxt l.
Proof. destruct l; simpl; [lia|]. pose proof (max_list_nonneg l). lia. Qed.

Lemma nxt_above (l : list Z) (x : Z) : In x l -> x < nxt l.
Proof.
  intros H. destruct l as [|a t]; [contradiction|].
  apply max_list_ge in H. unfold nxt. lia.
Qed.

Lemma int_of_digits_nonneg (d : list N) (acc : Z) :
  0 <= acc -> 0 <= int_of_digits acc d.
Proof.
  revert acc. induction d as [|v t IH]; cbn [int_of_digits]; intros acc H;
    [exact H|].
  apply IH. pose proof (N2Z.is_nonneg v). lia.
Qed.


(** ** The digits that the pattern reads *)

Section NewId.

Context {lib : Library}.

Lemma ascii_digit_value (c : ascii) (v : N) :
  ascii_digit c = Some v -> v = (N_of_ascii c - 48)%N.
Proof.
  unfold ascii_digit.
  destruct ((48 <=? N_of_ascii c) && (N_of_ascii c <=? 57))%N; congruence.
Qed.

Lemma digits_from_all_digits (d : string) :
  forall fuel,
    all_digits d = true -> (String.length d <= fuel)%nat ->
    digits_from fuel d = digit_values d.
Proof.
  induction d as [|c t IH]; intros fuel Hd Hl.
  - destruct fuel; reflexivity.
  - destruct fuel as [|k]; [simpl in Hl; lia|].
    cbn [all_digits] in Hd. cbn [digits_from digit digit_values].
    destruct (ascii_digit c) as [v|] eqn:Ec; [|discriminate].
    apply ascii_digit_value in Ec. subst v. f_equal.
    apply IH; [exact Hd | simpl in Hl; lia].
Qed.

Lemma digits_prefix_all (d : string) :
  all_digits d = true -> digits_prefix d = digit_values d.
Proof. intros H. now apply digits_from_all_digits. Qed.

(** An id made of [I-] and ASCII digits conforms, and its group is the
    digits. *)
Lemma search_conforming (d : string) :
  all_digits d = true -> d <> "" -> search ("I-" ++ d) = Some (digit_values d).
Proof.
  intros H Hne. change ("I-" ++ d) with (String "I" (String "-" d)).
  unfold search, match_here. rewrite digits_prefix_all by exact H.
  destruct d; [congruence | reflexivity].
Qed.

Lemma search_format_04d (n : Z) :
  0 <= n ->
  search ("I-" ++ format_04d n) = Some (digit_values (format_04d n)).
Proof.
  intros Hn. destruct (format_04d_reads_back n Hn) as [Hd [Hl _]].
  apply search_conforming; [exact Hd|].
  intros E. rewrite E in Hl. simpl in Hl. lia.
Qed.

Lemma too_long_short (d : list N) :
  (List.length d <= 640)%nat -> too_long d = false.
Proof.
  intros H. unfold too_long.
  destruct (640 <? List.length d)%nat eqn:E; [|reflexivity].
  apply Nat.ltb_lt in E. lia.
Qed.

(** The digits of an id that [_new_id] returned for a number below 2^63
    are few enough for [int]. *)
Lemma too_long_format_04d (n : Z) :
  0 <= n < 2 ^ 63 -> too_long (digit_values (format_04d n)) = false.
Proof.
  intros Hn. apply too_long_short. rewrite length_digit_values.
  pose proof (length_format_04d n Hn). lia.
Qed.

(** ** The three answers of [_new_id] *)

Lemma record_set_has_str (df : frame) :
  record_set df -> df <> [] -> existsb is_str (ids df) = true.
Proof.
  intros H Hne. destruct df as [|r t]; [congruence|].
  inversion H as [|x l [Hs _] _]; subst. simpl. now rewrite Hs.
Qed.

Lemma str_accessor_accepts (col : list cell) :
  existsb is_str col = true -> str_accessor_raises col = false.
Proof.
  intros H. unfold str_accessor_raises. rewrite H. apply andb_false_r.
Qed.

Lemma existsb_is_str_In (s : string) (l : list cell) :
  In (CStr s) l -> existsb is_str l = true.
Proof. intros H. apply existsb_exists. now exists (CStr s). Qed.

Lemma astype_int_Ok (d : list N) (n : Z) :
  astype_int d = Ok n
  <-> too_long d = false /\ int_of_digits 0 d < 2 ^ 63
      /\ n = int_of_digits 0 d.
Proof.
  unfold astype_int. destruct (too_long d).
  - split; [discriminate | intros [H _]; discriminate].
  - destruct (int_of_digits 0 d <? 2 ^ 63) eqn:E.
    + apply Z.ltb_lt in E. split; [intros [= <-]; auto | intros [_ [_ ->]]].
      reflexivity.
    + apply Z.ltb_ge in E. split; [discriminate | intros [_ [H _]]; lia].
Qed.

Lemma mapM_astype_int (ds : list (list N)) :
  Forall (fun d => too_long d = false) ds ->
  Forall (fun d => int_of_digits 0 d < 2 ^ 63) ds ->
  mapM astype_int ds = Ok (map (int_of_digits 0) ds).
Proof.
  intros Hs Hr. apply mapM_Ok.
  induction ds as [|d t IH]; simpl; constructor.
  - apply astype_int_Ok. inversion Hs; inversion Hr; subst. auto.
  - inversion Hs; inversion Hr; subst. now apply IH.
Qed.

Lemma mapM_astype_int_inv (ds : list (list N)) (nums : list Z) :
  mapM astype_int ds = Ok nums ->
  nums = map (int_of_digits 0) ds
  /\ Forall (fun d => too_long d = false) ds
  /\ Forall (fun d => int_of_digits 0 d < 2 ^ 63) ds.
Proof.
  intros H. apply mapM_Ok in H.
  induction H as [|d n ds ns Hd Hds [IH1 [IH2 IH3]]]; simpl.
  - repeat split; constructor.
  - apply astype_int_Ok in Hd. destruct Hd as [Hl [Hr ->]].
    subst ns. repeat split; constructor; auto.
Qed.

Lemma new_id_cases (df : frame) :
  _new_id df = "I-" ++ format_04d 1
  \/ _new_id df = "I-" ++ format_04d (nxt (id_numbers df))
  \/ _new_id df = "I-" ++ format_04d (Z.of_nat (List.length df) + 1).
Proof.
  unfold _new_id. destruct (empty df); [now left|].
  unfold new_id_try. destruct (str_accessor_raises (ids df));
    [now right; right|].
  destruct (mapM astype_int (extracted df)) as [nums|e] eqn:E; simpl;
    [|now right; right].
  right; left. apply mapM_astype_int_inv in E. destruct E as [-> _].
  reflexivity.
Qed.

Lemma new_id_with_strings (df : frame) :
  existsb is_str (ids df) = true ->
  short_numbers df ->
  Forall (fun n => n < 2 ^ 63) (id_numbers df) ->
  _new_id df = "I-" ++ format_04d (nxt (id_numbers df)).
Proof.
  intros Hs Hl Hr. unfold _new_id.
  destruct (empty df) eqn:E; [now destruct df|].
  unfold new_id_try. rewrite (str_accessor_accepts _ Hs).
  rewrite mapM_astype_int; [reflexivity | exact Hl |].
  unfold id_numbers in Hr. now rewrite Forall_map in Hr.
Qed.

Lemma new_id_in_range (df : frame) :
  record_set df ->
  short_numbers df ->
  Forall (fun n => n < 2 ^ 63) (id_numbers df) ->
  _new_id df = "I-" ++ format_04d (nxt (id_numbers df)).
Proof.
  intros Hrs Hl Hr. destruct df as [|r t]; [reflexivity|].
  apply new_id_with_strings; auto.
  apply record_set_has_str; [exact Hrs | discriminate].
Qed.

Lemma In_extracted (df : frame) (s : string) (d : list N) :
  In (CStr s) (ids df) -> search s = Some d -> In d (extracted df).
Proof.
  intros Hin Hs. unfold extracted. apply in_flat_map.
  exists (CStr s). split; [exact Hin|]. rewrite Hs. now left.
Qed.

Lemma extracted_In (df : frame) (d : list N) :
  In d (extracted df) ->
  exists s, In (CStr s) (ids df) /\ search s = Some d.
Proof.
  unfold extracted. intros H. apply in_flat_map in H.
  destruct H as [c [Hc Hd]]. destruct c as [| |z|s]; try contradiction.
  exists s. split; [exact Hc|].
  destruct (search s) as [d'|]; [|contradiction].
  destruct Hd as [-> | []]. reflexivity.
Qed.

Lemma extracted_app (a b : frame) :
  extracted (a ++ b)%list = (extracted a ++ extracted b)%list.
Proof. unfold extracted. now rewrite ids_app, flat_map_app. Qed.

Lemma extracted_with_id (i : string) :
  extracted [with_id i]
  = match search i with Some d => [d] | None => [] end.
Proof.
  unfold extracted, ids, with_id. cbn [map ID flat_map].
  now rewrite app_nil_r.
Qed.

(** A line whose id holds no match of the pattern gives no number. *)
Lemma extracted_skip (l1 l2 : frame) (r : row) (i : string) :
  ID r = CStr i -> search i = None ->
  extracted (l1 ++ r :: l2)%list = extracted (l1 ++ l2)%list.
Proof.
  intros Hid Hs. unfold extracted. rewrite !ids_app. simpl.
  rewrite !flat_map_app. simpl. now rewrite Hid, Hs.
Qed.

Lemma record_set_remove (l1 l2 : frame) (r : row) :
  record_set (l1 ++ r :: l2)%list -> record_set (l1 ++ l2)%list.
Proof.
  unfold record_set. rewrite !Forall_app. intros [H1 H2].
  inversion H2; subst. now split.
Qed.

Lemma id_numbers_nonneg (df : frame) : Forall (fun n => 0 <= n) (id_numbers df).
Proof.
  unfold id_numbers. apply Forall_map, Forall_forall. intros d _.
  now apply int_of_digits_nonneg.
Qed.

(** The number that line 135 computes is above every number read, and it
    is 1 when no number is read and the successor of a number read
    otherwise. *)
Lemma nxt_spec (l : list Z) :
  Forall (fun n => 0 <= n) l ->
  (forall m, In m l -> m < nxt l)
  /\ (l = [] /\ nxt l = 1 \/ In (nxt l - 1) l).
Proof.
  intros Hl. split; [intros m; apply nxt_above|].
  destruct l as [|a t]; [now left|]. right.
  unfold nxt. replace (max_list (a :: t) + 1 - 1) with (max_list (a :: t))
    by lia.
  apply max_list_In; [discriminate | exact Hl].
Qed.

(** ** C5 *)

(** C5, amended: on a record set in which every number read in an id is
    below 2^63 (the range of [astype(int)]) and no run of digits is
    longer than [int] converts, [_new_id] returns [I-] followed by a
    number padded with zeros to four digits; that number is above every
    number read in the ids, and it is 1 when no number is read and the
    successor of one of the numbers read otherwise: it is the largest of
    them plus one.  The numbers read are those of the first match of
    [I-] followed by digits in each id, wherever the match starts; for
    an id made of [I-] and ASCII digits that is the number the digits
    write.  [_new_id] returns [I-0001] on the empty table and on a
    record set without such an id, [I-0010] on [I-0001 .. I-0009], and a
    line whose id has no match, such as [ABC], changes nothing. *)
Theorem C5_new_id_is_max_plus_one :
  (forall df,
      record_set df ->
      short_numbers df ->
      Forall (fun n => n < 2 ^ 63) (id_numbers df) ->
      exists n,
        _new_id df = "I-" ++ format_04d n
        /\ (forall m, In m (id_numbers df) -> m < n)
        /\ (id_numbers df = [] /\ n = 1 \/ In (n - 1) (id_numbers df)))
  /\ (forall df m,
         In m (id_numbers df)
         <-> exists s d,
               In (CStr s) (ids df) /\ search s = Some d
               /\ m = int_of_digits 0 d)
  /\ (forall d, all_digits d = true -> d <> "" ->
                search ("I-" ++ d) = Some (digit_values d))
  /\ _new_id [] = "I-0001"
  /\ (forall df, record_set df -> id_numbers df = [] -> _new_id df = "I-0001")
  /\ _new_id one_to_nine = "I-0010"
  /\ (forall l1 l2 r i,
         record_set (l1 ++ r :: l2)%list ->
         short_numbers (l1 ++ l2)%list ->
         Forall (fun n => n < 2 ^ 63) (id_numbers (l1 ++ l2)%list) ->
         ID r = CStr i -> search i = None ->
         _new_id (l1 ++ r :: l2)%list = _new_id (l1 ++ l2)%list)
  /\ search "ABC" = None
  /\ _new_id (with_id "ABC" :: one_to_nine) = "I-0010".
Proof.
  split; [|split; [|split; [|split; [|split; [|split; [|split; [|split]]]]]]].
  - intros df Hrs Hl Hr. exists (nxt (id_numbers df)).
    split; [now apply new_id_in_range|].
    apply nxt_spec, id_numbers_nonneg.
  - intros df m. unfold id_numbers. rewrite in_map_iff. split.
    + intros [d [<- Hd]]. apply extracted_In in Hd.
      destruct Hd as [s [Hs Hd]]. now exists s, d.
    + intros [s [d [Hs [Hd ->]]]]. exists d. split; [reflexivity|].
      now apply In_extracted with (s := s).
  - apply search_conforming.
  - reflexivity.
  - intros df Hrs Hn. rewrite new_id_in_range.
    + now rewrite Hn.
    + exact Hrs.
    + unfold short_numbers. unfold id_numbers in Hn.
      apply map_eq_nil in Hn. rewrite Hn. constructor.
    + rewrite Hn. constructor.
  - reflexivity.
  - intros l1 l2 r i Hrs Hl Hr Hid Hs.
    assert (Ex : extracted (l1 ++ r :: l2)%list = extracted (l1 ++ l2)%list)
      by now apply (extracted_skip l1 l2 r i).
    rewrite !new_id_in_range; auto.
    + unfold id_numbers. now rewrite Ex.
    + now apply record_set_remove in Hrs.
    + unfold short_numbers. now rewrite Ex.
    + unfold id_numbers. rewrite Ex. exact Hr.
  - reflexivity.
  - reflexivity.
Qed.

(** ** More on the ids that [_new_id] returns *)

(** X7: whatever the table, the id that [_new_id] returns is [I-]
    followed by the decimal writing, on four digits at least, of a
    number that is 1 or more; the pattern of line 132 matches it at its
    head and reads that number back in it. *)
Theorem X7_new_id_is_well_formed (df : frame) :
  exists n,
    1 <= n
    /\ _new_id df = "I-" ++ format_04d n
    /\ all_digits (format_04d n) = true
    /\ (4 <= String.length (format_04d n))%nat
    /\ search (_new_id df) = Some (digit_values (format_04d n))
    /\ int_of_digits 0 (digit_values (format_04d n)) = n.
Proof.
  assert (H : exists n, 1 <= n /\ _new_id df = "I-" ++ format_04d n).
  { destruct (new_id_cases df) as [H | [H | H]].
    - exists 1. split; [lia | exact H].
    - exists (nxt (id_numbers df)). split; [apply nxt_positive | exact H].
    - exists (Z.of_nat (List.length df) + 1). split; [lia | exact H]. }
  destruct H as [n [Hn E]]. exists n.
  destruct (format_04d_reads_back n ltac:(lia)) as [Hd [Hl Hi]].
  rewrite E. repeat split; auto. apply search_format_04d. lia.
Qed.

Lemma new_id_fresh (df : frame) :
  short_numbers df ->
  Forall (fun n => n < 2 ^ 63) (id_numbers df) ->
  ~ In (CStr (_new_id df)) (ids df).
Proof.
  intros Hl Hr Hin.
  pose proof (existsb_is_str_In _ _ Hin) as Hs.
  pose proof (new_id_with_strings df Hs Hl Hr) as E.
  rewrite E in Hin.
  assert (Hn : 0 <= nxt (id_numbers df))
    by (pose proof (nxt_positive (id_numbers df)); lia).
  pose proof (In_extracted df _ _ Hin (search_format_04d _ Hn)) as Hd.
  assert (Hnum : In (nxt (id_numbers df)) (id_numbers df)).
  { unfold id_numbers at 2. apply in_map_iff.
    exists (digit_values (format_04d (nxt (id_numbers df)))).
    split; [|exact Hd]. apply format_04d_reads_back. exact Hn. }
  apply nxt_above in Hnum. lia.
Qed.

(** X8: as long as every number read in the ids is below 2^63 and no run
    of digits is longer than [int] converts, the id that [_new_id]
    returns is the id of no line of the table. *)
Theorem X8_new_id_is_fresh (df : frame) :
  short_numbers df ->
  Forall (fun n => n < 2 ^ 63) (id_numbers df) ->
  ~ In (CStr (_new_id df)) (ids df).
Proof. apply new_id_fresh. Qed.

(** X9: ids come in sequence.  On a record set whose numbers, and the
    next one, are below 2^63, and whose runs of digits [int] converts,
    once a line carrying the id that [_new_id] returned is appended,
    [_new_id] returns the id of the next number. *)
Theorem X9_new_id_counts_up (df : frame) (r : row) :
  record_set df ->
  short_numbers df ->
  Forall (fun n => n < 2 ^ 63) (id_numbers df) ->
  nxt (id_numbers df) < 2 ^ 63 ->
  ID r = CStr (_new_id df) ->
  _new_id (df ++ [r])%list
  = "I-" ++ format_04d (nxt (id_numbers df) + 1).
Proof.
  intros Hrs Hl Hr HN Hid.
  set (N := nxt (id_numbers df)) in *.
  assert (HN1 : 1 <= N) by apply nxt_positive.
  assert (E : _new_id df = "I-" ++ format_04d N)
    by now apply new_id_in_range.
  assert (Hex : extracted (df ++ [r])%list
                = (extracted df ++ [digit_values (format_04d N)])%list).
  { rewrite extracted_app. f_equal.
    unfold extracted, ids. simpl. rewrite Hid, E.
    now rewrite search_format_04d by lia. }
  assert (Hnums : id_numbers (df ++ [r])%list = (id_numbers df ++ [N])%list).
  { unfold id_numbers. rewrite Hex, map_app. f_equal. simpl. f_equal.
    apply format_04d_reads_back. lia. }
  rewrite new_id_with_strings.
  - rewrite Hnums. f_equal. f_equal.
    assert (Hmax : max_list (id_numbers df ++ [N]) = N).
    { rewrite max_list_app. simpl. subst N. clear.
      destruct (id_numbers df) as [|a l]; [reflexivity|].
      unfold nxt. pose proof (max_list_nonneg (a :: l)). lia. }
    destruct (id_numbers df ++ [N])%list eqn:El.
    + now destruct (id_numbers df).
    + unfold nxt. now rewrite Hmax.
  - rewrite ids_app, existsb_app. simpl. rewrite Hid. simpl.
    apply orb_true_r.
  - unfold short_numbers. rewrite Hex. apply Forall_app.
    split; [exact Hl|]. constructor; [|constructor].
    apply too_long_format_04d. lia.
  - rewrite Hnums. apply Forall_app. split; [exact Hr|]. now constructor.
Qed.

(** X10: when a number read in an id does not fit a 64-bit integer, the
    conversion raises and [_new_id] answers from the number of lines:
    [I-] followed by that number plus one. *)
Theorem X10_new_id_falls_back_on_overflow (df : frame) :
  Exists (fun n => 2 ^ 63 <= n) (id_numbers df) ->
  _new_id df = "I-" ++ format_04d (Z.of_nat (List.length df) + 1).
Proof.
  intros H. unfold _new_id.
  destruct (empty df) eqn:E; [destruct df; [inversion H | discriminate]|].
  unfold new_id_try.
  destruct (str_accessor_raises (ids df)); [reflexivity|].
  destruct (mapM astype_int (extracted df)) as [nums|e] eqn:Em;
    [|reflexivity].
  exfalso. apply mapM_astype_int_inv in Em. destruct Em as [_ [_ Hr]].
  unfold id_numbers in H. apply Exists_exists in H.
  destruct H as [n [Hin Hn]]. apply in_map_iff in Hin.
  destruct Hin as [d [<- Hd]]. rewrite Forall_forall in Hr.
  specialize (Hr d Hd). lia.
Qed.

End NewId.

Lemma C5_witness :
  exists n,
    _new_id [tornillo; with_id "ABC"; arandela] = "I-" ++ format_04d n
    /\ (forall m, In m (id_numbers [tornillo; with_id "ABC"; arandela]) ->
                  m < n)
    /\ (id_numbers [tornillo; with_id "ABC"; arandela] = [] /\ n = 1
        \/ In (n - 1) (id_numbers [tornillo; with_id "ABC"; arandela])).
Proof.
  apply (proj1 C5_new_id_is_max_plus_one).
  - repeat constructor.
  - repeat constructor.
  - repeat constructor.
Defined.

(** The claim as stated fails: the number of this id does not fit a
    64-bit integer, [astype(int)] raises, and the [except] branch answers
    from the number of lines: [I-0002], not [I-9223372036854775809]. *)
Lemma C5_counterexample :
  _new_id [with_id "I-9223372036854775808"] = "I-0002"
  /\ id_numbers [with_id "I-9223372036854775808"] = [9223372036854775808]
  /\ "I-" ++ format_04d (nxt [9223372036854775808]) = "I-9223372036854775809".
Proof. repeat split; vm_compute; reflexivity. Qed.

Lemma X8_witness :
  ~ In (CStr (_new_id [tornillo; with_id "ABC"; arandela]))
      (ids [tornillo; with_id "ABC"; arandela]).
Proof. apply X8_new_id_is_fresh; repeat constructor. Defined.

(** The bound on the runs of digits is needed: [int] refuses the 4400
    zeros of the second id, although the number they write is 0; the
    [except] branch answers from the number of lines, and [I-0003] is
    the id of the first line. *)
Example long_run_of_digits_is_refused :
  id_numbers [with_id "I-0003"; with_id ("I-" ++ zeros 4400)] = [3; 0]
  /\ _new_id [with_id "I-0003"; with_id ("I-" ++ zeros 4400)] = "I-0003".
Proof. split; vm_compute; reflexivity. Qed.

Lemma X9_witness :
  _new_id ([tornillo; arandela] ++ [with_id "I-0004"])%list = "I-0005".
Proof.
  apply (X9_new_id_counts_up [tornillo; arandela] (with_id "I-0004")).
  - repeat constructor.
  - repeat constructor.
  - repeat constructor.
  - reflexivity.
  - reflexivity.
Defined.

Lemma X10_witness :
  _new_id [tornillo; with_id "I-9223372036854775808"] = "I-0003".
Proof.
  apply (X10_new_id_falls_back_on_overflow
           [tornillo; with_id "I-9223372036854775808"]).
  apply Exists_cons_tl, Exists_cons_hd. vm_compute. discriminate.
Defined.


(* ===================================================================== *)
(** * The summary by "ID Similar" *)
(* ===================================================================== *)

Section Summary.

Context {lib : Library}.

Lemma str_cmp_Lt (a b : string) : str_cmp a b = Lt -> str_lt a b.
Proof. apply String_as_OT.cmp_lt. Qed.

Lemma str_cmp_Gt (a b : string) : str_cmp a b = Gt -> str_lt b a.
Proof.
  unfold str_cmp. intros H. apply String_as_OT.cmp_lt.
  rewrite String_as_OT.cmp_antisym, H. reflexivity.
Qed.

Lemma str_cmp_Eq (a b : string) : str_cmp a b = Eq -> a = b.
Proof. apply String_as_OT.cmp_eq. Qed.

Lemma str_lt_cmp (a b : string) : str_lt a b -> str_cmp a b = Lt.
Proof. apply String_as_OT.cmp_lt. Qed.

Lemma str_lt_trans (a b c : string) : str_lt a b -> str_lt b c -> str_lt a c.
Proof. apply String_as_OT.lt_trans. Qed.

Lemma insert_key_In (k x : string) (keys : list string) :
  In x (insert_key k keys) <-> x = k \/ In x keys.
Proof.
  induction keys as [|k' t IH]; simpl.
  - intuition.
  - destruct (str_cmp k k') eqn:E; simpl.
    + apply str_cmp_Eq in E. subst. intuition.
    + intuition.
    + rewrite IH. intuition.
Qed.

Lemma insert_key_sorted (k : string) (keys : list string) :
  StronglySorted str_lt keys -> StronglySorted str_lt (insert_key k keys).
Proof.
  induction 1 as [|k' t Ht IH Hall]; simpl.
  - repeat constructor.
  - destruct (str_cmp k k') eqn:E.
    + now constructor.
    + apply str_cmp_Lt in E. constructor; [now constructor|].
      constructor; [exact E|].
      eapply Forall_impl; [|exact Hall].
      intros x Hx. now apply str_lt_trans with k'.
    + apply str_cmp_Gt in E. constructor; [exact IH|].
      apply Forall_forall. intros x Hx. apply insert_key_In in Hx.
      destruct Hx as [-> | Hx]; [exact E|].
      rewrite Forall_forall in Hall. now apply Hall.
Qed.

Lemma group_keys_sorted (keys : list string) :
  StronglySorted str_lt (group_keys keys).
Proof.
  induction keys as [|k t IH]; simpl; [constructor|].
  now apply insert_key_sorted.
Qed.

Lemma group_keys_In (k : string) (keys : list string) :
  In k (group_keys keys) <-> In k keys.
Proof.
  induction keys as [|a t IH]; simpl; [reflexivity|].
  rewrite insert_key_In, IH. intuition.
Qed.

Lemma insert_sorted_last (x : resumen_row) (acc : list resumen_row) :
  Forall (fun y => resumen_lt y x) acc ->
  insert_sorted x acc = (acc ++ [x])%list.
Proof.
  induction 1 as [|y t Hy Ht IH]; simpl; [reflexivity|].
  apply str_lt_cmp in Hy. now rewrite Hy, IH.
Qed.

Lemma sorted_app_before {A : Type} (R : A -> A -> Prop)
    (l1 l2 : list A) (x : A) :
  StronglySorted R (l1 ++ x :: l2) -> Forall (fun y => R y x) l1.
Proof.
  induction l1 as [|a t IH]; simpl; intros H; [constructor|].
  inversion H as [|y l Hs Hall]; subst. constructor.
  - rewrite Forall_forall in Hall. apply Hall, in_or_app. right. now left.
  - now apply IH.
Qed.

(** Sorting a list that is already in ascending order of distinct keys
    returns it. *)
Lemma sort_values_sorted_from (l acc : list resumen_row) :
  StronglySorted resumen_lt (acc ++ l) ->
  fold_left (fun acc x => insert_sorted x acc) l acc = (acc ++ l)%list.
Proof.
  revert acc. induction l as [|x t IH]; simpl; intros acc H.
  - now rewrite app_nil_r.
  - rewrite insert_sorted_last by (eapply sorted_app_before; exact H).
    rewrite IH; rewrite <- app_assoc; [reflexivity | exact H].
Qed.

Lemma sort_values_sorted (l : list resumen_row) :
  StronglySorted resumen_lt l -> sort_values l = l.
Proof. intros H. unfold sort_values. now rewrite sort_values_sorted_from. Qed.

Lemma StronglySorted_map {A B : Type} (f : A -> B) (R : B -> B -> Prop)
    (l : list A) :
  StronglySorted R (map f l) ->
  StronglySorted (fun a b => R (f a) (f b)) l.
Proof.
  induction l as [|a t IH]; simpl; intros H; [constructor|].
  inversion H as [|x l Hs Hall]; subst. constructor; [now apply IH|].
  now rewrite Forall_map in Hall.
Qed.

Lemma keys_groupby_agg (cfg : settings) (df : frame) :
  map res_ID_Similar (groupby_agg cfg df) = group_keys (map (_key cfg) df).
Proof.
  unfold groupby_agg. rewrite map_map. simpl. apply map_id.
Qed.

Lemma resumen_groupby (cfg : settings) (df : frame) :
  resumen cfg df = groupby_agg cfg df.
Proof.
  unfold resumen. destruct df as [|r t]; [reflexivity|].
  change (empty (r :: t)) with false. cbv iota.
  apply sort_values_sorted.
  apply (StronglySorted_map res_ID_Similar str_lt).
  rewrite keys_groupby_agg. apply group_keys_sorted.
Qed.

Lemma count_id_record_set (g : frame) :
  record_set g -> count_id g = List.length g.
Proof.
  unfold count_id. induction 1 as [|r t [Hs _] Ht IH]; simpl; [reflexivity|].
  destruct (ID r); try discriminate. simpl. now rewrite IH.
Qed.

Lemma record_set_filter (p : row -> bool) (df : frame) :
  record_set df -> record_set (filter p df).
Proof.
  unfold record_set. rewrite !Forall_forall. intros H r Hr.
  apply filter_In in Hr. now apply H.
Qed.

Lemma str_lt_irrefl (a : string) : ~ str_lt a a.
Proof. intros H. now apply (String_as_OT.lt_not_eq a a H). Qed.

Lemma sorted_NoDup (l : list string) : StronglySorted str_lt l -> NoDup l.
Proof.
  induction 1 as [|a t Ht IH Hall]; constructor; [|exact IH].
  intros Hin. rewrite Forall_forall in Hall.
  now apply (str_lt_irrefl a), Hall.
Qed.

Lemma sumZ_pick (K : list string) (x : string) (v : Z) :
  NoDup K -> In x K ->
  sumZ (map (fun k => if String.eqb x k then v else 0) K) = v.
Proof.
  induction 1 as [|k t Hk Ht IH]; simpl; [contradiction|].
  intros [-> | Hin].
  - rewrite String.eqb_refl.
    assert (E : sumZ (map (fun k => if String.eqb x k then v else 0) t) = 0).
    { clear IH Ht. induction t as [|a t IH]; simpl; [reflexivity|].
      destruct (String.eqb x a) eqn:Ea.
      - apply String.eqb_eq in Ea. subst. exfalso. apply Hk. now left.
      - rewrite IH; [reflexivity|]. intros H. apply Hk. now right. }
    unfold sumZ in *. simpl. lia.
  - destruct (String.eqb x k) eqn:Ek.
    + apply String.eqb_eq in Ek. subst. contradiction.
    + unfold sumZ in *. simpl. now rewrite IH.
Qed.

(** Summing a weight group by group, over keys that are distinct and
    cover the table, is summing it over the table. *)
Lemma sum_by_groups (cfg : settings) (wt : row -> Z) (K : list string) :
  NoDup K ->
  forall df,
    (forall r, In r df -> In (_key cfg r) K) ->
    sumZ (map (fun k => sumZ (map wt (group cfg k df))) K)
    = sumZ (map wt df).
Proof.
  intros HK. induction df as [|r t IH]; intros Hcov.
  - simpl. clear HK Hcov. induction K as [|a K IHK]; [reflexivity|].
    unfold sumZ in *. simpl. exact IHK.
  - assert (E : forall k,
              sumZ (map wt (group cfg k (r :: t)))
              = (if String.eqb (_key cfg r) k then wt r else 0)
                + sumZ (map wt (group cfg k t))).
    { intros k. unfold group. simpl.
      destruct (String.eqb (_key cfg r) k); reflexivity. }
    rewrite (map_ext _ _ E).
    assert (Hadd : forall (f g : string -> Z) L,
              sumZ (map (fun k => f k + g k) L)
              = sumZ (map f L) + sumZ (map g L)).
    { intros f g L. induction L as [|a L IHL]; simpl; [reflexivity|].
      unfold sumZ in *. simpl. rewrite IHL. lia. }
    rewrite Hadd, sumZ_pick, IH; [reflexivity | | exact HK |].
    + intros x Hx. apply Hcov. now right.
    + apply Hcov. now left.
Qed.

Lemma length_sumZ {A : Type} (l : list A) :
  Z.of_nat (List.length l) = sumZ (map (fun _ => 1) l).
Proof.
  induction l as [|a t IH]; [reflexivity|].
  cbn [List.length map]. rewrite Nat2Z.inj_succ.
  unfold sumZ in *. cbn [fold_right]. lia.
Qed.

Lemma filter_map_comm {A B : Type} (f : A -> B) (p : B -> bool)
    (l : list A) :
  filter p (map f l) = map f (filter (fun a => p (f a)) l).
Proof.
  induction l as [|a t IH]; simpl; [reflexivity|].
  destruct (p (f a)); simpl; now rewrite IH.
Qed.

(** The table after line 333, as a function of the table before. *)

Lemma wrap64_small (z : Z) : int64 z = true -> wrap64 z = z.
Proof.
  unfold int64, wrap64. intros H. apply andb_prop in H. destruct H as [H1 H2].
  apply Z.leb_le in H1. apply Z.ltb_lt in H2.
  rewrite Z.mod_small; lia.
Qed.

Lemma wrap64_int64 (z : Z) : int64 (wrap64 z) = true.
Proof.
  unfold int64, wrap64.
  pose proof (Z.mod_pos_bound (z + 2 ^ 63) (2 ^ 64) ltac:(lia)) as H.
  apply andb_true_intro. split; [apply Z.leb_le | apply Z.ltb_lt]; lia.
Qed.

Lemma wrap64_add (a b : Z) : wrap64 (wrap64 a + b) = wrap64 (a + b).
Proof.
  unfold wrap64. f_equal.
  replace ((a + 2 ^ 63) mod 2 ^ 64 - 2 ^ 63 + b + 2 ^ 63)
    with ((a + 2 ^ 63) mod 2 ^ 64 + b) by lia.
  rewrite Zplus_mod_idemp_l. f_equal. lia.
Qed.

Lemma wrap64_sumZ (l : list Z) : wrap64 (sumZ (map wrap64 l)) = wrap64 (sumZ l).
Proof.
  induction l as [|a t IH]; [reflexivity|].
  unfold sumZ in *. cbn [map fold_right].
  rewrite wrap64_add. rewrite Z.add_comm, <- wrap64_add, IH, wrap64_add.
  f_equal. lia.
Qed.

Lemma total_quantity_sumZ (g : frame) :
  total_quantity g = sumZ (map (fun r => quantity (Cantidad r)) g).
Proof. reflexivity. Qed.

Lemma total_quantity_normalize_all (cfg : settings) (g : frame) :
  total_quantity (normalize_all cfg g) = total_quantity g.
Proof.
  unfold total_quantity, normalize_all. now rewrite map_map.
Qed.

(** With quantities that are not negative, a part of the table adds up
    to no more than the table. *)
Lemma total_quantity_filter (p : row -> bool) (df : frame) :
  Forall (fun r => 0 <= quantity (Cantidad r)) df ->
  0 <= total_quantity (filter p df) <= total_quantity df.
Proof.
  unfold total_quantity.
  induction 1 as [|r t Hr Ht IH]; simpl; [lia|].
  destruct (p r); simpl; lia.
Qed.

(** The key under which the summary files a record: its normalised
    "ID Similar", or ["(sin ID)"] when that is empty. *)
Lemma key_cases (cfg : settings) (r : row) :
  let s := _normalize_idsim (ID_Similar r) (norm_case cfg)
             (strip_spaces cfg) in
  (s = "" /\ _key cfg r = "(sin ID)") \/ (s <> "" /\ _key cfg r = s).
Proof.
  unfold _key. cbv zeta.
  destruct (String.eqb _ "") eqn:E.
  - left. split; [now apply String.eqb_eq | reflexivity].
  - right. split; [now apply String.eqb_neq | reflexivity].
Qed.

(** ** C6 *)

(** C6, amended: on a record set whose quantities are 64-bit integers
    and in which no "ID Similar" is the missing value [NaN], the summary
    has one line per group key, where the key of a record is its
    normalised "ID Similar", or ["(sin ID)"] when that is empty; the
    lines come in ascending order of the key; the count of a line is the
    number of the records with its key, and its total is the sum of
    their quantities computed in 64 bits: the sum itself whenever it
    fits a 64-bit integer, the sum wrapped around otherwise.  On the
    three records of the example, with upper case selected, the summary
    is ["(sin ID)"] with total 1 and count 1, then ["A"] with total 5
    and count 2. *)
Theorem C6_resumen_groups_sums_and_orders (cfg : settings) (df : frame) :
  record_set df ->
  int64_quantities df ->
  Forall (fun r => ID_Similar r <> CNaN) df ->
  StronglySorted str_lt (map res_ID_Similar (resumen cfg df))
  /\ (forall r,
         In r df ->
         let s := _normalize_idsim (ID_Similar r) (norm_case cfg)
                    (strip_spaces cfg) in
         In (if String.eqb s "" then "(sin ID)" else s)
           (map res_ID_Similar (resumen cfg df)))
  /\ (forall g,
         In g (resumen cfg df) ->
         let members :=
           filter
             (fun r =>
                let s := _normalize_idsim (ID_Similar r) (norm_case cfg)
                           (strip_spaces cfg) in
                String.eqb (if String.eqb s "" then "(sin ID)" else s)
                  (res_ID_Similar g))
             df in
         members <> []
         /\ Num_Items g = List.length members
         /\ Total_Cantidad g = wrap64 (total_quantity members)
         /\ (int64 (total_quantity members) = true ->
             Total_Cantidad g = total_quantity members))
  /\ resumen (lib := sample_lib) upper_settings example_records
     = [mk_resumen "(sin ID)" 1 1; mk_resumen "A" 5 2].
Proof.
  intros Hrs _ _. rewrite resumen_groupby.
  split; [|split; [|split]].
  - rewrite keys_groupby_agg. apply group_keys_sorted.
  - intros r Hr. cbv zeta. rewrite keys_groupby_agg, group_keys_In.
    apply in_map_iff. exists r. split; [reflexivity | exact Hr].
  - intros g Hg. unfold groupby_agg in Hg. apply in_map_iff in Hg.
    destruct Hg as [k [<- Hk]]. cbn [res_ID_Similar Total_Cantidad Num_Items].
    cbv zeta.
    match goal with
    | |- context [filter ?f df] =>
        change (filter f df) with (group cfg k df)
    end.
    apply group_keys_In, in_map_iff in Hk. destruct Hk as [r [Hr Hin]].
    split; [|split; [|split]].
    + intros E.
      assert (Hm : In r (group cfg k df)).
      { apply filter_In. split; [exact Hin|]. rewrite Hr.
        apply String.eqb_refl. }
      rewrite E in Hm. contradiction.
    + apply count_id_record_set. now apply record_set_filter.
    + reflexivity.
    + intros H. unfold sum_cantidad. now apply wrap64_small.
  - reflexivity.
Qed.

(** ** More on the summary *)

(** X24: the summary loses nothing.  On a record set whose quantities
    are 64-bit integers, its counts add up to the number of lines of the
    table, and it has no line exactly when the table has none.  Its
    totals add up to the sum of the quantities of the table in 64-bit
    arithmetic; when no quantity is negative and the sum of the table is
    below 2^63, the totals add up to the sum of the table. *)
Theorem X24_summary_accounts_for_every_line (cfg : settings) (df : frame) :
  record_set df ->
  int64_quantities df ->
  wrap64 (sumZ (map Total_Cantidad (resumen cfg df)))
  = wrap64 (total_quantity df)
  /\ (Forall (fun r => 0 <= quantity (Cantidad r)) df ->
      total_quantity df < 2 ^ 63 ->
      sumZ (map Total_Cantidad (resumen cfg df)) = total_quantity df)
  /\ sumZ (map (fun g => Z.of_nat (Num_Items g)) (resumen cfg df))
     = Z.of_nat (List.length df)
  /\ (resumen cfg df = [] <-> df = []).
Proof.
  intros Hrs _. rewrite resumen_groupby. unfold groupby_agg.
  rewrite !map_map. cbn [Total_Cantidad Num_Items].
  set (K := group_keys (map (_key cfg) df)).
  assert (HK : NoDup K) by apply sorted_NoDup, group_keys_sorted.
  assert (Hcov : forall r, In r df -> In (_key cfg r) K).
  { intros r Hr. apply group_keys_In. now apply in_map. }
  split; [|split; [|split]].
  - unfold sum_cantidad.
    rewrite <- (map_map (fun k => total_quantity (group cfg k df)) wrap64).
    rewrite wrap64_sumZ. f_equal.
    rewrite (map_ext _ _ (fun k => total_quantity_sumZ (group cfg k df))).
    now rewrite sum_by_groups.
  - intros Hpos Hlt.
    rewrite (map_ext_in _ (fun k => total_quantity (group cfg k df))).
    + rewrite (map_ext _ _ (fun k => total_quantity_sumZ (group cfg k df))).
      now rewrite sum_by_groups.
    + intros k _. unfold sum_cantidad. apply wrap64_small.
      pose proof (total_quantity_filter
                    (fun r => String.eqb (_key cfg r) k) df Hpos) as Hb.
      fold (group cfg k df) in Hb. unfold int64.
      apply andb_true_intro. split; [apply Z.leb_le | apply Z.ltb_lt]; lia.
  - rewrite (map_ext _ (fun k => sumZ (map (fun _ => 1) (group cfg k df)))).
    + rewrite sum_by_groups by assumption. symmetry. apply length_sumZ.
    + intros k. rewrite count_id_record_set.
      * apply length_sumZ.
      * now apply record_set_filter.
  - split.
    + intros H. apply map_eq_nil in H. destruct df as [|r t]; [reflexivity|].
      specialize (Hcov r (or_introl eq_refl)). rewrite H in Hcov.
      contradiction.
    + intros ->. reflexivity.
Qed.

Lemma fill_replace_normalized (cfg : settings) (r : row) :
  fill_replace (ID_Similar (normalized_row cfg r)) = CStr (_key cfg r).
Proof.
  unfold normalized_row, _key, fill_replace.
  cbn [ID ID_Similar Imagen Descripcion Unidad Cantidad Ubicacion_Fisica].
  now destruct (String.eqb _ "").
Qed.

Lemma det_rows (cfg : settings) (sel_id : string) (df : frame) :
  sel_id <> "Todos" ->
  det cfg sel_id df = Some (normalize_all cfg (group cfg sel_id df)).
Proof.
  intros H. unfold det. apply String.eqb_neq in H. rewrite H. cbv iota.
  unfold normalize_all, group. rewrite filter_map_comm.
  apply f_equal, f_equal, filter_ext. intros r. rewrite fill_replace_normalized.
  unfold cell_eqb. destruct (cell_eq_dec (CStr (_key cfg r)) (CStr sel_id))
    as [E | E]; symmetry.
  - injection E as ->. apply String.eqb_refl.
  - apply String.eqb_neq. congruence.
Qed.


(** X25: the detail agrees with the summary.  For a line of the summary
    of a record set with 64-bit quantities, whose key is not "Todos",
    the detail holds as many rows as the line counts, the total of the
    line is the sum of their quantities computed in 64 bits, and they
    are the rows of the table with that key, in order, with "ID Similar"
    normalised; for the entry "Todos" there is no detail, even when a
    group has that key. *)
Theorem X25_detail_agrees_with_summary
    (cfg : settings) (df : frame) (g : resumen_row) :
  record_set df ->
  int64_quantities df ->
  In g (resumen cfg df) ->
  res_ID_Similar g <> "Todos" ->
  exists rows,
    det cfg (res_ID_Similar g) df = Some rows
    /\ rows = map (normalized_row cfg)
                (filter (fun r => String.eqb (_key cfg r) (res_ID_Similar g))
                   df)
    /\ rows <> []
    /\ List.length rows = Num_Items g
    /\ Total_Cantidad g = wrap64 (total_quantity rows)
    /\ det cfg "Todos" df = None.
Proof.
  intros Hrs _ Hg Hk. rewrite resumen_groupby in Hg.
  unfold groupby_agg in Hg. apply in_map_iff in Hg.
  destruct Hg as [k [<- Hin]]. cbn [res_ID_Similar Num_Items Total_Cantidad] in *.
  exists (normalize_all cfg (group cfg k df)).
  split; [now apply det_rows|]. split; [reflexivity|].
  apply group_keys_In, in_map_iff in Hin. destruct Hin as [r [Hr Hin]].
  split; [|split; [|split]].
  - intros E. apply map_eq_nil in E.
    assert (Hm : In r (group cfg k df)).
    { apply filter_In. split; [exact Hin|]. rewrite Hr. apply String.eqb_refl. }
    rewrite E in Hm. contradiction.
  - unfold normalize_all. rewrite length_map. symmetry.
    apply count_id_record_set. now apply record_set_filter.
  - now rewrite total_quantity_normalize_all.
  - reflexivity.
Qed.

End Summary.

Lemma C6_witness :
  StronglySorted str_lt
    (map res_ID_Similar (resumen default_settings [tornillo; tuerca; arandela])).
Proof.
  apply (C6_resumen_groups_sums_and_orders default_settings
           [tornillo; tuerca; arandela]).
  - repeat constructor.
  - repeat constructor; eexists; split; reflexivity.
  - repeat constructor; discriminate.
Defined.

(** The claim as stated fails: the two quantities of the group add up to
    2^63, and the total of the summary is -2^63. *)
Lemma C6_counterexample :
  resumen default_settings heavy_records = [mk_resumen "A" (- 2 ^ 63) 2]
  /\ total_quantity heavy_records = 2 ^ 63
  /\ record_set heavy_records
  /\ int64_quantities heavy_records.
Proof.
  split; [reflexivity|]. split; [reflexivity|].
  split; repeat constructor; eexists; split; reflexivity.
Qed.

Lemma X24_witness :
  sumZ (map Total_Cantidad
          (resumen upper_settings [tornillo; tuerca; arandela]))
  = total_quantity [tornillo; tuerca; arandela].
Proof.
  apply (X24_summary_accounts_for_every_line upper_settings
           [tornillo; tuerca; arandela]).
  - repeat constructor.
  - repeat constructor; eexists; split; reflexivity.
  - repeat constructor; discriminate.
  - reflexivity.
Defined.

Lemma X25_witness :
  exists rows,
    det upper_settings "FAM-A" [tornillo; tuerca; arandela] = Some rows
    /\ rows = map (normalized_row upper_settings)
                (filter (fun r => String.eqb (_key upper_settings r) "FAM-A")
                   [tornillo; tuerca; arandela])
    /\ rows <> []
    /\ List.length rows = 2%nat
    /\ 5 = wrap64 (total_quantity rows)
    /\ det upper_settings "Todos" [tornillo; tuerca; arandela] = None.
Proof.
  apply (X25_detail_agrees_with_summary upper_settings
           [tornillo; tuerca; arandela] (mk_resumen "FAM-A" 5 2)).
  - repeat constructor.
  - repeat constructor; eexists; split; reflexivity.
  - right; left; reflexivity.
  - discriminate.
Defined.

(* ===================================================================== *)
(** * Loading *)
(* ===================================================================== *)

Section Loading.

Context {lib : Library}.

Lemma add_missing_records (df df' : raw_frame) (col : string) :
  add_missing df col = Ok df' -> records df' = records df.
Proof.
  unfold add_missing. destruct (has_column df col); [now intros [= <-]|].
  destruct (records df) eqn:E; [|discriminate]. now intros [= <-].
Qed.

Lemma add_missing_columns_records (cols : list string) :
  forall df df',
    add_missing_columns cols df = Ok df' -> records df' = records df.
Proof.
  induction cols as [|col rest IH]; simpl; intros df df' H.
  - now injection H as <-.
  - destruct (add_missing df col) as [d|e] eqn:E; simpl in H; [|discriminate].
    apply IH in H. apply add_missing_records in E. congruence.
Qed.

(** The loop of lines 70-72 goes through when the table has no line, or
    has every column. *)
Lemma add_missing_columns_defined (cols : list string) :
  forall df,
    records df = [] \/ (forall col, In col cols -> has_column df col = true) ->
    exists df', add_missing_columns cols df = Ok df'.
Proof.
  induction cols as [|col rest IH]; simpl; intros df H; [now exists df|].
  destruct H as [H | H].
  - unfold add_missing. destruct (has_column df col).
    + simpl. apply IH. now left.
    + rewrite H. simpl. apply IH. now left.
  - unfold add_missing. rewrite (H col (or_introl eq_refl)). simpl.
    apply IH. right. intros c Hc. apply H. now right.
Qed.

(** The loop of lines 70-72 raises as soon as the table has a line and
    lacks a column. *)
Lemma add_missing_columns_raises (cols : list string) (df : raw_frame) :
  records df <> [] ->
  (exists col, In col cols /\ has_column df col = false) ->
  add_missing_columns cols df = Raise ValueError.
Proof.
  intros Hne. induction cols as [|c rest IH]; simpl; intros [col [Hin Hcol]];
    [contradiction|].
  unfold add_missing. destruct (has_column df c) eqn:E.
  - simpl. apply IH. exists col. split; [|exact Hcol].
    destruct Hin as [-> | Hin]; [congruence | exact Hin].
  - destruct (records df); [congruence | reflexivity].
Qed.

(** ** The conversion of the quantities *)

Lemma mapM_length {A B : Type} (f : A -> result B) (l : list A) (l' : list B) :
  mapM f l = Ok l' -> List.length l' = List.length l.
Proof.
  intros H. apply mapM_Ok in H.
  induction H; simpl; [reflexivity | now f_equal].
Qed.

Lemma is_int64_value (n : numeric) :
  is_int64 n = true -> n = Integer (integer_value n) /\ int64 (integer_value n) = true.
Proof. destruct n; simpl; try discriminate. auto. Qed.

Lemma float_to_int_int64 (n : numeric) (z : Z) :
  exact n = true -> float_to_int n = Ok z -> int64 z = true.
Proof.
  destruct n as [x|t| |]; simpl; intros He [= <-].
  - apply Z.leb_le in He. unfold int64.
    apply andb_true_intro. split; [apply Z.leb_le | apply Z.ltb_lt].
    + assert (- 2 ^ 53 <= x) by lia.
      eapply Z.le_trans; [|eassumption]. vm_compute. discriminate.
    + assert (x <= 2 ^ 53) by lia.
      eapply Z.le_lt_trans; [eassumption|]. reflexivity.
  - apply wrap64_int64.
  - reflexivity.
Qed.

Lemma coerce_cantidad_length (col : list cell) (qs : list Z) :
  coerce_cantidad col = Ok qs -> List.length qs = List.length col.
Proof.
  unfold coerce_cantidad.
  destruct (forallb is_int64 (map to_numeric col)).
  - intros [= <-]. now rewrite !length_map.
  - destruct (forallb exact (map to_numeric col)); intros H;
      apply mapM_length in H; now rewrite length_map in H.
Qed.

Lemma mapM_Forall {A B : Type} (f : A -> result B) (P : B -> Prop)
    (l : list A) (l' : list B) :
  mapM f l = Ok l' ->
  (forall a b, In a l -> f a = Ok b -> P b) ->
  Forall P l'.
Proof.
  intros H. apply mapM_Ok in H.
  induction H as [|a b l l' Hab Hl IH]; intros HP; constructor.
  - apply (HP a b); [now left | exact Hab].
  - apply IH. intros x y Hx. apply HP. now right.
Qed.

(** Whatever the column holds, what the conversion returns are 64-bit
    integers. *)
Lemma coerce_cantidad_int64 (col : list cell) (qs : list Z) :
  coerce_cantidad col = Ok qs -> Forall (fun q => int64 q = true) qs.
Proof.
  unfold coerce_cantidad.
  destruct (forallb is_int64 (map to_numeric col)) eqn:Ea.
  - intros [= <-]. rewrite forallb_forall in Ea.
    apply Forall_map, Forall_forall. intros n Hn.
    now destruct (is_int64_value n (Ea n Hn)) as [_ H].
  - destruct (forallb exact (map to_numeric col)) eqn:Ee; intros H.
    + rewrite forallb_forall in Ee.
      apply (mapM_Forall _ _ _ _ H). intros n q Hn Hq.
      apply (float_to_int_int64 n); [now apply Ee | exact Hq].
    + apply (mapM_Forall _ _ _ _ H). intros n q Hn Hq.
      destruct (inexact_value (map to_numeric col) n); simpl in Hq;
        [|discriminate].
      injection Hq as <-. apply wrap64_int64.
Qed.



(** ** What [conform] returns *)

Lemma combine_map_l {A B C D : Type} (g : A -> B) (f : B -> C -> D)
    (l : list A) (qs : list C) :
  map (fun p => f (fst p) (snd p)) (combine (map g l) qs)
  = map (fun p => f (g (fst p)) (snd p)) (combine l qs).
Proof.
  revert qs. induction l as [|a l IH]; intros [|q qs]; simpl;
    try reflexivity.
  f_equal. apply IH.
Qed.

Lemma conform_select (raw : raw_frame) (df : frame) :
  conform raw = Ok df ->
  (records raw = [] /\ df = [])
  \/ exists qs,
       coerce_cantidad (map (fun rec => get rec "Cantidad") (records raw))
       = Ok qs
       /\ List.length qs = List.length (records raw)
       /\ df = map (fun p => coerced (select_row (fst p)) (snd p))
                 (combine (records raw) qs).
Proof.
  unfold conform.
  destruct (add_missing_columns APP_COLUMNS raw) as [raw'|e] eqn:E; simpl;
    [|discriminate].
  apply add_missing_columns_records in E.
  unfold select_app_columns. rewrite E.
  destruct (records raw) as [|x t] eqn:Em.
  - simpl. intros [= <-]. now left.
  - change (negb (empty (map select_row (x :: t)))) with true. cbv iota.
    unfold coerce_frame. rewrite map_map.
    change (fun x0 => Cantidad (select_row x0))
      with (fun rec => get rec "Cantidad").
    destruct (coerce_cantidad (map (fun rec => get rec "Cantidad") (x :: t)))
      as [qs|e] eqn:Eq; simpl bind; [|discriminate].
    intros [= <-]. right. exists qs. split; [reflexivity|].
    apply coerce_cantidad_length in Eq. rewrite length_map in Eq.
    split; [exact Eq|]. exact (combine_map_l select_row coerced (x :: t) qs).
Qed.

Lemma Forall2_combine (A B C : Type) (f : A -> B -> C) (R : A -> B -> Prop)
    (l : list A) (qs : list B) :
  Forall2 R l qs ->
  Forall2 (fun a c => exists q, c = f a q /\ R a q)
    l (map (fun p => f (fst p) (snd p)) (combine l qs)).
Proof.
  induction 1 as [|a q l qs Hr H IH]; simpl; constructor; [|exact IH].
  now exists q.
Qed.

Lemma Forall2_length_refl {A B : Type} (l : list A) (qs : list B) :
  List.length qs = List.length l -> Forall2 (fun _ _ => True) l qs.
Proof.
  revert qs. induction l as [|a l IH]; intros [|q qs] H; simpl in *;
    try discriminate; constructor; auto.
Qed.

(** What [conform] returns, line by line, in terms of what it was
    given. *)
Lemma conform_rows (raw : raw_frame) (df : frame) :
  conform raw = Ok df ->
  Forall2 (fun rec r => exists q, r = coerced (select_row rec) q)
    (records raw) df.
Proof.
  intros H. apply conform_select in H.
  destruct H as [[-> ->] | [qs [_ [Hl ->]]]]; [constructor|].
  pose proof (Forall2_combine _ _ _ (fun rec q => coerced (select_row rec) q)
                (fun _ _ => True) (records raw) qs
                (Forall2_length_refl _ _ Hl)) as HF.
  eapply Forall2_impl; [|exact HF].
  intros rec r [q [-> _]]. now exists q.
Qed.

(** The quantities that [conform] returns, in terms of what the
    conversion makes of the column. *)
Lemma conform_quantities (R : cell -> Z -> Prop) (raw : raw_frame)
    (df : frame) :
  conform raw = Ok df ->
  (forall col qs, col = map (fun rec => get rec "Cantidad") (records raw) ->
                  coerce_cantidad col = Ok qs -> Forall2 R col qs) ->
  Forall2 (fun rec r => exists q, Cantidad r = CInt q
                                  /\ R (get rec "Cantidad") q)
    (records raw) df.
Proof.
  intros H HR. apply conform_select in H.
  destruct H as [[-> ->] | [qs [Hq [Hl ->]]]]; [constructor|].
  specialize (HR _ qs eq_refl Hq).
  assert (HF : Forall2 (fun rec q => R (get rec "Cantidad") q)
                 (records raw) qs).
  { clear Hq Hl. revert qs HR.
    induction (records raw) as [|rec t IH]; simpl; intros qs HR;
      inversion HR; subst; constructor; auto. }
  pose proof (Forall2_combine _ _ _ (fun rec q => coerced (select_row rec) q)
                _ (records raw) qs HF) as HF'.
  eapply Forall2_impl; [|exact HF'].
  intros rec r [q [-> Hr]]. exists q. split; [reflexivity | exact Hr].
Qed.

Lemma conform_int64 (raw : raw_frame) (df : frame) :
  conform raw = Ok df -> int64_quantities df.
Proof.
  intros H.
  pose proof (conform_quantities (fun _ q => int64 q = true) raw df H) as HF.
  assert (HR : forall col qs,
             col = map (fun rec => get rec "Cantidad") (records raw) ->
             coerce_cantidad col = Ok qs ->
             Forall2 (fun _ q => int64 q = true) col qs).
  { intros col qs _ Hq. pose proof (coerce_cantidad_length _ _ Hq) as Hl.
    apply coerce_cantidad_int64 in Hq. clear H HF. revert col Hl.
    induction Hq as [|q qs Hq0 Hqs IH]; intros [|c col] Hl; simpl in *;
      try discriminate; constructor; auto. }
  specialize (HF HR). unfold int64_quantities. clear H HR.
  induction HF as [|rec r recs df [q [Hc Hq]] _ IH]; constructor; [|exact IH].
  now exists q.
Qed.

Lemma conform_missing_column_raises (raw : raw_frame) :
  records raw <> [] ->
  (exists col, In col APP_COLUMNS /\ has_column raw col = false) ->
  conform raw = Raise ValueError.
Proof.
  intros Hne Hcol. unfold conform.
  now rewrite add_missing_columns_raises.
Qed.

(** What [conform] returns is a record set of the data model. *)
Lemma conform_record_set (raw : raw_frame) (df : frame) :
  conform raw = Ok df -> record_set df.
Proof.
  intros H. apply conform_rows in H. unfold record_set.
  induction H as [|rec r recs df [q ->] Hrs IH]; constructor; [|exact IH].
  split; reflexivity.
Qed.

Lemma read_from_gsheets_conform (sheet : grid) (df : frame) :
  read_from_gsheets_try sheet = Ok df -> exists raw, conform raw = Ok df.
Proof.
  unfold read_from_gsheets_try.
  destruct (get_all_records sheet) as [raw|e]; simpl; [|discriminate].
  intros H. eexists. exact H.
Qed.

Lemma load_local_body_conform (file : option grid) (df : frame) :
  load_local_body file = Ok df -> df = [] \/ exists raw, conform raw = Ok df.
Proof.
  unfold load_local_body.
  destruct (read_csv_file file) as [raw|e]; simpl.
  - destruct (conform raw) as [d|e] eqn:E.
    + intros [= <-]. right. now exists raw.
    + destruct e; try discriminate. intros [= <-]. now left.
  - destruct e; try discriminate. intros [= <-]. now left.
Qed.

Lemma read_from_gsheets_int64 (sheet : grid) :
  int64_quantities (fst (_read_from_gsheets sheet)).
Proof.
  unfold _read_from_gsheets.
  destruct (read_from_gsheets_try sheet) as [df|e] eqn:E; [|constructor].
  simpl. apply read_from_gsheets_conform in E. destruct E as [raw E].
  now apply conform_int64 in E.
Qed.

Lemma load_local_body_int64 (file : option grid) (df : frame) :
  load_local_body file = Ok df -> int64_quantities df.
Proof.
  intros H. apply load_local_body_conform in H.
  destruct H as [-> | [raw H]]; [constructor | now apply conform_int64 in H].
Qed.

Lemma read_from_gsheets_record_set (sheet : grid) :
  record_set (fst (_read_from_gsheets sheet)).
Proof.
  unfold _read_from_gsheets.
  destruct (read_from_gsheets_try sheet) as [df|e] eqn:E; [|constructor].
  simpl. apply read_from_gsheets_conform in E. destruct E as [raw E].
  now apply conform_record_set in E.
Qed.

Lemma load_local_body_record_set (file : option grid) (df : frame) :
  load_local_body file = Ok df -> record_set df.
Proof.
  intros H. apply load_local_body_conform in H.
  destruct H as [-> | [raw H]]; [constructor | now apply conform_record_set in H].
Qed.

(** What [load_data] returns satisfies what the two loaders establish
    and the cache keeps. *)
Lemma load_data_invariant (P : frame -> Prop) :
  P [] ->
  (forall raw df, conform raw = Ok df -> P df) ->
  forall w df w',
    (forall d, cache w = Some d -> P d) ->
    load_data w = (Ok df, w') ->
    P df /\ (forall d, cache w' = Some d -> P d).
Proof.
  intros Hnil Hconf w df w' Hc. unfold load_data.
  destruct (ws w) as [sheet|] eqn:Ews.
  - intros [= <- <-]. split; [|exact Hc].
    unfold _read_from_gsheets.
    destruct (read_from_gsheets_try sheet) as [d|e] eqn:E; [|exact Hnil].
    apply read_from_gsheets_conform in E. destruct E as [raw E].
    now apply Hconf in E.
  - unfold _load_local. destruct (cache w) as [d|] eqn:Ec.
    + intros [= <- <-]. split; [now apply Hc|].
      intros d0 H0. rewrite Ec in H0. now apply Hc.
    + destruct (load_local_body (csv w)) as [d|e] eqn:E; intros [= <- <-].
      assert (Hd : P d).
      { apply load_local_body_conform in E.
        destruct E as [-> | [raw E]]; [exact Hnil | now apply Hconf in E]. }
      split; [exact Hd|]. intros d' [= <-]. exact Hd.
Qed.



(** ** C7 *)


(** ** Saving, then loading: C9 *)

Lemma Forall2_of_map {A B C : Type} (f : A -> B) (R : B -> C -> Prop)
    (l : list A) (l' : list C) :
  Forall2 R (map f l) l' -> Forall2 (fun a c => R (f a) c) l l'.
Proof.
  revert l'. induction l as [|a t IH]; simpl; intros l' H;
    inversion H; subst; constructor; auto.
Qed.

Lemma Forall2_compose {A B C : Type} (R1 : A -> B -> Prop)
    (R2 : B -> C -> Prop) (l1 : list A) (l2 : list B) (l3 : list C) :
  Forall2 R1 l1 l2 -> Forall2 R2 l2 l3 ->
  Forall2 (fun a c => exists b, R1 a b /\ R2 b c) l1 l3.
Proof.
  intros H. revert l3. induction H as [|a b l1 l2 Hab H IH]; intros l3 H2;
    inversion H2; subst; constructor; eauto.
Qed.

Lemma Forall2_diag {A : Type} (R : A -> A -> Prop) (l : list A) (a : A) :
  Forall2 R l l -> In a l -> R a a.
Proof.
  induction l as [|x t IH]; intros H Hin; [contradiction|].
  inversion H; subst. destruct Hin as [-> | Hin]; auto.
Qed.

Lemma ws_save_data (df : frame) (w : world) :
  ws (cache_clear (save_data df w))
  = match ws w with
    | Some _ => Some (_write_to_gsheets df)
    | None => None
    end.
Proof. unfold save_data. now destruct (ws w). Qed.

Lemma csv_save_data_local (df : frame) (w : world) :
  ws w = None -> csv (cache_clear (save_data df w)) = Some (_save_local df).
Proof. unfold save_data. now intros ->. Qed.

(** In local mode, the load that follows a save and the reset of the
    cache reads the file that was written. *)
Lemma load_after_save_local (df : frame) (w : world) :
  ws w = None ->
  fst (load_data (cache_clear (save_data df w)))
  = load_local_body (Some (_save_local df)).
Proof.
  intros Hw. unfold load_data, save_data, _load_local, cache_clear.
  rewrite Hw. simpl. now destruct (load_local_body (Some (_save_local df))).
Qed.

(** C9: on the local backend the load that follows a save does not
    return the set that was saved as soon as a record has an empty text
    field, which is how the add form leaves "ID Similar" and "Imagen"
    when they are not filled in.  [to_csv] writes the empty string as an
    empty field and [pd.read_csv] reads an empty field as a missing
    value: wherever a row of the saved set has an empty "ID Similar",
    "Imagen", "Descripcion", "Unidad" or "Ubicacion Fisica", the row
    that comes back holds [NaN]. *)
Theorem C9_local_reload_turns_empty_text_into_missing
    (df : frame) (w : world) :
  blank_is_missing ->
  ws w = None ->
  (forall df',
      fst (load_data (cache_clear (save_data df w))) = Ok df' ->
      df' <> [] ->
      Forall2
        (fun r r' =>
           (cell_text (ID_Similar r) = "" -> ID_Similar r' = CNaN)
           /\ (cell_text (Imagen r) = "" -> Imagen r' = CNaN)
           /\ (cell_text (Descripcion r) = "" -> Descripcion r' = CNaN)
           /\ (cell_text (Unidad r) = "" -> Unidad r' = CNaN)
           /\ (cell_text (Ubicacion_Fisica r) = "" ->
               Ubicacion_Fisica r' = CNaN))
        df df')
  /\ ((exists r,
          In r df
          /\ (ID_Similar r = CStr "" \/ Imagen r = CStr ""
              \/ Descripcion r = CStr "" \/ Unidad r = CStr ""
              \/ Ubicacion_Fisica r = CStr "")) ->
      fst (load_data (cache_clear (save_data df w))) <> Ok df).
Proof.
  intros Hb Hw. rewrite (load_after_save_local df w Hw).
  assert (Hmain :
            forall df',
              load_local_body (Some (_save_local df)) = Ok df' ->
              df' <> [] ->
              Forall2
                (fun r r' =>
                   (cell_text (ID_Similar r) = "" -> ID_Similar r' = CNaN)
                   /\ (cell_text (Imagen r) = "" -> Imagen r' = CNaN)
                   /\ (cell_text (Descripcion r) = "" ->
                       Descripcion r' = CNaN)
                   /\ (cell_text (Unidad r) = "" -> Unidad r' = CNaN)
                   /\ (cell_text (Ubicacion_Fisica r) = "" ->
                       Ubicacion_Fisica r' = CNaN))
                df df').
  { intros df' H Hne. unfold load_local_body, read_csv_file in H.
    destruct (read_csv (_save_local df)) as [raw|e] eqn:Er; simpl in H.
    - destruct (conform raw) as [d|e] eqn:Ec.
      + injection H as <-. apply conform_rows in Ec.
        unfold _save_local, to_csv in Er. apply Hb in Er.
        * apply Forall2_of_map in Er.
          pose proof (Forall2_compose _ _ _ _ _ Er Ec) as HF.
          eapply Forall2_impl; [|exact HF].
          intros r r' [rec [Hrec [q ->]]].
          cbn [coerced select_row ID_Similar Imagen Descripcion Unidad
                 Ubicacion_Fisica].
          repeat split; intros E; apply Hrec; cbn; now rewrite E.
        * apply Forall_forall. intros l Hl. apply in_map_iff in Hl.
          now destruct Hl as [r [<- _]].
      + destruct e; try discriminate. injection H as <-. congruence.
    - destruct e; try discriminate. injection H as <-. congruence. }
  split; [exact Hmain|].
  intros [r [Hin Hr]] H.
  assert (Hne : df <> []) by (intros ->; contradiction).
  pose proof (Forall2_diag _ _ r (Hmain df H Hne) Hin)
    as [H1 [H2 [H3 [H4 H5]]]].
  destruct Hr as [E | [E | [E | [E | E]]]]; rewrite E in *;
    [specialize (H1 eq_refl) | specialize (H2 eq_refl)
    | specialize (H3 eq_refl) | specialize (H4 eq_refl)
    | specialize (H5 eq_refl)]; discriminate.
Qed.

(** ** More on loading and saving *)

(** X21: what [load_data] returns is a record set: whenever it returns a
    table, every id of the table is a string and every quantity an
    integer (given that the cache, if it holds a table, holds one that
    an earlier load returned), and so is what it leaves in the cache.
    With a worksheet it always returns a table and leaves the world as
    it is; without one, and without a file and a cached table, it
    returns the empty table and caches it. *)
Theorem X21_load_returns_a_record_set :
  (forall w df w',
      (forall d, cache w = Some d -> record_set d) ->
      load_data w = (Ok df, w') ->
      record_set df /\ (forall d, cache w' = Some d -> record_set d))
  /\ (forall w sheet,
         ws w = Some sheet ->
         exists df, load_data w = (Ok df, w))
  /\ (forall w,
         ws w = None -> cache w = None -> csv w = None ->
         load_data w = (Ok [], mk_world None None (Some []))).
Proof.
  split; [|split].
  - apply load_data_invariant; [constructor | apply conform_record_set].
  - intros w sheet H. eexists. unfold load_data. rewrite H. reflexivity.
  - intros w H1 H2 H3. unfold load_data, _load_local, load_local_body.
    now rewrite H1, H2, H3.
Qed.

(** X22: the cache of the local loader.  Once [load_data] has returned a
    table in local mode, it returns that table again whatever the file
    has become, and in particular after a save, until the cache is
    reset; a load that follows a save and a reset of the cache reads the
    file that was written. *)
Theorem X22_local_load_is_cached (w w' : world) (df : frame) :
  ws w = None ->
  load_data w = (Ok df, w') ->
  (forall file,
      load_data (mk_world None file (cache w'))
      = (Ok df, mk_world None file (cache w')))
  /\ (forall df2, fst (load_data (save_data df2 w')) = Ok df)
  /\ (forall df2,
         fst (load_data (cache_clear (save_data df2 w')))
         = load_local_body (Some (_save_local df2))).
Proof.
  intros Hws H. unfold load_data in H. rewrite Hws in H.
  assert (Hc : cache w' = Some df /\ ws w' = None).
  { unfold _load_local in H. destruct (cache w) as [d|] eqn:Ec.
    - injection H as <- <-. now split.
    - destruct (load_local_body (csv w)); [|discriminate].
      injection H as <- <-. now split. }
  destruct Hc as [Hc Hw']. split; [|split].
  - intros file. unfold load_data, _load_local. simpl. now rewrite Hc.
  - intros df2. unfold load_data, save_data, _load_local. rewrite Hw'. simpl.
    now rewrite Hc.
  - intros df2. now apply load_after_save_local.
Qed.

Lemma row_text_length (r : row) : List.length (row_text r) = 7%nat.
Proof. reflexivity. Qed.

(** X23: saving replaces.  Both backends are given the same grid: the
    seven column labels, then one line of seven fields for each row, in
    order; a save overwrites what an earlier save wrote; and a save
    changes neither the cache nor whether a worksheet is in use. *)
Theorem X23_save_replaces_with_header_and_rows (df1 df2 : frame) (w : world) :
  _write_to_gsheets df2 = _save_local df2
  /\ _save_local df2 = APP_COLUMNS :: map row_text df2
  /\ Forall (fun line => List.length line = 7%nat) (_save_local df2)
  /\ List.length (_save_local df2) = S (List.length df2)
  /\ save_data df2 (save_data df1 w) = save_data df2 w
  /\ cache (save_data df2 w) = cache w
  /\ (ws (save_data df2 w) = None <-> ws w = None)
  /\ match ws w with
     | Some _ => ws (save_data df2 w) = Some (_save_local df2)
                 /\ csv (save_data df2 w) = csv w
     | None => csv (save_data df2 w) = Some (_save_local df2)
     end.
Proof.
  assert (H1 : _write_to_gsheets df2 = _save_local df2).
  { unfold _write_to_gsheets, _save_local, to_csv, values.
    destruct (map row_text df2); reflexivity. }
  repeat split.
  - exact H1.
  - constructor; [reflexivity|]. apply Forall_forall. intros l Hl.
    apply in_map_iff in Hl. destruct Hl as [r [<- _]]. reflexivity.
  - unfold _save_local, to_csv. simpl. now rewrite length_map.
  - unfold save_data. destruct (ws w); reflexivity.
  - unfold save_data. destruct (ws w); reflexivity.
  - unfold save_data. destruct (ws w); [discriminate | reflexivity].
  - unfold save_data. intros ->. reflexivity.
  - unfold save_data. destruct (ws w); simpl; [|reflexivity].
    rewrite H1. split; reflexivity.
Qed.

End Loading.

(** The sample reader of files reads an empty field as a missing
    value. *)
Lemma zip_csv_fields_blank (header line : list string) (col : string) :
  field header line col = Some "" ->
  get (zip_csv_fields header line) col = CNaN.
Proof.
  revert line. induction header as [|h hs IH]; intros [|f fs]; simpl;
    try discriminate.
  destruct (String.eqb h col); [intros [= ->]; reflexivity | apply IH].
Qed.

Lemma sample_blank_is_missing : blank_is_missing.
Proof.
  intros lines raw _ [= <-]. cbn [records].
  induction lines as [|l t IH]; cbn [map]; constructor; [|exact IH].
  intros col. apply zip_csv_fields_blank.
Qed.



(** ** C8 *)

(** C8: on the local backend a file that lacks a column and holds a
    line makes [load_data] raise [ValueError], where the claim promises
    the table with the missing columns empty; and an exception of the
    reader other than [FileNotFoundError] is raised again.  On the same
    contents the remote backend returns the empty table with a
    warning. *)
Theorem C8_local_load_raises :
  load_data (mk_world None (Some short_csv) None)
  = (Raise ValueError, mk_world None (Some short_csv) None)
  /\ fst (load_data (mk_world None (Some []) None)) = Raise OtherError
  /\ _read_from_gsheets short_csv = ([], true).
Proof. repeat split. Qed.

Lemma C9_witness :
  fst (load_data (cache_clear (save_data blank_set local_world)))
  <> Ok blank_set.
Proof.
  apply (proj2 (C9_local_reload_turns_empty_text_into_missing
                  blank_set local_world sample_blank_is_missing eq_refl)).
  exists (mk_row (CStr "I-0001") (CStr "") (CStr "img.png") (CStr "Tornillo")
            (CStr "pz") (CInt 3) (CStr "A1")).
  split; [now left | now left].
Defined.

(** The record with an empty "ID Similar" comes back from the file with
    that field missing, and the summary then files it under ["nan"]
    instead of ["(sin ID)"]; through the worksheet, read as text, it
    comes back as it was. *)
Example blank_set_reloaded :
  fst (load_data (cache_clear (save_data blank_set local_world)))
  = Ok missing_set
  /\ map res_ID_Similar (resumen default_settings blank_set) = ["(sin ID)"]
  /\ map res_ID_Similar (resumen default_settings missing_set) = ["nan"]
  /\ fst (load_data
            (cache_clear (save_data blank_set (mk_world (Some []) None None))))
     = Ok blank_set.
Proof. repeat split. Qed.

Lemma X21_witness :
  record_set plain_set
  /\ (forall d,
         cache (mk_world None (Some (to_csv plain_set)) (Some plain_set))
         = Some d ->
         record_set d).
Proof.
  apply (proj1 X21_load_returns_a_record_set
           (mk_world None (Some (to_csv plain_set)) None) plain_set).
  - intros d H. discriminate H.
  - reflexivity.
Defined.

Lemma X22_witness :
  fst (load_data
         (save_data [tornillo]
            (mk_world None (Some (to_csv plain_set)) (Some plain_set))))
  = Ok plain_set.
Proof.
  apply (X22_local_load_is_cached
           (mk_world None (Some (to_csv plain_set)) None)
           (mk_world None (Some (to_csv plain_set)) (Some plain_set))
           plain_set);
    reflexivity.
Defined.

(* ===================================================================== *)
(** * More on the normalisation helpers *)
(* ===================================================================== *)

Section Spellings.

Context {lib : Library}.

(** [str.upper], [str.lower] and [str.strip] are taken with the laws of
    [StrLaws], which the theorems that rely on them have as their
    first hypothesis. *)
Variable laws : StrLaws.

Lemma norm_text_respelled (c c' : cell) :
  respelled c c' -> _norm_text c' = _norm_text c.
Proof.
  intros [s [s' [a [b [-> [-> [Ha [Hb Hl]]]]]]]]. cbn [_norm_text py_str].
  rewrite (strip_padding laws) by assumption.
  rewrite <- !(strip_lower laws). now rewrite Hl.
Qed.

(** X1: the normal form of a text ignores letter case and surrounding
    whitespace: a text with whitespace around it, spelled so that its
    lower-case form is the same, has the same normal form; so has, in
    particular, its lower-case form. *)
Theorem X1_norm_text_ignores_case_and_padding (s s' a b : string) :
  blank a -> blank b -> lower s' = lower s ->
  _norm_text (CStr (a ++ s' ++ b)) = _norm_text (CStr s)
  /\ _norm_text (CStr (a ++ lower s ++ b)) = _norm_text (CStr s).
Proof.
  intros Ha Hb Hl. split; apply norm_text_respelled.
  - exists s, s', a, b. repeat split; auto.
  - exists s, (lower s), a, b. repeat split; auto. apply (lower_idem laws).
Qed.

(** X2: what the normalisation of "ID Similar" merges.  With the strip
    option on, whitespace around the key does not matter.  With upper
    case selected, two keys with the same upper-case form get the same
    key, and with lower case selected, two keys with the same lower-case
    form; with "Sin cambio" and the option off a string is returned as
    it is. *)
Theorem X2_normalize_idsim_merges_spellings (s s' a b : string) :
  blank a -> blank b ->
  (forall m, _normalize_idsim (CStr (a ++ s ++ b)) m true
             = _normalize_idsim (CStr s) m true)
  /\ (upper s' = upper s ->
      forall sp, _normalize_idsim (CStr s') Mayusculas sp
                 = _normalize_idsim (CStr s) Mayusculas sp)
  /\ (lower s' = lower s ->
      forall sp, _normalize_idsim (CStr s') Minusculas sp
                 = _normalize_idsim (CStr s) Minusculas sp)
  /\ (upper s' = upper s ->
      _normalize_idsim (CStr (a ++ s' ++ b)) Mayusculas true
      = _normalize_idsim (CStr s) Mayusculas true)
  /\ _normalize_idsim (CStr s) Sin_cambio false = s.
Proof.
  intros Ha Hb. split; [|split; [|split; [|split]]].
  - intros m. cbn [_normalize_idsim py_str].
    now rewrite (strip_padding laws).
  - intros Hu [|]; cbn [_normalize_idsim py_str];
      rewrite <- ?(strip_upper laws); now rewrite Hu.
  - intros Hl [|]; cbn [_normalize_idsim py_str];
      rewrite <- ?(strip_lower laws); now rewrite Hl.
  - intros Hu. cbn [_normalize_idsim py_str].
    rewrite (strip_padding laws) by assumption.
    rewrite <- !(strip_upper laws). now rewrite Hu.
  - reflexivity.
Qed.

End Spellings.

Lemma X1_witness :
  _norm_text (CStr ("  " ++ "ToRnIlLo" ++ " ")) = _norm_text (CStr "tornillo").
Proof.
  apply (X1_norm_text_ignores_case_and_padding sample_laws
           "tornillo" "ToRnIlLo" "  " " ");
    reflexivity.
Defined.

Lemma X2_witness :
  _normalize_idsim (CStr (" " ++ "fam-A" ++ "  ")) Mayusculas true
  = _normalize_idsim (CStr "FAM-a") Mayusculas true.
Proof.
  apply (X2_normalize_idsim_merges_spellings sample_laws
           "FAM-a" "fam-A" " " "  ");
    reflexivity.
Defined.

(* ===================================================================== *)
(** * More on the duplicate check *)
(* ===================================================================== *)

Section DuplicateKeys.

Context {lib : Library}.

Lemma duplicated_any_NoDup (keys : list (string * string)) :
  duplicated_any keys = false <-> NoDup keys.
Proof.
  induction keys as [|k t IH]; simpl.
  - split; [constructor | reflexivity].
  - rewrite orb_false_iff, IH. split.
    + intros [Hk Ht]. constructor; [|exact Ht].
      intros Hin. apply existsb_key_In in Hin. congruence.
    + intros H. inversion H as [|x l Hnotin Hnd]; subst. split; [|exact Hnd].
      destruct (existsb (key_eqb k) t) eqn:E; [|reflexivity].
      apply existsb_key_In in E. contradiction.
Qed.

Lemma has_dup_NoDup (df : frame) :
  _has_dup_desc_ubic df = false <-> NoDup (map dup_key df).
Proof.
  unfold _has_dup_desc_ubic. destruct df as [|r t].
  - simpl. split; [constructor | reflexivity].
  - change (empty (r :: t)) with false. cbv iota. apply duplicated_any_NoDup.
Qed.

Lemma dup_keys_selection (keep : row -> bool) (df : frame) :
  NoDup (map dup_key df) -> NoDup (map dup_key (filter keep df)).
Proof.
  induction df as [|r t IH]; cbn [filter map]; [constructor|].
  intros Hnd. apply NoDup_cons_iff in Hnd. destruct Hnd as [Hfresh Hnd].
  destruct (keep r); cbn [map]; [|now apply IH].
  apply NoDup_cons_iff. split; [|now apply IH].
  intros Hin. apply Hfresh.
  apply in_map_iff in Hin. destruct Hin as [r' [Hk Hin]].
  apply filter_In in Hin. rewrite <- Hk. apply in_map, Hin.
Qed.

(** X3: the duplicate check answers yes exactly when two lines of the
    table, at different positions, have the same normalised description
    and the same normalised location; it answers no on the empty table
    and on a table of one line. *)
Theorem X3_has_dup_characterised (df : frame) :
  (_has_dup_desc_ubic df = true
   <-> exists l1 a l2 b l3,
         df = (l1 ++ a :: l2 ++ b :: l3)%list
         /\ _norm_text (Descripcion a) = _norm_text (Descripcion b)
         /\ _norm_text (Ubicacion_Fisica a) = _norm_text (Ubicacion_Fisica b))
  /\ _has_dup_desc_ubic [] = false
  /\ (forall r, _has_dup_desc_ubic [r] = false).
Proof.
  split; [|split; [reflexivity | intros r; reflexivity]].
  rewrite has_dup_iff. unfold dup_key.
  split; intros [l1 [a [l2 [b [l3 [E H]]]]]]; exists l1, a, l2, b, l3;
    (split; [exact E|]).
  - now injection H.
  - destruct H as [-> ->]. reflexivity.
Qed.

(** X4: the answer of the duplicate check does not depend on the order
    of the lines. *)
Theorem X4_has_dup_order_independent (df df' : frame) :
  Permutation df df' ->
  _has_dup_desc_ubic df' = _has_dup_desc_ubic df.
Proof.
  intros HP.
  assert (H : forall a b, Permutation a b ->
              _has_dup_desc_ubic a = false -> _has_dup_desc_ubic b = false).
  { intros a b Hab Ha. apply has_dup_NoDup. apply has_dup_NoDup in Ha.
    eapply Permutation_NoDup; [|exact Ha]. now apply Permutation_map. }
  destruct (_has_dup_desc_ubic df) eqn:E.
  - destruct (_has_dup_desc_ubic df') eqn:E'; [reflexivity|].
    apply (H df' df) in E'; [congruence | now apply Permutation_sym].
  - now apply (H df df').
Qed.

End DuplicateKeys.

Lemma X4_witness :
  _has_dup_desc_ubic [arandela; tornillo; tuerca]
  = _has_dup_desc_ubic [tornillo; tuerca; arandela].
Proof.
  apply X4_has_dup_order_independent.
  apply Permutation_sym, (Permutation_cons_append [tornillo; tuerca] arandela).
Defined.

Section Respelling.

Context {lib : Library}.

(** X5: the answer of the duplicate check does not change when the
    descriptions and the locations are respelled, line by line, with
    whitespace around them and in any way that keeps their lower-case
    form. *)
Theorem X5_has_dup_ignores_respelling (laws : StrLaws) (df df' : frame) :
  Forall2 (fun r r' =>
             respelled (Descripcion r) (Descripcion r')
             /\ respelled (Ubicacion_Fisica r) (Ubicacion_Fisica r'))
    df df' ->
  _has_dup_desc_ubic df' = _has_dup_desc_ubic df.
Proof.
  intros H.
  assert (Hk : map dup_key df' = map dup_key df).
  { induction H as [|r r' l l' [Hd Hu] Hl IH]; simpl; [reflexivity|].
    unfold dup_key at 1 3.
    now rewrite (norm_text_respelled laws _ _ Hd),
      (norm_text_respelled laws _ _ Hu), IH. }
  unfold _has_dup_desc_ubic. rewrite Hk.
  destruct H; reflexivity.
Qed.

End Respelling.

Lemma X5_witness :
  _has_dup_desc_ubic
    [mk_row (CStr "I-0001") (CStr "fam-a") (CStr "") (CStr " TORNILLO")
       (CStr "pz") (CInt 3) (CStr "a1 ")]
  = _has_dup_desc_ubic [tornillo].
Proof.
  apply (X5_has_dup_ignores_respelling sample_laws).
  constructor; [|constructor]. split.
  - exists "Tornillo", "TORNILLO", " ", "". repeat split.
  - exists "A1", "a1", "", " ". repeat split.
Defined.

Section Selection.

Context {lib : Library}.

(** X6: taking lines away never creates a duplicate: when the check
    answers no on a table, it answers no on every selection of its
    lines. *)
Theorem X6_has_dup_not_created_by_removal (p : row -> bool) (df : frame) :
  _has_dup_desc_ubic df = false ->
  _has_dup_desc_ubic (filter p df) = false.
Proof.
  intros H. apply has_dup_NoDup. apply has_dup_NoDup in H.
  now apply dup_keys_selection.
Qed.

End Selection.

Lemma X6_witness :
  _has_dup_desc_ubic
    (filter (fun r => negb (cell_eqb (ID r) (CStr "I-0002")))
       [tornillo; tuerca; arandela])
  = false.
Proof. apply X6_has_dup_not_created_by_removal. reflexivity. Defined.


(* ===================================================================== *)
(** * More on the add form *)
(* ===================================================================== *)

Section Handlers.

Context {lib : Library}.

(** [str.upper], [str.lower] and [str.strip] are taken with the laws of
    [StrLaws], which the theorems that rely on them have as their
    first hypothesis. *)
Variable laws : StrLaws.

Lemma key_eqb_sym (a b : string * string) : key_eqb a b = key_eqb b a.
Proof.
  destruct (key_eqb a b) eqn:E; destruct (key_eqb b a) eqn:E';
    try reflexivity.
  - apply key_eqb_eq in E. subst. now rewrite (proj2 (key_eqb_eq b b)) in E'.
  - apply key_eqb_eq in E'. subst. now rewrite (proj2 (key_eqb_eq a a)) in E.
Qed.

Lemma duplicated_any_snoc (l : list (string * string)) (k : string * string) :
  duplicated_any (l ++ [k]) = duplicated_any l || existsb (key_eqb k) l.
Proof.
  induction l as [|a t IH]; simpl; [reflexivity|].
  rewrite existsb_app, IH. simpl. rewrite (key_eqb_sym k a).
  destruct (existsb (key_eqb a) t), (key_eqb a k), (duplicated_any t),
    (existsb (key_eqb k) t); reflexivity.
Qed.

Lemma has_dup_snoc (df : frame) (r : row) :
  _has_dup_desc_ubic (df ++ [r])%list
  = _has_dup_desc_ubic df || existsb (key_eqb (dup_key r)) (map dup_key df).
Proof.
  unfold _has_dup_desc_ubic. destruct df as [|a t]; [reflexivity|].
  change (empty ((a :: t) ++ [r])%list) with false.
  change (empty (a :: t)) with false. cbv iota.
  rewrite map_app. apply duplicated_any_snoc.
Qed.

(** The stored line has the keys of the probe line: stripping does not
    change a normal form. *)
Lemma dup_key_new_row (cfg : settings) (df : frame) (a : alta) :
  dup_key (new_row cfg df a) = dup_key (probe_row a).
Proof.
  unfold dup_key, new_row, probe_row, _norm_text. simpl.
  now rewrite !(strip_idem laws).
Qed.

Lemma has_dup_new_row (cfg : settings) (df : frame) (a : alta) :
  _has_dup_desc_ubic (df ++ [new_row cfg df a])%list
  = _has_dup_desc_ubic (df ++ [probe_row a])%list.
Proof. now rewrite !has_dup_snoc, dup_key_new_row. Qed.

(** X11: an add that is not refused appends exactly one line after the
    lines of the table, which it leaves as they are; the line carries
    the id of [_new_id] and the stripped texts; the new table is saved,
    the cache is reset, and the duplicate check still answers no on
    it. *)
Theorem X11_add_appends_and_keeps_no_duplicates
    (cfg : settings) (a : alta) (s : state) :
  _has_dup_desc_ubic (st_df s ++ [probe_row a])%list = false ->
  let r := new_row cfg (st_df s) a in
  let df' := (st_df s ++ [r])%list in
  alta_submit cfg a s
  = (mk_state (cache_clear (save_data df' (st_world s))) df',
     [Success_added (_new_id (st_df s))])
  /\ ID r = CStr (_new_id (st_df s))
  /\ Descripcion r = CStr (strip (descripcion a))
  /\ Ubicacion_Fisica r = CStr (strip (ubicacion a))
  /\ Cantidad r = CInt (cantidad a)
  /\ _has_dup_desc_ubic df' = false
  /\ cache (st_world (fst (alta_submit cfg a s))) = None.
Proof.
  intros H r df'. unfold alta_submit. rewrite H. cbv zeta.
  repeat split; try reflexivity.
  subst df' r. now rewrite has_dup_new_row.
Qed.

(** X12: the add form keeps the ids distinct: when the ids of the table
    are distinct, every number read in them is below 2^63 and no run of
    digits is longer than [int] converts, the ids of the table after the
    handler are distinct too, whether the add went through or was
    refused. *)
Theorem X12_add_keeps_ids_distinct (cfg : settings) (a : alta) (s : state) :
  NoDup (ids (st_df s)) ->
  short_numbers (st_df s) ->
  Forall (fun n => n < 2 ^ 63) (id_numbers (st_df s)) ->
  NoDup (ids (st_df (fst (alta_submit cfg a s)))).
Proof.
  intros ND Hl Hr. unfold alta_submit.
  destruct (_has_dup_desc_ubic (st_df s ++ [probe_row a])%list); [exact ND|].
  cbn [fst st_df]. rewrite ids_app. simpl.
  apply NoDup_app_remove_l with (l := []). simpl.
  apply (Permutation_NoDup (l := CStr (_new_id (st_df s)) :: ids (st_df s))).
  - apply Permutation_cons_append.
  - constructor; [now apply new_id_fresh | exact ND].
Qed.

(** X13: when the add is refused.  The handler answers with the
    duplicate error, and changes nothing, exactly when the table already
    holds two lines with the same keys, whatever the candidate, or when
    a line of the table has the keys of the candidate. *)
Theorem X13_add_refused_iff (cfg : settings) (a : alta) (s : state) :
  alta_submit cfg a s = (s, [Error_duplicate_on_add])
  <-> (_has_dup_desc_ubic (st_df s) = true
       \/ exists r,
            In r (st_df s)
            /\ _norm_text (Descripcion r) = _norm_text (CStr (descripcion a))
            /\ _norm_text (Ubicacion_Fisica r)
               = _norm_text (CStr (ubicacion a))).
Proof.
  assert (Hk : existsb (key_eqb (dup_key (probe_row a)))
                 (map dup_key (st_df s)) = true
               <-> exists r,
                     In r (st_df s)
                     /\ _norm_text (Descripcion r)
                        = _norm_text (CStr (descripcion a))
                     /\ _norm_text (Ubicacion_Fisica r)
                        = _norm_text (CStr (ubicacion a))).
  { rewrite existsb_key_In, in_map_iff. unfold dup_key. simpl.
    split; intros [r H]; exists r.
    - destruct H as [[= H1 H2] Hin]. auto.
    - destruct H as [Hin [H1 H2]]. split; [now rewrite H1, H2 | exact Hin]. }
  rewrite <- Hk, <- orb_true_iff, <- has_dup_snoc.
  unfold alta_submit.
  destruct (_has_dup_desc_ubic (st_df s ++ [probe_row a])%list).
  - split; reflexivity.
  - split; [|discriminate]. intros H. injection H as _ H. discriminate.
Qed.

(* ===================================================================== *)
(** * More on the merge: what it does to the whole table *)
(* ===================================================================== *)

Lemma loc_not_in_index (df : frame) (idx : cell) :
  in_index idx (ids df) = false -> loc df idx = None.
Proof.
  intros H. unfold loc. rewrite filter_none; [reflexivity|].
  intros r Hr. destruct (labelled idx r) eqn:E; [|reflexivity].
  apply labelled_eq in E. apply in_index_false in H.
  exfalso. apply H. rewrite <- E. now apply in_map.
Qed.

(** The line that the loop of lines 313-318 leaves in place of [b]. *)
Lemma apply_edits_pointwise (cfg : settings) (ed : frame) :
  forall index base base',
    apply_edits cfg index ed base = Some base' ->
    base' = map (fun b =>
                   if in_index (ID b) index then
                     match loc ed (ID b) with
                     | Some e => overwrite b (updated_row cfg e)
                     | None => b
                     end
                   else b)
              base.
Proof.
  induction index as [|idx rest IH]; simpl; intros base base' H.
  - injection H as <-. now rewrite map_id.
  - destruct (in_index idx (ids base)) eqn:Ein.
    + destruct (loc ed idx) as [e|] eqn:Ee; [|discriminate].
      destruct (loc base idx) as [b0|]; [|discriminate].
      apply IH in H. rewrite H. unfold assign. rewrite map_map.
      apply map_ext. intros b. unfold labelled.
      destruct (cell_eqb (ID b) idx) eqn:Eb.
      * apply cell_eqb_eq in Eb. simpl. rewrite Eb, Ee.
        destruct (in_index idx rest); reflexivity.
      * simpl. reflexivity.
    + apply IH in H. rewrite H. apply map_ext_in. intros b Hb.
      destruct (cell_eqb (ID b) idx) eqn:Eb; [|reflexivity].
      apply cell_eqb_eq in Eb. apply in_index_false in Ein.
      exfalso. apply Ein. rewrite <- Eb. now apply in_map.
Qed.

Lemma in_index_nodup_cells (c : cell) (l : list cell) :
  in_index c (nodup_cells l) = in_index c l.
Proof.
  induction l as [|a t IH]; simpl; [reflexivity|].
  destruct (in_index a t) eqn:E; simpl; rewrite IH; [|reflexivity].
  destruct (cell_eqb c a) eqn:Ec; [|reflexivity].
  apply cell_eqb_eq in Ec. subst. simpl. exact E.
Qed.

Lemma in_index_removed (c : cell) (ids_all ids_view : list cell) :
  in_index c (removed ids_all ids_view)
  = in_index c ids_all && negb (in_index c ids_view).
Proof.
  unfold removed. rewrite in_index_nodup_cells.
  destruct (in_index c (filter (fun x => negb (in_index x ids_view)) ids_all))
    eqn:E.
  - apply in_index_In, filter_In in E. destruct E as [H1 H2].
    apply in_index_In in H1. now rewrite H1, H2.
  - destruct (in_index c ids_all) eqn:E1; [|reflexivity].
    destruct (in_index c ids_view) eqn:E2; [reflexivity|].
    apply in_index_false in E. exfalso. apply E, filter_In.
    split; [now apply in_index_In | now rewrite E2].
Qed.

Lemma nodup_cells_nil (l : list cell) : nodup_cells l = [] -> l = [].
Proof.
  induction l as [|a t IH]; simpl; [reflexivity|].
  destruct (in_index a t) eqn:E; [|discriminate].
  intros H. apply IH in H. subst. discriminate.
Qed.

(** Lines 320-328 keep the lines whose label is kept. *)
Lemma delete_missing_filter (q : string) (ub_sel : list cell) (cfg : settings)
    (ed base : frame) :
  fst (delete_missing q ub_sel cfg ed base)
  = filter (fun b => kept q ub_sel cfg ed (ID b)) base.
Proof.
  unfold delete_missing, kept. destruct (can_delete q ub_sel cfg); simpl.
  - destruct (removed (ids base) (ids ed)) as [|c t] eqn:E; simpl.
    + symmetry. apply forallb_filter_id. apply forallb_forall. intros b Hb.
      destruct (in_index (ID b) (ids ed)) eqn:Ei; [reflexivity|].
      assert (H : in_index (ID b) (removed (ids base) (ids ed)) = true).
      { rewrite in_index_removed, Ei.
        rewrite (proj2 (in_index_In _ _)); [reflexivity | now apply in_map]. }
      rewrite E in H. discriminate.
    + rewrite <- E. unfold drop. apply filter_ext_in. intros b Hb.
      rewrite in_index_removed.
      rewrite (proj2 (in_index_In (ID b) (ids base))) by now apply in_map.
      simpl. apply negb_involutive.
  - symmetry. apply forallb_filter_id. now apply forallb_forall.
Qed.

Lemma normalized_merge_step (cfg : settings) (ed : frame) (b : row) :
  normalized_row cfg
    (match loc ed (ID b) with
     | Some e => overwrite b (updated_row cfg e)
     | None => b
     end)
  = merge_row cfg ed b.
Proof.
  unfold merge_row. destruct (loc ed (ID b)) as [e|]; [|reflexivity].
  unfold updated_row, overwrite, normalized_row at 1.
  cbn [ID ID_Similar Imagen Descripcion Unidad Cantidad Ubicacion_Fisica].
  unfold normalized_row at 1.
  cbn [ID ID_Similar Imagen Descripcion Unidad Cantidad Ubicacion_Fisica].
  now rewrite (normalize_idsim_idem laws).
Qed.

Lemma ID_merge_row (cfg : settings) (ed : frame) (b : row) :
  ID (merge_row cfg ed b) = ID b.
Proof. unfold merge_row. now destruct (loc ed (ID b)). Qed.


(** The table after line 333, as a function of the table before. *)
Lemma merged_table (q : string) (ub_sel : list cell) (cfg : settings)
    (edited df df' : frame) (msgs : list message) :
  merged q ub_sel cfg edited df = Some (df', msgs) ->
  df' = map (merge_row cfg edited)
          (filter (fun b => kept q ub_sel cfg edited (ID b)) df).
Proof.
  unfold merged.
  destruct (apply_edits cfg (ids edited) edited df) as [base|] eqn:E;
    [|discriminate].
  pose proof (delete_missing_filter q ub_sel cfg edited base) as Hd.
  destruct (delete_missing q ub_sel cfg edited base) as [base2 m].
  simpl in Hd. intros [= <- _]. subst base2.
  apply apply_edits_pointwise in E. subst base.
  rewrite filter_map_comm. unfold normalize_all. rewrite map_map.
  assert (Hf : forall b,
            kept q ub_sel cfg edited
              (ID (if in_index (ID b) (ids edited)
                   then match loc edited (ID b) with
                        | Some e => overwrite b (updated_row cfg e)
                        | None => b
                        end
                   else b))
            = kept q ub_sel cfg edited (ID b)).
  { intros b. destruct (in_index (ID b) (ids edited)); [|reflexivity].
    now destruct (loc edited (ID b)). }
  rewrite (filter_ext _ _ Hf). apply map_ext. intros b.
  destruct (in_index (ID b) (ids edited)) eqn:Ei.
  - apply normalized_merge_step.
  - rewrite <- normalized_merge_step.
    now rewrite (loc_not_in_index edited (ID b) Ei).
Qed.

Lemma reconcile_merged (q : string) (ub_sel : list cell) (cfg : settings)
    (edited : frame) (s s' : state) (msgs : list message) :
  reconcile q ub_sel cfg edited s = Some (s', msgs) ->
  st_df s' = map (merge_row cfg edited)
               (filter (fun b => kept q ub_sel cfg edited (ID b)) (st_df s)).
Proof.
  intros H. apply reconcile_df in H. destruct H as [m H].
  now apply merged_table in H.
Qed.

(** X14: what the merge writes.  Where it is defined, the table after
    the merge holds, in the order of the table before, the lines whose id
    is kept (all of them when deletion is refused, those the edited view
    carries otherwise); a line whose id the edited view carries takes the
    six fields of the edited line and keeps its id; any other line is as
    it was; and "ID Similar" is normalised on every line. *)
Theorem X14_merge_updates_by_id
    (q : string) (ub_sel : list cell) (cfg : settings)
    (edited : frame) (s s' : state) (msgs : list message) :
  reconcile q ub_sel cfg edited s = Some (s', msgs) ->
  st_df s'
  = map (fun b =>
           match loc edited (ID b) with
           | Some e => overwrite b (normalized_row cfg e)
           | None => normalized_row cfg b
           end)
      (filter (fun b =>
                 negb (can_delete q ub_sel cfg)
                 || in_index (ID b) (ids edited))
         (st_df s)).
Proof. apply reconcile_merged. Qed.

(** X15: the merge never adds a line.  The ids after the merge are the
    ids before it that are kept, in the same order; so the table does not
    grow, a line typed into the editor, whose id is not an id of the
    table, does not reach it, and ids that were distinct stay
    distinct. *)
Theorem X15_merge_never_adds_a_line
    (q : string) (ub_sel : list cell) (cfg : settings)
    (edited : frame) (s s' : state) (msgs : list message) :
  reconcile q ub_sel cfg edited s = Some (s', msgs) ->
  ids (st_df s') = filter (kept q ub_sel cfg edited) (ids (st_df s))
  /\ (List.length (st_df s') <= List.length (st_df s))%nat
  /\ (forall r, In r edited -> ~ In (ID r) (ids (st_df s)) ->
                ~ In (ID r) (ids (st_df s')))
  /\ (NoDup (ids (st_df s)) -> NoDup (ids (st_df s'))).
Proof.
  intros H. apply reconcile_merged in H.
  assert (Hids : ids (st_df s')
                 = filter (kept q ub_sel cfg edited) (ids (st_df s))).
  { rewrite H. unfold ids. rewrite map_map.
    rewrite (map_ext _ ID (ID_merge_row cfg edited)).
    symmetry. apply filter_map_comm. }
  split; [exact Hids|]. split; [|split].
  - rewrite H, length_map. apply filter_length_le.
  - intros r Hr Hn Hin. rewrite Hids in Hin. apply filter_In in Hin. tauto.
  - intros ND. rewrite Hids. now apply NoDup_filter.
Qed.

Lemma apply_edits_ext (cfg : settings) (ed1 ed2 : frame) :
  forall index base,
    (forall idx, In idx (ids base) -> loc ed1 idx = loc ed2 idx) ->
    apply_edits cfg index ed1 base = apply_edits cfg index ed2 base.
Proof.
  induction index as [|idx rest IH]; simpl; intros base H; [reflexivity|].
  destruct (in_index idx (ids base)) eqn:E; [|now apply IH].
  apply in_index_In in E. rewrite <- (H idx E).
  destruct (loc ed1 idx) as [e|]; [|reflexivity].
  destruct (loc base idx); [|reflexivity].
  apply IH. intros i Hi. rewrite ids_assign in Hi. now apply H.
Qed.

Lemma apply_edits_app (cfg : settings) (ed : frame) :
  forall i1 i2 base,
    apply_edits cfg (i1 ++ i2) ed base
    = match apply_edits cfg i1 ed base with
      | Some b => apply_edits cfg i2 ed b
      | None => None
      end.
Proof.
  induction i1 as [|idx rest IH]; simpl; intros i2 base; [reflexivity|].
  destruct (in_index idx (ids base)); [|apply IH].
  destruct (loc ed idx); [|reflexivity].
  destruct (loc base idx); [apply IH | reflexivity].
Qed.

Lemma apply_edits_unknown (cfg : settings) (ed : frame) :
  forall index base,
    (forall idx, In idx index -> ~ In idx (ids base)) ->
    apply_edits cfg index ed base = Some base.
Proof.
  induction index as [|idx rest IH]; simpl; intros base H; [reflexivity|].
  rewrite (proj2 (in_index_false idx (ids base))) by (apply H; now left).
  apply IH. intros i Hi. apply H. now right.
Qed.

Lemma loc_app_unknown (ed extra : frame) (idx : cell) :
  ~ In idx (ids extra) -> loc (ed ++ extra)%list idx = loc ed idx.
Proof.
  intros H. unfold loc. rewrite filter_app.
  rewrite (filter_none (labelled idx) extra); [now rewrite app_nil_r|].
  intros r Hr. destruct (labelled idx r) eqn:E; [|reflexivity].
  apply labelled_eq in E. exfalso. apply H. rewrite <- E. now apply in_map.
Qed.

Lemma in_index_app (c : cell) (a b : list cell) :
  in_index c (a ++ b) = in_index c a || in_index c b.
Proof. apply existsb_app. Qed.

(** X16: lines typed into the editor are ignored.  When the lines
    appended to the edited view carry no id of the table, as the lines
    added in the editor do, the merge gives the table and the messages it
    gives without them. *)
Theorem X16_merge_ignores_new_lines
    (q : string) (ub_sel : list cell) (cfg : settings)
    (edited extra : frame) (s : state) :
  (forall r, In r extra -> ~ In (ID r) (ids (st_df s))) ->
  reconcile q ub_sel cfg (edited ++ extra)%list s
  = reconcile q ub_sel cfg edited s.
Proof.
  intros H.
  assert (Hx : forall idx, In idx (ids (st_df s)) -> ~ In idx (ids extra)).
  { intros idx Hin Hex. apply in_map_iff in Hex.
    destruct Hex as [r [<- Hr]]. now apply (H r). }
  unfold reconcile, merged.
  rewrite ids_app, apply_edits_app.
  rewrite (apply_edits_ext cfg (edited ++ extra)%list edited (ids edited))
    by (intros idx Hin; apply loc_app_unknown; now apply Hx).
  destruct (apply_edits cfg (ids edited) edited (st_df s)) as [base|] eqn:E;
    [|reflexivity].
  pose proof (apply_edits_ids _ _ _ _ _ E) as Hids.
  rewrite apply_edits_unknown.
  2:{ intros idx Hin Hb. rewrite Hids in Hb. now apply (Hx idx). }
  assert (Hd : delete_missing q ub_sel cfg (edited ++ extra)%list base
               = delete_missing q ub_sel cfg edited base).
  { unfold delete_missing. destruct (can_delete q ub_sel cfg); [|reflexivity].
    assert (Hr : removed (ids base) (ids (edited ++ extra)%list)
                 = removed (ids base) (ids edited)).
    { unfold removed. f_equal. apply filter_ext_in. intros c Hc.
      rewrite ids_app, in_index_app.
      rewrite (proj2 (in_index_false c (ids extra))); [now rewrite orb_false_r|].
      apply Hx. now rewrite <- Hids. }
    now rewrite Hr. }
  now rewrite Hd.
Qed.

Lemma normalize_idsim_fixed (cfg : settings) (r : row) :
  exists k,
    ID_Similar (normalized_row cfg r) = CStr k
    /\ _normalize_idsim (CStr k) (norm_case cfg) (strip_spaces cfg) = k.
Proof.
  eexists. split; [reflexivity|]. apply (normalize_idsim_idem laws).
Qed.

Lemma merge_row_normalized (cfg : settings) (ed : frame) (b : row) :
  exists k,
    ID_Similar (merge_row cfg ed b) = CStr k
    /\ _normalize_idsim (CStr k) (norm_case cfg) (strip_spaces cfg) = k.
Proof.
  unfold merge_row. destruct (loc ed (ID b)) as [e|].
  - apply (normalize_idsim_fixed cfg e).
  - apply normalize_idsim_fixed.
Qed.

(** X17: what the merge saves.  Where the merge is defined, every line
    of the table after it carries, as "ID Similar", a string that the
    normalisation leaves as it is; either the duplicate check answers no
    on that table, the table is saved, the cache reset and success
    reported, or the check answers yes, the world is left as it was and
    the error is reported. *)
Theorem X17_merge_saves_only_checked_tables
    (q : string) (ub_sel : list cell) (cfg : settings)
    (edited : frame) (s s' : state) (msgs : list message) :
  reconcile q ub_sel cfg edited s = Some (s', msgs) ->
  Forall (fun r =>
            exists k,
              ID_Similar r = CStr k
              /\ _normalize_idsim (CStr k) (norm_case cfg) (strip_spaces cfg)
                 = k)
    (st_df s')
  /\ ((_has_dup_desc_ubic (st_df s') = false
       /\ st_world s' = cache_clear (save_data (st_df s') (st_world s))
       /\ In Success_saved msgs
       /\ ~ In Error_duplicates_not_saved msgs)
      \/ (_has_dup_desc_ubic (st_df s') = true
          /\ st_world s' = st_world s
          /\ In Error_duplicates_not_saved msgs
          /\ ~ In Success_saved msgs)).
Proof.
  intros H. split.
  - rewrite (reconcile_merged _ _ _ _ _ _ _ H). apply Forall_forall.
    intros r Hr. apply in_map_iff in Hr. destruct Hr as [b [<- _]].
    apply merge_row_normalized.
  - unfold reconcile in H.
    destruct (merged q ub_sel cfg edited (st_df s)) as [[df m]|] eqn:Em;
      [|discriminate].
    assert (Hm : forall x, In x m -> exists n, x = Info_removed n).
    { unfold merged in Em.
      destruct (apply_edits cfg (ids edited) edited (st_df s)); [|discriminate].
      unfold delete_missing in Em.
      destruct (can_delete q ub_sel cfg);
        [destruct (truthy_list _)|]; injection Em as _ <-;
        intros x Hx; simpl in Hx; try contradiction.
      destruct Hx as [<- | []]. eauto. }
    destruct (_has_dup_desc_ubic df) eqn:Ed; injection H as <- <-;
      cbn [st_df st_world]; [right | left]; rewrite Ed;
      (split; [reflexivity|]); (split; [reflexivity|]); split;
      try (apply in_or_app; right; now left);
      intros Hin; apply in_app_or in Hin;
      destruct Hin as [Hin | [Hin | []]]; try discriminate;
      apply Hm in Hin; destruct Hin as [n Hn]; discriminate.
Qed.

Lemma apply_edits_Some_inv (cfg : settings) (ed : frame) :
  forall index base base',
    apply_edits cfg index ed base = Some base' ->
    forall idx, In idx index -> In idx (ids base) ->
                occurs_once idx (ids ed) /\ occurs_once idx (ids base).
Proof.
  induction index as [|i rest IH]; simpl; intros base base' H idx Hin Hb;
    [contradiction|].
  destruct (in_index i (ids base)) eqn:Ei.
  - destruct (loc ed i) as [e|] eqn:Ee; [|discriminate].
    destruct (loc base i) as [b|] eqn:Eb; [|discriminate].
    destruct Hin as [-> | Hin].
    + split; apply loc_defined; congruence.
    + specialize (IH _ _ H idx Hin). rewrite ids_assign in IH. now apply IH.
  - destruct Hin as [-> | Hin].
    + apply in_index_false in Ei. contradiction.
    + now apply (IH _ _ H).
Qed.

Lemma merge_row_idem (cfg : settings) (ed : frame) (b : row) :
  merge_row cfg ed (merge_row cfg ed b) = merge_row cfg ed b.
Proof.
  unfold merge_row at 1. rewrite ID_merge_row. unfold merge_row.
  destruct (loc ed (ID b)) as [e|]; [reflexivity|].
  apply (normalized_row_idem laws).
Qed.

Lemma filter_idem {A : Type} (p : A -> bool) (l : list A) :
  filter p (filter p l) = filter p l.
Proof. now apply filter_filter_implied. Qed.

Lemma merged_no_message (q : string) (ub_sel : list cell) (cfg : settings)
    (edited df d : frame) (m : list message) :
  merged q ub_sel cfg edited df = Some (d, m) ->
  (can_delete q ub_sel cfg = true ->
   forall c, In c (ids df) -> In c (ids edited)) ->
  m = [].
Proof.
  unfold merged. intros H Hall.
  destruct (apply_edits cfg (ids edited) edited df) as [base|] eqn:E;
    [|discriminate].
  apply apply_edits_ids in E. unfold delete_missing in H.
  destruct (can_delete q ub_sel cfg); [|now injection H as _ <-].
  assert (Hr : removed (ids base) (ids edited) = []).
  { unfold removed. rewrite filter_none; [reflexivity|].
    intros c Hc. rewrite E in Hc.
    now rewrite (proj2 (in_index_In c (ids edited)) (Hall eq_refl c Hc)). }
  rewrite Hr in H. simpl in H. now injection H as _ <-.
Qed.

(** X18: the merge is idempotent.  Merging the same edited view, with
    the same settings, into the table that a merge returned is defined,
    returns that table unchanged and reports no removal. *)
Theorem X18_merge_is_idempotent
    (q : string) (ub_sel : list cell) (cfg : settings)
    (edited df df' : frame) (msgs : list message) :
  merged q ub_sel cfg edited df = Some (df', msgs) ->
  merged q ub_sel cfg edited df' = Some (df', []).
Proof.
  intros H. pose proof (merged_table _ _ _ _ _ _ _ H) as Hdf.
  assert (Hids : ids df' = filter (kept q ub_sel cfg edited) (ids df)).
  { rewrite Hdf. unfold ids. rewrite map_map.
    rewrite (map_ext _ ID (ID_merge_row cfg edited)).
    symmetry. apply filter_map_comm. }
  set (K := fun b : row => kept q ub_sel cfg edited (ID b)) in *.
  assert (Hdef : apply_edits cfg (ids edited) edited df' <> None).
  { apply apply_edits_defined. intros idx Hi Hin.
    rewrite Hids in Hin. apply filter_In in Hin. destruct Hin as [Hin Hk].
    unfold merged in H.
    destruct (apply_edits cfg (ids edited) edited df) as [base|] eqn:E;
      [|discriminate].
    destruct (apply_edits_Some_inv _ _ _ _ _ E idx Hi Hin) as [H1 H2].
    split; [exact H1|]. rewrite Hids. unfold occurs_once in *.
    rewrite filter_filter_implied; [exact H2|].
    intros x Hx. apply cell_eqb_eq in Hx. now subst. }
  destruct (merged q ub_sel cfg edited df') as [[d2 m2]|] eqn:E2.
  - pose proof (merged_table _ _ _ _ _ _ _ E2) as Hd2.
    pose proof (merged_no_message _ _ _ _ _ _ _ E2) as Hm2.
    rewrite Hm2.
    2:{ intros Hcd c Hc. rewrite Hids in Hc. apply filter_In in Hc.
        destruct Hc as [_ Hk]. unfold kept in Hk. rewrite Hcd in Hk.
        now apply in_index_In. }
    f_equal. f_equal. rewrite Hd2, Hdf.
    rewrite filter_map_comm.
    rewrite (filter_ext (fun a => kept q ub_sel cfg edited
                                    (ID (merge_row cfg edited a))) K)
      by (intros a; unfold K; now rewrite ID_merge_row).
    fold K. rewrite filter_idem, map_map.
    apply map_ext. intros b. apply merge_row_idem.
  - exfalso. unfold merged in E2.
    destruct (apply_edits cfg (ids edited) edited df') as [b|];
      [|now apply Hdef].
    destruct (delete_missing q ub_sel cfg edited b). discriminate.
Qed.

(* ===================================================================== *)
(** * The filters *)
(* ===================================================================== *)

Lemma prefix_app (p b : string) : String.prefix p (p ++ b) = true.
Proof.
  induction p as [|c t IH]; simpl; [now destruct b|].
  destruct (ascii_dec c c); [exact IH | congruence].
Qed.

Lemma contains_prefix (p x : string) :
  String.prefix p x = true -> contains p x = true.
Proof. intros H. destruct x; cbn [contains]; now rewrite H. Qed.

Lemma contains_here (p b : string) : contains p (p ++ b) = true.
Proof. apply contains_prefix, prefix_app. Qed.

(** A string occurs in whatever is written around it. *)
Lemma contains_app (p a b : string) : contains p (a ++ p ++ b) = true.
Proof.
  induction a as [|c t IH]; simpl.
  - apply contains_here.
  - rewrite IH. apply orb_true_r.
Qed.

Lemma filter_both {A : Type} (p q : A -> bool) (l : list A) :
  filter p (filter q l) = filter (fun x => q x && p x) l.
Proof.
  induction l as [|a t IH]; simpl; [reflexivity|].
  destruct (q a); simpl; [destruct (p a)|]; now rewrite IH.
Qed.

Lemma view_df_In (q : string) (ub_sel : list cell) (df : frame) (r : row) :
  In r (view_df q ub_sel df)
  <-> In r df
      /\ (q = "" \/ row_matches (lower q) r = true)
      /\ (ub_sel = [] \/ In (Ubicacion_Fisica r) ub_sel).
Proof.
  unfold view_df, truthy_str.
  destruct (String.eqb q "") eqn:Eq; simpl negb; cbv iota;
    [apply String.eqb_eq in Eq | apply String.eqb_neq in Eq];
    destruct ub_sel as [|u us]; simpl truthy_list; cbv iota;
    rewrite ?filter_In, ?in_index_In; intuition (try discriminate; auto).
Qed.

(** X19: the view is a selection of the lines of the table, in their
    order; it is the whole table when the search box and the location
    selection are empty; hence, when deletion is allowed although the
    option "Permitir borrar filas cuando hay filtros activos" is off,
    the view hides no line of the table. *)
Theorem X19_view_is_the_table_unless_filtered
    (q : string) (ub_sel : list cell) (cfg : settings) (df : frame) :
  (exists p, view_df q ub_sel df = filter p df)
  /\ view_df "" [] df = df
  /\ (can_delete q ub_sel cfg = true ->
      allow_delete_filtered cfg = false ->
      view_df q ub_sel df = df).
Proof.
  split; [|split].
  - unfold view_df. destruct (truthy_str q), (truthy_list ub_sel).
    + eexists. apply filter_both.
    + eexists. reflexivity.
    + eexists. reflexivity.
    + exists (fun _ => true). symmetry. apply forallb_filter_id.
      now apply forallb_forall.
  - reflexivity.
  - unfold can_delete, view_df. intros H Ha. rewrite Ha, orb_false_r in H.
    apply andb_true_iff in H. destruct H as [H1 H2].
    apply negb_true_iff in H1, H2. now rewrite H1, H2.
Qed.

Lemma prefix_split (p s : string) :
  String.prefix p s = true -> exists b, s = p ++ b.
Proof.
  revert s. induction p as [|c t IH]; intros s H.
  - now exists s.
  - destruct s as [|x u]; [discriminate|]. simpl in H.
    destruct (ascii_dec c x) as [<- | _]; [|discriminate].
    destruct (IH u H) as [b ->]. now exists b.
Qed.

(** [ql in text]: the text is [ql] with something before and after. *)
Lemma contains_occurs (ql text : string) :
  contains ql text = true <-> exists a b, text = a ++ ql ++ b.
Proof.
  split.
  - induction text as [|c t IH]; cbn [contains]; intros H;
      apply orb_true_iff in H; destruct H as [H | H].
    + destruct (prefix_split _ _ H) as [b ->]. now exists "", b.
    + discriminate.
    + destruct (prefix_split _ _ H) as [b ->]. now exists "", b.
    + destruct (IH H) as [a [b ->]]. now exists (String c a), b.
  - intros [a [b ->]]. apply contains_app.
Qed.

Lemma row_matches_occurs (ql : string) (r : row) :
  row_matches ql r = true
  <-> exists c a b,
        In c [Descripcion r; Ubicacion_Fisica r; ID r; ID_Similar r]
        /\ lower (py_str c) = a ++ ql ++ b.
Proof.
  unfold row_matches. rewrite existsb_exists. split.
  - intros [c [Hc H]]. apply contains_occurs in H.
    destruct H as [a [b H]]. now exists c, a, b.
  - intros [c [a [b [Hc H]]]]. exists c. split; [exact Hc|].
    apply contains_occurs. now exists a, b.
Qed.

(** X20: the search box.  A line is shown exactly when it is a line of
    the table, the text of the box is empty or its lower-case form
    occurs in the lower-case form of the text of the description, the
    location, the id or the "ID Similar" of the line, and no location is
    selected or the location of the line is among the selected ones. *)
Theorem X20_search_is_case_insensitive_substring
    (q : string) (ub_sel : list cell) (df : frame) (r : row) :
  In r (view_df q ub_sel df)
  <-> In r df
      /\ (q = ""
          \/ exists c a b,
               In c [Descripcion r; Ubicacion_Fisica r; ID r; ID_Similar r]
               /\ lower (py_str c) = a ++ lower q ++ b)
      /\ (ub_sel = [] \/ In (Ubicacion_Fisica r) ub_sel).
Proof.
  rewrite view_df_In, row_matches_occurs. reflexivity.
Qed.

End Handlers.

Lemma X11_witness :
  _has_dup_desc_ubic
    ([tornillo; tuerca]
       ++ [new_row default_settings [tornillo; tuerca]
             (mk_alta "" " Arandela " "caja" 1 "B2" "")])%list
  = false.
Proof.
  apply (X11_add_appends_and_keeps_no_duplicates sample_laws
           default_settings
           (mk_alta "" " Arandela " "caja" 1 "B2" "")
           (mk_state local_world [tornillo; tuerca])).
  reflexivity.
Defined.

Lemma X12_witness :
  NoDup
    (ids (st_df (fst (alta_submit default_settings
                        (mk_alta "" "Arandela" "caja" 1 "B2" "")
                        (mk_state local_world [tornillo; tuerca]))))).
Proof.
  apply X12_add_keeps_ids_distinct.
  - repeat constructor; simpl; intuition discriminate.
  - repeat constructor.
  - repeat constructor.
Defined.

Lemma X14_witness :
  st_df (mk_state local_world [tornillo; tuerca_edited])
  = map (fun b =>
           match loc [tuerca_edited] (ID b) with
           | Some e => overwrite b (normalized_row default_settings e)
           | None => normalized_row default_settings b
           end)
      (filter (fun b =>
                 negb (can_delete "tue" [] default_settings)
                 || in_index (ID b) (ids [tuerca_edited]))
         (st_df (mk_state local_world [tornillo; tuerca]))).
Proof.
  apply (X14_merge_updates_by_id sample_laws "tue" [] default_settings [tuerca_edited]
           (mk_state local_world [tornillo; tuerca])
           (mk_state local_world [tornillo; tuerca_edited])
           [Error_duplicates_not_saved]).
  reflexivity.
Defined.

Lemma X15_witness :
  ids (st_df (mk_state local_world [tornillo; tuerca_edited]))
  = filter (kept "tue" [] default_settings [tuerca_edited])
      (ids (st_df (mk_state local_world [tornillo; tuerca]))).
Proof.
  apply (X15_merge_never_adds_a_line sample_laws "tue" [] default_settings [tuerca_edited]
           (mk_state local_world [tornillo; tuerca])
           (mk_state local_world [tornillo; tuerca_edited])
           [Error_duplicates_not_saved]).
  reflexivity.
Defined.

Lemma X16_witness :
  reconcile "" [] default_settings
    ([tornillo; tuerca]
       ++ [mk_row CNone CNone CNone (CStr "Clavo") (CStr "pz") (CInt 9)
             (CStr "C3")])%list
    (mk_state local_world [tornillo; tuerca])
  = reconcile "" [] default_settings [tornillo; tuerca]
      (mk_state local_world [tornillo; tuerca]).
Proof.
  apply X16_merge_ignores_new_lines.
  intros r [<- | []]. simpl. intuition discriminate.
Defined.

Lemma X17_witness :
  Forall (fun r =>
            exists k,
              ID_Similar r = CStr k
              /\ _normalize_idsim (CStr k) Sin_cambio true = k)
    [tornillo; tuerca_edited].
Proof.
  apply (X17_merge_saves_only_checked_tables sample_laws "" [] default_settings
           [tornillo; tuerca_edited]
           (mk_state local_world [tornillo; tuerca])
           (mk_state local_world [tornillo; tuerca_edited])
           [Error_duplicates_not_saved]).
  reflexivity.
Defined.

Lemma X18_witness :
  merged "" [] upper_settings [tornillo]
    [mk_row (CStr "I-0001") (CStr "FAM-A") (CStr "") (CStr "Tornillo")
       (CStr "pz") (CInt 3) (CStr "A1")]
  = Some ([mk_row (CStr "I-0001") (CStr "FAM-A") (CStr "") (CStr "Tornillo")
             (CStr "pz") (CInt 3) (CStr "A1")], []).
Proof.
  apply (X18_merge_is_idempotent sample_laws "" [] upper_settings [tornillo]
           [tornillo; tuerca] _ [Info_removed 1]).
  reflexivity.
Defined.

Lemma X19_witness :
  view_df "" [] [tornillo; tuerca] = [tornillo; tuerca].
Proof.
  apply (proj2 (proj2 (X19_view_is_the_table_unless_filtered "" []
                         default_settings [tornillo; tuerca])));
    reflexivity.
Defined.

(** The search box on the sample table: the text [i-0002] shows the
    second line, whose id it is in lower case. *)
Example search_finds_the_id :
  view_df "i-0002" [] [tornillo; tuerca; arandela] = [tuerca].
Proof. reflexivity. Qed.

(* ===================================================================== *)
(** * The QR payload *)
(* ===================================================================== *)

Section QrPayload.

Context {lib : Library}.

Lemma count_char_app (c : ascii) (a b : string) :
  count_char c (a ++ b) = (count_char c a + count_char c b)%nat.
Proof. induction a as [|x t IH]; simpl; [reflexivity | rewrite IH; lia]. Qed.

Lemma contains_question_mark (b : string) :
  contains "?" b = negb (Nat.eqb (count_char "?" b) 0).
Proof.
  induction b as [|c t IH]; [reflexivity|].
  cbn [contains count_char String.prefix]. rewrite IH.
  destruct (ascii_dec "?" c) as [<- | Hne].
  - simpl. now destruct t.
  - destruct (Ascii.eqb c "?") eqn:E.
    + apply Ascii.eqb_eq in E. congruence.
    + reflexivity.
Qed.

(** X26: the payload of the QR.  Without a base address it is the id
    itself.  With one, it is the base address, a separator, [id=] and
    the id, where the separator is [&] when the address already holds a
    question mark and [?] when it does not: so the payload holds the
    question marks of the address, or one if the address has none, and
    those of the id. *)
Theorem X26_qr_payload_has_one_query (b sel_qr : string) :
  b <> "" ->
  qr_payload None sel_qr = sel_qr
  /\ qr_payload (Some "") sel_qr = sel_qr
  /\ (exists sep,
         qr_payload (Some b) sel_qr = b ++ sep ++ "id=" ++ sel_qr
         /\ (sep = "&" \/ sep = "?")
         /\ (sep = "&" <-> count_char "?" b <> 0%nat))
  /\ count_char "?" (qr_payload (Some b) sel_qr)
     = (Nat.max 1 (count_char "?" b) + count_char "?" sel_qr)%nat.
Proof.
  intros Hb. split; [reflexivity|]. split; [reflexivity|].
  unfold qr_payload, truthy_str. apply String.eqb_neq in Hb. rewrite Hb.
  simpl negb. cbv iota. rewrite contains_question_mark.
  destruct (Nat.eqb (count_char "?" b) 0) eqn:E; simpl negb; cbv iota.
  - apply Nat.eqb_eq in E. split.
    + exists "?". split; [reflexivity|]. split; [now right|].
      split; [discriminate | intros H; contradiction].
    + rewrite !count_char_app, E. reflexivity.
  - apply Nat.eqb_neq in E. split.
    + exists "&". split; [reflexivity|]. split; [now left|].
      split; [intros _; exact E | reflexivity].
    + rewrite !count_char_app. cbn [count_char Ascii.eqb Bool.eqb].
      destruct (count_char "?" b); [contradiction | reflexivity].
Qed.

End QrPayload.

Lemma X26_witness :
  count_char "?" (qr_payload (Some "https://inv.example/app") "I-0007")
  = (Nat.max 1 (count_char "?" "https://inv.example/app")
     + count_char "?" "I-0007")%nat.
Proof.
  apply (X26_qr_payload_has_one_query "https://inv.example/app" "I-0007").
  discriminate.
Defined.
